(** * EZCollections Manager: a shallow embedding and its verified properties

    The add-on (src/OLD/EZCollections.py, version 2.4, and its predecessor
    src/OLD/EZCollections Manager(old).py, version 1.2) is a set of
    operators over the host's scene data.  The host's data blocks are
    modelled as finite maps keyed by data-block name, which is how the
    add-on itself addresses them ([bpy.data.objects.get(name)],
    [bpy.data.collections.get(name)]); a Python reference to a data block
    is its key. *)

From Stdlib Require Import Ascii ZArith SpecFloat QArith.
From stdpp Require Import gmap strings list fin_maps pretty relations.

Local Close Scope Q_scope.

Local Open Scope string_scope.
Local Open Scope nat_scope.

(* ===================================================================== *)
(** ** Strings as the add-on uses them                                    *)
(* ===================================================================== *)

(** A Python [str] is held as its UTF-8 bytes, which is also how the host
    stores and measures a data-block name.

    [str.isspace] on the ASCII range: TAB, LF, VT, FF, CR, FS, GS, RS, US
    and the blank. *)
Definition is_py_space (a : Ascii.ascii) : bool :=
  let n := Ascii.nat_of_ascii a in
  ((9 <=? n) && (n <=? 13)) || ((28 <=? n) && (n <=? 32)).

(** The white space outside ASCII, by its UTF-8 bytes: U+0085 and U+00A0
    (two bytes), U+1680, U+2000 to U+200A, U+2028, U+2029, U+202F, U+205F
    and U+3000 (three bytes). *)
Definition is_py_space2 (a b : Ascii.ascii) : bool :=
  let m := Ascii.nat_of_ascii a in
  let n := Ascii.nat_of_ascii b in
  (m =? 194) && ((n =? 133) || (n =? 160)).

Definition is_py_space3 (a b c : Ascii.ascii) : bool :=
  let l := Ascii.nat_of_ascii a in
  let m := Ascii.nat_of_ascii b in
  let n := Ascii.nat_of_ascii c in
  ((l =? 225) && (m =? 154) && (n =? 128))
  || ((l =? 226) && (m =? 128)
      && (((128 <=? n) && (n <=? 138)) || (n =? 168) || (n =? 169) || (n =? 175)))
  || ((l =? 226) && (m =? 129) && (n =? 159))
  || ((l =? 227) && (m =? 128) && (n =? 128)).

(** Dropping the leading white space, the tests for the characters of one,
    two and three bytes given. *)
Fixpoint lstrip_by (sp1 : Ascii.ascii → bool) (sp2 : Ascii.ascii → Ascii.ascii → bool)
    (sp3 : Ascii.ascii → Ascii.ascii → Ascii.ascii → bool) (s : string) : string :=
  match s with
  | EmptyString => EmptyString
  | String a s1 =>
      if sp1 a then lstrip_by sp1 sp2 sp3 s1
      else match s1 with
           | EmptyString => s
           | String b s2 =>
               if sp2 a b then lstrip_by sp1 sp2 sp3 s2
               else match s2 with
                    | EmptyString => s
                    | String c s3 =>
                        if sp3 a b c then lstrip_by sp1 sp2 sp3 s3 else s
                    end
           end
  end.

Definition lstrip (s : string) : string :=
  lstrip_by is_py_space is_py_space2 is_py_space3 s.

(** From the right the bytes of a character come last byte first. *)
Definition rstrip (s : string) : string :=
  String.rev
    (lstrip_by is_py_space (λ b a, is_py_space2 a b) (λ c b a, is_py_space3 a b c)
       (String.rev s)).

(** [s.strip()] *)
Definition strip (s : string) : string := rstrip (lstrip s).

(** [s.startswith(p)] *)
Definition startswith (p s : string) : bool := String.prefix p s.

(* ===================================================================== *)
(** ** Name uniquification                                                *)
(* ===================================================================== *)

(** The [while name in existing_names] loop of [generate_unique_name]
    (version 2.4).  [fuel] bounds the number of loop tests; [None] means
    the bound was reached before the loop exited. *)
Fixpoint generate_unique_name_loop (fuel : nat) (base_name : string)
    (existing_names : list string) (name : string) (counter : nat)
    : option string :=
  match fuel with
  | 0 => None
  | S fuel' =>
      if bool_decide (name ∈ existing_names)
      then generate_unique_name_loop fuel' base_name existing_names
             (base_name +:+ "_" +:+ pretty counter) (S counter)
      else Some name
  end.

Definition generate_unique_name_fuel (fuel : nat) (base_name : string)
    (existing_names : list string) : option string :=
  generate_unique_name_loop fuel base_name existing_names base_name 1.

(** The loop exits after at most [length existing_names + 1] tests
    (lemma [generate_unique_name_terminates] below), so this is the value
    the Python function returns. *)
Definition generate_unique_name (base_name : string)
    (existing_names : list string) : string :=
  default base_name
    (generate_unique_name_fuel (2 + length existing_names) base_name existing_names).

Module Legacy.
(** Version 1.2, inlined in [OBJECT_OT_ez_create_collection.execute]:
    [existing = [c.name for c in bpy.data.collections if c.name.startswith(base)]]
    followed by [name = base; i = 1; while name in existing: ...]. *)
Fixpoint unique_loop (fuel : nat) (base : string) (existing : list string)
    (name : string) (i : nat) : option string :=
  match fuel with
  | 0 => None
  | S fuel' =>
      if bool_decide (name ∈ existing)
      then unique_loop fuel' base existing (base +:+ "_" +:+ pretty i) (S i)
      else Some name
  end.

Definition unique_name_fuel (fuel : nat) (base : string)
    (collection_names : list string) : option string :=
  let existing := filter (λ n, startswith base n = true) collection_names in
  unique_loop fuel base existing base 1.
End Legacy.

(* ===================================================================== *)
(** ** Host data blocks                                                   *)
(* ===================================================================== *)

(** A coordinate of [mathutils.Vector]: a single-precision float (the
    [float] of C, IEEE 754 binary32), with the sum, product and quotient
    rounded to nearest, ties to even. *)
Definition f32 : Set := spec_float.

Definition f32_zero : f32 := S754_zero false.

Definition f32_of_nat (n : nat) : f32 := binary_normalize 24 128 (Z.of_nat n) 0 false.

Definition f32_add (x y : f32) : f32 := SFadd 24 128 x y.

Definition f32_mul (x y : f32) : f32 := SFmul 24 128 x y.

Definition f32_div (x y : f32) : f32 := SFdiv 24 128 x y.

(** [mathutils.Vector] of size 3; [Vector()] is the zero vector. *)
Record Vector := mkVector { vx : f32; vy : f32; vz : f32 }.

Definition vzero : Vector := mkVector f32_zero f32_zero f32_zero.

(** [u + v] *)
Definition vadd (u v : Vector) : Vector :=
  mkVector (f32_add (vx u) (vx v)) (f32_add (vy u) (vy v)) (f32_add (vz u) (vz v)).

(** [v / n] for an integer [n] that is not zero: the host multiplies each
    coordinate by the single-precision reciprocal [1.0f / n]. *)
Definition vdiv (v : Vector) (n : nat) : Vector :=
  let r := f32_div (f32_of_nat 1) (f32_of_nat n) in
  mkVector (f32_mul (vx v) r) (f32_mul (vy v) r) (f32_mul (vz v) r).

(** [sum(vs, Vector())]: Python's [sum] adds from the left, starting from
    the given zero. *)
Definition vsum (vs : list Vector) : Vector := foldl vadd vzero vs.

Inductive ObType := MESH | EMPTY | OTHER_TYPE.

Global Instance ObType_eq_dec : EqDecision ObType.
Proof. solve_decision. Defined.

(** The attributes of [bpy.types.Object] that the add-on reads or writes.
    [ob_world] is [matrix_world.translation]. *)
Record Object := mkObject {
  ob_type : ObType;
  ob_parent : option string;
  ob_hide_viewport : bool;
  ob_hide_render : bool;
  ob_location : Vector;
  ob_world : Vector;
  ob_show_in_front : bool;
  ob_show_name : bool;
}.

(** What [parent_set(keep_transform=True)] and
    [parent_clear(type='CLEAR_KEEP_TRANSFORM')] do to an object: the world
    transform is kept, and the object's own [location] becomes its world
    translation. *)
Definition ob_reparent (p : option string) (o : Object) : Object :=
  mkObject (ob_type o) p (ob_hide_viewport o) (ob_hide_render o)
    (ob_world o) (ob_world o) (ob_show_in_front o) (ob_show_name o).

Definition ob_with_hide_viewport (b : bool) (o : Object) : Object :=
  mkObject (ob_type o) (ob_parent o) b (ob_hide_render o)
    (ob_location o) (ob_world o) (ob_show_in_front o) (ob_show_name o).

(** The attributes of [bpy.types.Collection] that the add-on reads or
    writes.  [col_ez_pivot] is the custom property ["ez_pivot"]; members
    and children are held by name. *)
Record Collection := mkCollection {
  col_hide_viewport : bool;
  col_hide_render : bool;
  col_ez_pivot : option string;
  col_color_tag : string;
  col_objects : list string;
  col_children : list string;
}.

Definition col_with_hide_viewport (b : bool) (c : Collection) : Collection :=
  mkCollection b (col_hide_render c) (col_ez_pivot c) (col_color_tag c)
    (col_objects c) (col_children c).

Definition col_with_hide_render (b : bool) (c : Collection) : Collection :=
  mkCollection (col_hide_viewport c) b (col_ez_pivot c) (col_color_tag c)
    (col_objects c) (col_children c).

Definition col_with_ez_pivot (p : option string) (c : Collection) : Collection :=
  mkCollection (col_hide_viewport c) (col_hide_render c) p (col_color_tag c)
    (col_objects c) (col_children c).

Definition col_with_color_tag (t : string) (c : Collection) : Collection :=
  mkCollection (col_hide_viewport c) (col_hide_render c) (col_ez_pivot c) t
    (col_objects c) (col_children c).

Definition col_with_objects (l : list string) (c : Collection) : Collection :=
  mkCollection (col_hide_viewport c) (col_hide_render c) (col_ez_pivot c)
    (col_color_tag c) l (col_children c).

Definition col_with_children (l : list string) (c : Collection) : Collection :=
  mkCollection (col_hide_viewport c) (col_hide_render c) (col_ez_pivot c)
    (col_color_tag c) (col_objects c) l.

(** What [bpy.data.collections.new] returns before any attribute is set. *)
Definition new_collection : Collection :=
  mkCollection false false None "NONE" [] [].

(** A reference to a collection: the scene's master collection
    ([context.scene.collection], which is not in [bpy.data.collections]
    and carries no custom property here) or a member of
    [bpy.data.collections]. *)
Inductive CollRef := Master | Named (name : string).

Global Instance CollRef_eq_dec : EqDecision CollRef.
Proof. solve_decision. Defined.

(** The host state the add-on works on, with its own global
    [_last_selected]. *)
Record Blend := mkBlend {
  objects : gmap string Object;              (* bpy.data.objects *)
  collections : gmap string Collection;      (* bpy.data.collections *)
  meshes : list string;                      (* bpy.data.meshes *)
  materials : list string;                   (* bpy.data.materials *)
  scene_objects : list string;               (* context.scene.collection.objects *)
  scene_children : list string;              (* context.scene.collection.children *)
  scene_solo_backup : option (gmap string bool); (* context.scene["ez_solo_backup"] *)
  selected_objects : list string;            (* context.selected_objects *)
  active_object : option string;             (* context.view_layer.objects.active *)
  active_layer_collection : option CollRef;  (* context.view_layer.active_layer_collection *)
  last_selected : gset string;               (* _last_selected *)
}.

Definition with_objects (x : gmap string Object) (st : Blend) : Blend :=
  mkBlend x (collections st) (meshes st) (materials st) (scene_objects st)
    (scene_children st) (scene_solo_backup st) (selected_objects st)
    (active_object st) (active_layer_collection st) (last_selected st).

Definition with_collections (x : gmap string Collection) (st : Blend) : Blend :=
  mkBlend (objects st) x (meshes st) (materials st) (scene_objects st)
    (scene_children st) (scene_solo_backup st) (selected_objects st)
    (active_object st) (active_layer_collection st) (last_selected st).

Definition with_meshes (x : list string) (st : Blend) : Blend :=
  mkBlend (objects st) (collections st) x (materials st) (scene_objects st)
    (scene_children st) (scene_solo_backup st) (selected_objects st)
    (active_object st) (active_layer_collection st) (last_selected st).

Definition with_materials (x : list string) (st : Blend) : Blend :=
  mkBlend (objects st) (collections st) (meshes st) x (scene_objects st)
    (scene_children st) (scene_solo_backup st) (selected_objects st)
    (active_object st) (active_layer_collection st) (last_selected st).

Definition with_scene_objects (x : list string) (st : Blend) : Blend :=
  mkBlend (objects st) (collections st) (meshes st) (materials st) x
    (scene_children st) (scene_solo_backup st) (selected_objects st)
    (active_object st) (active_layer_collection st) (last_selected st).

Definition with_scene_children (x : list string) (st : Blend) : Blend :=
  mkBlend (objects st) (collections st) (meshes st) (materials st)
    (scene_objects st) x (scene_solo_backup st) (selected_objects st)
    (active_object st) (active_layer_collection st) (last_selected st).

Definition with_solo_backup (x : option (gmap string bool)) (st : Blend) : Blend :=
  mkBlend (objects st) (collections st) (meshes st) (materials st)
    (scene_objects st) (scene_children st) x (selected_objects st)
    (active_object st) (active_layer_collection st) (last_selected st).

Definition with_selected (x : list string) (st : Blend) : Blend :=
  mkBlend (objects st) (collections st) (meshes st) (materials st)
    (scene_objects st) (scene_children st) (scene_solo_backup st) x
    (active_object st) (active_layer_collection st) (last_selected st).

Definition with_active (x : option string) (st : Blend) : Blend :=
  mkBlend (objects st) (collections st) (meshes st) (materials st)
    (scene_objects st) (scene_children st) (scene_solo_backup st)
    (selected_objects st) x (active_layer_collection st) (last_selected st).

Definition with_active_layer_collection (x : option CollRef) (st : Blend) : Blend :=
  mkBlend (objects st) (collections st) (meshes st) (materials st)
    (scene_objects st) (scene_children st) (scene_solo_backup st)
    (selected_objects st) (active_object st) x (last_selected st).

Definition with_last_selected (x : gset string) (st : Blend) : Blend :=
  mkBlend (objects st) (collections st) (meshes st) (materials st)
    (scene_objects st) (scene_children st) (scene_solo_backup st)
    (selected_objects st) (active_object st) (active_layer_collection st) x.

(* ===================================================================== *)
(** ** Host operations the add-on calls                                   *)
(* ===================================================================== *)

Definition collection_names (st : Blend) : list string :=
  (map_to_list (collections st)).*1.

Definition object_names (st : Blend) : list string :=
  (map_to_list (objects st)).*1.

(** The host keeps data-block names unique: a taken name gets the first
    free numeric suffix [.001], [.002], ...  The host also cuts a name
    that is longer than its limit (63 bytes before version 5.0) and counts
    on from a numeric suffix the name already ends in; neither is
    modelled, and the properties of Create and Merge below say of the new
    names only that they were not in use. *)
Definition pad3 (k : nat) : string :=
  if k <? 10 then "00" +:+ pretty k
  else if k <? 100 then "0" +:+ pretty k else pretty k.

Definition bpy_unique_name (name : string) (used : list string) : string :=
  if bool_decide (name ∈ used)
  then default name
         (head (filter (λ n, n ∉ used)
                  ((λ k, name +:+ "." +:+ pad3 k) <$> seq 1 (S (length used)))))
  else name.

(** [bpy.data.collections.new(name)] *)
Definition collections_new (name : string) (st : Blend) : string * Blend :=
  let n := bpy_unique_name name (collection_names st) in
  (n, with_collections (<[n := new_collection]> (collections st)) st).

(** No collection has [col] as a child: its only place in the view layer
    is right under the master collection. *)
Definition top_level (st : Blend) (col : string) : Prop :=
  map_Forall (λ _ c, col ∉ col_children c) (collections st).

(** [obj.users_collection]: every collection that has the object as a
    member, the master collection included. *)
Definition users_collection (st : Blend) (ob : string) : list CollRef :=
  (if bool_decide (ob ∈ scene_objects st) then [Master] else []) ++
  (Named <$> (filter (λ kc : string * Collection, ob ∈ col_objects kc.2)
                (map_to_list (collections st))).*1).

Definition ref_objects (st : Blend) (r : CollRef) : list string :=
  match r with
  | Master => scene_objects st
  | Named n => from_option col_objects [] (collections st !! n)
  end.

Definition ref_children (st : Blend) (r : CollRef) : list string :=
  match r with
  | Master => scene_children st
  | Named n => from_option col_children [] (collections st !! n)
  end.

(** [r.objects.link(ob)] and [r.objects.unlink(ob)] *)
Definition objects_link (r : CollRef) (ob : string) (st : Blend) : Blend :=
  match r with
  | Master => with_scene_objects (scene_objects st ++ [ob]) st
  | Named n =>
      with_collections
        (alter (λ c, col_with_objects (col_objects c ++ [ob]) c) n (collections st)) st
  end.

Definition objects_unlink (r : CollRef) (ob : string) (st : Blend) : Blend :=
  match r with
  | Master => with_scene_objects (filter (λ x, x ≠ ob) (scene_objects st)) st
  | Named n =>
      with_collections
        (alter (λ c, col_with_objects (filter (λ x, x ≠ ob) (col_objects c)) c)
           n (collections st)) st
  end.

(** [r.children.link(col)] and [r.children.unlink(col)] *)
Definition children_link (r : CollRef) (col : string) (st : Blend) : Blend :=
  match r with
  | Master => with_scene_children (scene_children st ++ [col]) st
  | Named n =>
      with_collections
        (alter (λ c, col_with_children (col_children c ++ [col]) c) n (collections st)) st
  end.

Definition children_unlink (r : CollRef) (col : string) (st : Blend) : Blend :=
  match r with
  | Master => with_scene_children (filter (λ x, x ≠ col) (scene_children st)) st
  | Named n =>
      with_collections
        (alter (λ c, col_with_children (filter (λ x, x ≠ col) (col_children c)) c)
           n (collections st)) st
  end.

(** [bpy.ops.object.select_all(action='DESELECT')], [ob.select_set(True)]
    and [context.view_layer.objects.active = ob].  [select_set] is the
    call on an object the view layer shows: the host ignores it on an
    object that is hidden in the viewport and raises on one that is not in
    the view layer.  The objects of [context.selected_objects] are shown;
    where the add-on selects another object, the theorems below ask for
    [selectable]. *)
Definition select_all_deselect (st : Blend) : Blend := with_selected [] st.

Definition select_set (ob : string) (st : Blend) : Blend :=
  if bool_decide (ob ∈ selected_objects st) then st
  else with_selected (selected_objects st ++ [ob]) st.

Definition set_active (ob : string) (st : Blend) : Blend :=
  with_active (Some ob) st.

(** [bpy.ops.object.parent_set(type='OBJECT', keep_transform=True)]: every
    selected object other than the active one becomes a child of the
    active one; world transforms are kept.  This is the call with an
    active object that is shown in the viewport and has none of the
    selected objects among its ancestors: the host's poll refuses a hidden
    active object and the operator refuses a loop of parents, both with a
    [RuntimeError].  The theorems below ask for both where the active
    object is not one the add-on has just made. *)
Definition parent_set (st : Blend) : Blend :=
  match active_object st with
  | Some a =>
      with_objects
        (foldl (λ objs ob, if bool_decide (ob = a) then objs
                           else alter (ob_reparent (Some a)) ob objs)
           (objects st) (selected_objects st)) st
  | None => st
  end.

(** [bpy.ops.object.parent_clear(type='CLEAR_KEEP_TRANSFORM')]: the host
    leaves a selected object that has no parent as it is. *)
Definition ob_clear_parent (o : Object) : Object :=
  match ob_parent o with
  | Some _ => ob_reparent None o
  | None => o
  end.

Definition parent_clear (st : Blend) : Blend :=
  with_objects
    (foldl (λ objs ob, alter ob_clear_parent ob objs)
       (objects st) (selected_objects st)) st.

(** [ob.hide_viewport = b].  The selection flag of the object is kept;
    [context.selected_objects] of the host lists the selected objects that
    are shown. *)
Definition set_hide_viewport (ob : string) (b : bool) (st : Blend) : Blend :=
  with_objects (alter (ob_with_hide_viewport b) ob (objects st)) st.

Definition ob_parent_of (st : Blend) (ob : string) : option string :=
  o ← objects st !! ob; ob_parent o.

Definition world_translation (st : Blend) (ob : string) : Vector :=
  from_option ob_world vzero (objects st !! ob).

(** Operator results: the returned set, the messages passed to
    [self.report], and the state left behind.  [RAISED] is an exception
    of the host API leaving [execute]. *)
Inductive Status := FINISHED | CANCELLED | RAISED.

Inductive Level := INFO | WARNING | ERROR.

Global Instance Status_eq_dec : EqDecision Status.
Proof. solve_decision. Defined.

Global Instance Level_eq_dec : EqDecision Level.
Proof. solve_decision. Defined.

Record Outcome := mkOutcome {
  status : Status;
  reports : list (Level * string);
  final : Blend;
}.

Definition cancel (lvl : Level) (msg : string) (st : Blend) : Outcome :=
  mkOutcome CANCELLED [(lvl, msg)] st.

Definition finish (msg : string) (st : Blend) : Outcome :=
  mkOutcome FINISHED [(INFO, msg)] st.

(* ===================================================================== *)
(** ** The add-on, version 2.4: helpers                                   *)
(* ===================================================================== *)

(** [set_visibility(collection, visible)] *)
Definition set_visibility (visible : bool) (c : Collection) : Collection :=
  col_with_hide_render (negb visible) (col_with_hide_viewport (negb visible) c).

(** [is_ez_collection(collection)]: ["ez_pivot" in collection] *)
Definition is_ez_collection (c : Collection) : bool :=
  bool_decide (is_Some (col_ez_pivot c)).

Definition ref_is_ez (st : Blend) (r : CollRef) : bool :=
  match r with
  | Master => false
  | Named n => from_option is_ez_collection false (collections st !! n)
  end.

(** [hide_all_pivots()]: for every collection, in the host's order, the
    object named by its tag is hidden when it exists. *)
Definition hide_pivot_of (objs : gmap string Object) (c : Collection)
    : gmap string Object :=
  match col_ez_pivot c with
  | Some p => alter (ob_with_hide_viewport true) p objs
  | None => objs
  end.

Definition hide_all_pivots (st : Blend) : Blend :=
  with_objects
    (foldl (λ objs kc, hide_pivot_of objs kc.2) (objects st)
       (map_to_list (collections st))) st.

(** [get_collection_pivot(collection)]: the tagged object, when the tag is
    present and names an object of [bpy.data.objects]. *)
Definition get_collection_pivot (st : Blend) (c : Collection) : option string :=
  p ← col_ez_pivot c; _ ← objects st !! p; Some p.

Definition ref_pivot (st : Blend) (col : string) : option string :=
  c ← collections st !! col; get_collection_pivot st c.

(** [create_smart_pivot(collection_name, location, is_parent)]: a new mesh,
    a new object at [location] and a new material; the radius of the mesh
    and the colours of the material are not represented.  The result is
    the name the host gave the object. *)
Definition create_smart_pivot (collection_name : string) (location : Vector)
    (is_parent : bool) (st : Blend) : string * Blend :=
  let mesh := bpy_unique_name ("PivotMesh_" +:+ collection_name) (meshes st) in
  let st := with_meshes (meshes st ++ [mesh]) st in
  let pivot := bpy_unique_name ("Pivot_" +:+ collection_name) (object_names st) in
  let ob := {| ob_type := MESH; ob_parent := None;
               ob_hide_viewport := false; ob_hide_render := true;
               ob_location := location; ob_world := location;
               ob_show_in_front := true; ob_show_name := is_parent |} in
  let st := with_objects (<[pivot := ob]> (objects st)) st in
  let mat := bpy_unique_name ("PivotMat_" +:+ collection_name) (materials st) in
  let st := with_materials (materials st ++ [mat]) st in
  (pivot, st).

(** [obj.parent is None or obj.parent not in objects] *)
Definition is_root_in (st : Blend) (objs : list string) (ob : string) : bool :=
  match ob_parent_of st ob with
  | None => true
  | Some p => bool_decide (p ∉ objs)
  end.

(** [preserve_parent_hierarchy(objects, new_parent)] *)
Definition preserve_parent_hierarchy (objs : list string) (new_parent : string)
    (st : Blend) : list string * Blend :=
  let root_objects := filter (λ ob, is_root_in st objs ob = true) objs in
  let st := select_all_deselect st in
  let st := select_set new_parent st in
  let st := foldl (λ s ob, select_set ob s) st root_objects in
  let st := if bool_decide (root_objects = []) then st
            else parent_set (set_active new_parent st) in
  (root_objects, st).

(** An exception that leaves a function of the add-on. *)
Inductive Exn := TypeError | RecursionError.

Definition exn_bind {A B} (x : Exn + A) (f : A → Exn + B) : Exn + B :=
  match x with
  | inl e => inl e
  | inr a => f a
  end.

(** A loop that appends what each round yields; an exception ends it. *)
Fixpoint exn_concat_map {A B} (f : A → Exn + list B) (l : list A) : Exn + list B :=
  match l with
  | [] => inr []
  | a :: rest =>
      exn_bind (f a) (λ x,
        exn_bind (exn_concat_map f rest) (λ y, inr (x ++ y)%list))
  end.

(** The key of a membership test [key in c.children]
    ([bpy_prop_collection.__contains__]): a name, or a collection. *)
Inductive Key := ByName (name : string) | ByCollection (name : string).

(** [key in c.children].  The host looks a member up by its name; with a
    collection as the key it raises [TypeError]. *)
Definition children_contains (key : Key) (c : Collection) : Exn + bool :=
  match key with
  | ByName n => inr (bool_decide (n ∈ col_children c))
  | ByCollection _ => inl TypeError
  end.

(** The inner [find_parent_collections(child_col)] of
    [get_collection_hierarchy].  [cols] is [bpy.data.collections] in the
    host's order.  The test [child_col in parent_col.children] has a
    collection as its key, and its left operand is evaluated first.
    [fuel] bounds the depth of the Python recursion. *)
Fixpoint find_parent_collections (fuel : nat) (cols : list (string * Collection))
    (child_col : string) : Exn + list string :=
  match fuel with
  | 0 => inl RecursionError
  | S fuel' =>
      exn_concat_map
        (λ pc : string * Collection,
           exn_bind (children_contains (ByCollection child_col) pc.2) (λ b,
             if b && is_ez_collection pc.2
             then exn_bind (find_parent_collections fuel' cols pc.1)
                    (λ up, inr (pc.1 :: up))
             else inr []))
        cols
  end.

(** [get_collection_hierarchy(obj)] *)
Definition get_collection_hierarchy (fuel : nat) (st : Blend) (ob : string)
    : Exn + list string :=
  exn_concat_map
    (λ r,
       match r with
       | Named n =>
           if ref_is_ez st r
           then exn_bind
                  (find_parent_collections fuel (map_to_list (collections st)) n)
                  (λ up, inr (n :: up))
           else inr []
       | Master => inr []
       end)
    (users_collection st ob).

(* ===================================================================== *)
(** ** The selection timer                                                *)
(* ===================================================================== *)

(** The body of [for col in hierarchy] in [selection_timer], with the
    local set [shown_collections] threaded through. *)
Definition show_collection (acc : Blend * gset string) (col : string)
    : Blend * gset string :=
  let '(st, shown) := acc in
  if bool_decide (col ∈ shown) then acc
  else match ref_pivot st col with
       | Some pivot => (set_hide_viewport pivot false st, {[col]} ∪ shown)
       | None => acc
       end.

(** [for obj_name in current_selected].  An exception of
    [get_collection_hierarchy] is caught by the bare [except] of the
    timer: the loop stops and the state is what it was at that point. *)
Fixpoint show_selected (fuel : nat) (names : list string)
    (acc : Blend * gset string) : Blend :=
  match names with
  | [] => acc.1
  | obj_name :: rest =>
      match objects acc.1 !! obj_name with
      | None => show_selected fuel rest acc
      | Some _ =>
          match get_collection_hierarchy fuel acc.1 obj_name with
          | inl _ => acc.1
          | inr hierarchy =>
              show_selected fuel rest (foldl show_collection acc hierarchy)
          end
      end
  end.

(** [selection_timer()].  Its return value is always [0.1], the delay to
    the next run; the state it leaves is what is modelled. *)
Definition selection_timer (fuel : nat) (st : Blend) : Blend :=
  let current_selected : gset string := list_to_set (selected_objects st) in
  if bool_decide (current_selected ≠ last_selected st) then
    let st := with_last_selected current_selected st in
    if bool_decide (current_selected = ∅) then hide_all_pivots st
    else
      let st := hide_all_pivots st in
      show_selected fuel (elements current_selected) (st, ∅)
  else st.

(* ===================================================================== *)
(** ** The operators                                                      *)
(* ===================================================================== *)

(** [alc = context.view_layer.active_layer_collection] passing the test
    [alc and is_ez_collection(alc.collection)]. *)
Definition active_ez_collection (st : Blend) : option (string * Collection) :=
  match active_layer_collection st with
  | Some (Named n) =>
      match collections st !! n with
      | Some c => if is_ez_collection c then Some (n, c) else None
      | None => None
      end
  | _ => None
  end.

Definition set_color_tag (col tag : string) (st : Blend) : Blend :=
  with_collections (alter (col_with_color_tag tag) col (collections st)) st.

(** [col["ez_pivot"] = pivot.name] *)
Definition set_ez_pivot (col pivot : string) (st : Blend) : Blend :=
  with_collections (alter (col_with_ez_pivot (Some pivot)) col (collections st)) st.

(** [obj.type != 'EMPTY' or not obj.name.startswith("Pivot_")] *)
Definition not_empty_pivot (st : Blend) (ob : string) : bool :=
  bool_decide (ob_type <$> objects st !! ob ≠ Some EMPTY)
  || negb (startswith "Pivot_" ob).

(** [OUTLINER_OT_ez_select_collection.execute] *)
Definition ez_select_collection (st : Blend) : Outcome :=
  match active_layer_collection st with
  | None => cancel WARNING "No active collection in Outliner." st
  | Some alc =>
      let members := ref_objects st alc in
      let st := select_all_deselect st in
      let st := foldl (λ s ob, if not_empty_pivot s ob then select_set ob s else s)
                  st members in
      let st :=
        if bool_decide (members = []) then st
        else match filter (λ ob, not_empty_pivot st ob = true) members with
             | ob :: _ => set_active ob st
             | [] => st
             end in
      mkOutcome FINISHED [] st
  end.

(** The loop [for obj in objs] of Create: unlink from every collection
    that has the object, then link to the new one. *)
Definition move_to_collection (col : string) (st : Blend) (ob : string) : Blend :=
  let st := foldl (λ s pc, objects_unlink pc ob s) st (users_collection st ob) in
  objects_link (Named col) ob st.

(** [OBJECT_OT_ez_create_collection.execute] *)
Definition ez_create_collection (collection_suffix : string) (st : Blend) : Outcome :=
  let objs := selected_objects st in
  if bool_decide (objs = []) then
    cancel ERROR "Select at least one object first." st
  else
    let suffix := strip collection_suffix in
    if bool_decide (suffix = "") then
      cancel ERROR "Collection name cannot be empty." st
    else
      let base_name := "COL_" +:+ suffix in
      let existing_names := collection_names st in
      let collection_name := generate_unique_name base_name existing_names in
      let '(col, st) := collections_new collection_name st in
      let st := set_color_tag col "COLOR_02" st in
      let st := children_link Master col st in
      let st := foldl (move_to_collection col) st objs in
      let center := vdiv (vsum (world_translation st <$> objs)) (length objs) in
      let '(pivot, st) := create_smart_pivot collection_name center false st in
      let st := objects_link (Named col) pivot st in
      let st := (preserve_parent_hierarchy objs pivot st).2 in
      let st := set_ez_pivot col pivot st in
      let st := hide_all_pivots st in
      let st := set_hide_viewport pivot false st in
      let st := select_all_deselect st in
      let st := select_set pivot st in
      let st := set_active pivot st in
      finish ("Collection '" +:+ collection_name +:+ "' created with smart pivot.") st.

(** The loop [for obj in selected_objects] of Add. *)
Definition add_member (col : string) (st : Blend) (ob : string) : Blend :=
  if bool_decide (ob ∈ ref_objects st (Named col)) then st
  else
    let st := foldl (λ s pc, if bool_decide (pc ≠ Named col)
                             then objects_unlink pc ob s else s)
                st (users_collection st ob) in
    objects_link (Named col) ob st.

(** [OBJECT_OT_ez_add_to_collection.execute] *)
Definition ez_add_to_collection (st : Blend) : Outcome :=
  match active_ez_collection st with
  | None => cancel ERROR "Active collection is not an EZCollection." st
  | Some (col, c) =>
      match get_collection_pivot st c with
      | None => cancel ERROR "Pivot not found." st
      | Some pivot =>
          let selected := filter (λ ob, ob ≠ pivot) (selected_objects st) in
          if bool_decide (selected = []) then
            cancel WARNING "No valid objects selected." st
          else
            let st := foldl (add_member col) st selected in
            let st := (preserve_parent_hierarchy selected pivot st).2 in
            finish (pretty (length selected) +:+ " object(s) added to '"
                    +:+ col +:+ "'.") st
      end
  end.

(** The loop [for obj in selected_objects] of Remove. *)
Definition remove_member (col : string) (st : Blend) (ob : string) : Blend :=
  let st := select_all_deselect st in
  let st := select_set ob st in
  let st := set_active ob st in
  let st := parent_clear st in
  let st := if bool_decide (ob ∈ ref_objects st (Named col))
            then objects_unlink (Named col) ob st else st in
  if bool_decide (ob ∉ scene_objects st)
  then objects_link Master ob st else st.

(** [OBJECT_OT_ez_remove_from_collection.execute] *)
Definition ez_remove_from_collection (st : Blend) : Outcome :=
  match active_ez_collection st with
  | None => cancel ERROR "Active collection is not an EZCollection." st
  | Some (col, c) =>
      let pivot := get_collection_pivot st c in
      let selected := filter (λ ob, Some ob ≠ pivot) (selected_objects st) in
      if bool_decide (selected = []) then
        cancel WARNING "No valid objects selected." st
      else
        let st := foldl (remove_member col) st selected in
        finish (pretty (length selected) +:+ " object(s) removed from '"
                +:+ col +:+ "'.") st
  end.

(** [OBJECT_OT_ez_pivot_unlock.execute] *)
Definition ez_pivot_unlock (st : Blend) : Outcome :=
  match active_ez_collection st with
  | None => cancel ERROR "Active collection is not an EZCollection." st
  | Some (col, c) =>
      match get_collection_pivot st c with
      | None => cancel ERROR "Pivot not found." st
      | Some pivot =>
          let children :=
            filter (λ ob, ob_parent_of st ob = Some pivot) (col_objects c) in
          let st := select_all_deselect st in
          let st := foldl (λ s ob, select_set ob s) st children in
          let st := match children with
                    | ob :: _ => parent_clear (set_active ob st)
                    | [] => st
                    end in
          let st := select_all_deselect st in
          let st := select_set pivot st in
          let st := set_active pivot st in
          finish ("Pivot '" +:+ pivot +:+ "' unlocked.") st
      end
  end.

(** [OBJECT_OT_ez_pivot_lock.execute] *)
Definition ez_pivot_lock (st : Blend) : Outcome :=
  match active_ez_collection st with
  | None => cancel ERROR "Active collection is not an EZCollection." st
  | Some (col, c) =>
      match get_collection_pivot st c with
      | None => cancel ERROR "Pivot not found." st
      | Some pivot =>
          let collection_objects := filter (λ ob, ob ≠ pivot) (col_objects c) in
          let st := (preserve_parent_hierarchy collection_objects pivot st).2 in
          finish ("Pivot '" +:+ pivot +:+ "' locked.") st
      end
  end.

(** [OBJECT_OT_ez_toggle_solo_collection.execute].  The backup is the
    dictionary [{c.name: c.hide_viewport for c in bpy.data.collections}].
    Solo-on hides every collection but the active one.  The host does not
    keep a layer collection active that it no longer shows: when the
    active collection is inside another one, which is now hidden, the
    nearest layer collection that is still shown becomes the active one,
    and that is the master collection.  (A collection is taken to have
    one place in the view layer.) *)
Definition ez_toggle_solo_collection (st : Blend) : Outcome :=
  match active_ez_collection st with
  | None => cancel ERROR "Active collection is not an EZCollection." st
  | Some (col, _) =>
      match scene_solo_backup st with
      | None =>
          let backup := col_hide_viewport <$> collections st in
          let st := with_solo_backup (Some backup) st in
          let st :=
            with_collections
              (map_imap (λ n c, Some (set_visibility (bool_decide (n = col)) c))
                 (collections st)) st in
          let st := if bool_decide (top_level st col) then st
                    else with_active_layer_collection (Some Master) st in
          finish ("Solo view ON for '" +:+ col +:+ "'.") st
      | Some backup =>
          let st :=
            with_collections
              (map_fold (λ name was_hidden cols,
                           alter (col_with_hide_viewport was_hidden) name cols)
                 (collections st) backup) st in
          let st := with_solo_backup None st in
          finish "Solo view OFF. Restored previous state." st
      end
  end.

(** The first loop of Merge: the EZCollections of the selected objects,
    each once, in order of first appearance. *)
Definition merge_candidates (st : Blend) : list string :=
  foldl (λ (acc : list string) ob,
           foldl (λ (acc' : list string) r,
                    match r with
                    | Named n =>
                        if ref_is_ez st r && bool_decide (n ∉ acc')
                        then (acc' ++ [n])%list else acc'
                    | Master => acc'
                    end)
             acc (users_collection st ob))
    [] (selected_objects st).

Definition merge_selected_collections (st : Blend) : list string :=
  match merge_candidates st with
  | [] => match active_ez_collection st with
          | Some (n, _) => [n]
          | None => []
          end
  | l => l
  end.

(** The loop [for col in selected_collections] of Merge. *)
Definition merge_child (parent_col parent_pivot : string) (st : Blend)
    (col : string) : Blend :=
  let st := if bool_decide (col ∈ scene_children st)
            then children_unlink Master col st else st in
  let st := children_link (Named parent_col) col st in
  match ref_pivot st col with
  | Some child_pivot =>
      let st := select_all_deselect st in
      let st := select_set parent_pivot st in
      let st := select_set child_pivot st in
      let st := set_active parent_pivot st in
      parent_set st
  | None => st
  end.

(** [OBJECT_OT_ez_merge_collections.execute] *)
Definition ez_merge_collections (parent_collection_name : string) (st : Blend)
    : Outcome :=
  let selected_collections := merge_selected_collections st in
  if bool_decide (length selected_collections < 2) then
    cancel ERROR "Select objects from at least 2 EZCollections to merge them." st
  else
    let parent_name := strip parent_collection_name in
    if bool_decide (parent_name = "") then
      cancel ERROR "Parent collection name cannot be empty." st
    else
      let base_name := "COL_" +:+ parent_name in
      let existing_names := collection_names st in
      let parent_collection_name := generate_unique_name base_name existing_names in
      let '(parent_col, st) := collections_new parent_collection_name st in
      let st := set_color_tag parent_col "COLOR_01" st in
      let st := children_link Master parent_col st in
      let pivot_locations :=
        omap (λ col, world_translation st <$> ref_pivot st col)
          selected_collections in
      if bool_decide (pivot_locations = []) then
        cancel ERROR "No valid pivots found in selected EZCollections." st
      else
        let parent_center := vdiv (vsum pivot_locations) (length pivot_locations) in
        let '(parent_pivot, st) :=
          create_smart_pivot parent_collection_name parent_center true st in
        let st := objects_link (Named parent_col) parent_pivot st in
        let st := foldl (merge_child parent_col parent_pivot) st selected_collections in
        let st := set_ez_pivot parent_col parent_pivot st in
        let st := hide_all_pivots st in
        let st := set_hide_viewport parent_pivot false st in
        let st := select_all_deselect st in
        let st := select_set parent_pivot st in
        let st := set_active parent_pivot st in
        finish ("Merged " +:+ pretty (length selected_collections)
                +:+ " EZCollections into '" +:+ parent_collection_name +:+ "'.") st.

(** The loop [for col in child_collections] of Unmerge.  The host's
    [children.link] raises when the collection is already a child, which
    ends the loop; the flag tells whether the loop ran to its end. *)
Fixpoint unmerge_children (parent_col : string) (cols : list string) (st : Blend)
    : Blend * bool :=
  match cols with
  | [] => (st, true)
  | col :: rest =>
      let st :=
        match ref_pivot st col with
        | Some child_pivot =>
            if bool_decide (is_Some (ob_parent_of st child_pivot)) then
              let st := select_all_deselect st in
              let st := select_set child_pivot st in
              let st := set_active child_pivot st in
              parent_clear st
            else st
        | None => st
        end in
      let st := children_unlink (Named parent_col) col st in
      if bool_decide (col ∈ scene_children st) then (st, false)
      else unmerge_children parent_col rest (children_link Master col st)
  end.

(** [OBJECT_OT_ez_unmerge_collections.execute] *)
Definition ez_unmerge_collections (st : Blend) : Outcome :=
  match active_ez_collection st with
  | None => cancel ERROR "Active collection is not an EZCollection." st
  | Some (parent_col, c) =>
      let child_collections :=
        filter (λ n, ref_is_ez st (Named n) = true) (col_children c) in
      if bool_decide (child_collections = []) then
        cancel WARNING "No child EZCollections found to unmerge." st
      else
        match unmerge_children parent_col child_collections st with
        | (st, true) =>
            finish ("Unmerged " +:+ pretty (length child_collections)
                    +:+ " EZCollections from '" +:+ parent_col +:+ "'.") st
        | (st, false) => mkOutcome RAISED [] st
        end
  end.

(** The operators the add-on registers: the Outliner click and the eight
    entries of the pie menu, with the text typed in the dialog where
    there is one. *)
Inductive Operation :=
  | OpSelect
  | OpCreate (collection_suffix : string)
  | OpAdd
  | OpRemove
  | OpSolo
  | OpLock
  | OpUnlock
  | OpMerge (parent_collection_name : string)
  | OpUnmerge.

Definition execute (op : Operation) (st : Blend) : Outcome :=
  match op with
  | OpSelect => ez_select_collection st
  | OpCreate suffix => ez_create_collection suffix st
  | OpAdd => ez_add_to_collection st
  | OpRemove => ez_remove_from_collection st
  | OpSolo => ez_toggle_solo_collection st
  | OpLock => ez_pivot_lock st
  | OpUnlock => ez_pivot_unlock st
  | OpMerge name => ez_merge_collections name st
  | OpUnmerge => ez_unmerge_collections st
  end.

(* ===================================================================== *)
(** ** The add-on, version 1.2: Create and Lock                           *)
(* ===================================================================== *)

Module LegacyOperators.
(** [bpy.data.objects.new(name, None)]: an empty, at [location]. *)
Definition objects_new_empty (name : string) (location : Vector) (st : Blend)
    : string * Blend :=
  let pivot := bpy_unique_name name (object_names st) in
  let ob := {| ob_type := EMPTY; ob_parent := None;
               ob_hide_viewport := false; ob_hide_render := false;
               ob_location := location; ob_world := location;
               ob_show_in_front := false; ob_show_name := false |} in
  (pivot, with_objects (<[pivot := ob]> (objects st)) st).

(** The loop [for o in objs] that clears the parents in Create. *)
Definition clear_parent_of (st : Blend) (ob : string) : Blend :=
  let st := select_all_deselect st in
  let st := select_set ob st in
  let st := set_active ob st in
  parent_clear st.

(** [OBJECT_OT_ez_create_collection.execute] of version 1.2 *)
Definition ez_create_collection (collection_suffix : string) (st : Blend) : Outcome :=
  let objs := selected_objects st in
  if bool_decide (objs = []) then
    cancel ERROR "Select at least one object first." st
  else
    let st := foldl clear_parent_of st objs in
    let suffix := strip collection_suffix in
    if bool_decide (suffix = "") then
      cancel ERROR "Collection name cannot be empty." st
    else
      let base := "COL_" +:+ suffix in
      let names := collection_names st in
      let name := default base (Legacy.unique_name_fuel (2 + length names) base names) in
      let '(col, st) := collections_new name st in
      let st := set_color_tag col "COLOR_02" st in
      let st := children_link Master col st in
      let st := foldl (move_to_collection col) st objs in
      let center := vdiv (vsum (world_translation st <$> objs)) (length objs) in
      let '(pivot, st) := objects_new_empty ("Pivot_" +:+ name) center st in
      let st := objects_link (Named col) pivot st in
      let st := select_all_deselect st in
      let st := select_set pivot st in
      let st := foldl (λ s ob, select_set ob s) st objs in
      let st := set_active pivot st in
      let st := parent_set st in
      let st := set_ez_pivot col pivot st in
      let st := hide_all_pivots st in
      let st := set_hide_viewport pivot false st in
      let st := select_all_deselect st in
      let st := select_set pivot st in
      let st := set_active pivot st in
      finish ("Collection '" +:+ name +:+ "' created with pivot at centroid.") st.

(** [bpy.data.objects.get(alc.collection.get("ez_pivot", ""))] *)
Definition tagged_pivot (st : Blend) (alc : CollRef) : option string :=
  let tag := match alc with
             | Master => None
             | Named n => collections st !! n ≫= col_ez_pivot
             end in
  let name := default "" tag in
  _ ← objects st !! name; Some name.

(** [OBJECT_OT_ez_pivot_lock.execute] of version 1.2; [alc.collection] on
    an [alc] that is [None] raises. *)
Definition ez_pivot_lock (st : Blend) : Outcome :=
  match active_layer_collection st with
  | None => mkOutcome RAISED [] st
  | Some alc =>
      match tagged_pivot st alc with
      | None => cancel ERROR "Pivot not found." st
      | Some pivot =>
          let members := ref_objects st alc in
          let st := select_all_deselect st in
          let st := select_set pivot st in
          let st := foldl (λ s ob, if bool_decide (ob ≠ pivot) then select_set ob s
                                   else s) st members in
          let st := set_active pivot st in
          let st := parent_set st in
          finish ("Pivot '" +:+ pivot +:+ "' locked.") st
      end
  end.
End LegacyOperators.

(* ===================================================================== *)
(** ** The vocabulary of the properties                                   *)
(* ===================================================================== *)

(** A mesh object at the origin, shown, with no parent. *)
Definition demo_object : Object :=
  mkObject MESH None false false vzero vzero false false.

(** A scene with an EZCollection [COL_A], active, and a plain collection
    [Props] that is shown in the viewport and in renders. *)
Definition solo_scene : Blend :=
  mkBlend
    (<["Pivot_COL_A" := demo_object]> (<["Cube" := demo_object]> ∅))
    (<["COL_A" := mkCollection false false (Some "Pivot_COL_A") "COLOR_02"
                    ["Cube"; "Pivot_COL_A"] []]>
       (<["Props" := new_collection]> ∅))
    [] [] [] ["COL_A"; "Props"] None [] None (Some (Named "COL_A")) ∅.

(** What Merge reports when none of the selected collections has a pivot. *)
Definition no_valid_pivots_report : list (Level * string) :=
  [(ERROR, "No valid pivots found in selected EZCollections.")].

(** Two EZCollections whose pivot objects have been deleted: the tags
    name objects that are no longer in [bpy.data.objects].  One object of
    each collection is selected. *)
Definition orphaned_scene : Blend :=
  mkBlend
    (<["Cube" := demo_object]> (<["Ball" := demo_object]> ∅))
    (<["COL_A" := mkCollection false false (Some "Pivot_COL_A") "COLOR_02" ["Cube"] []]>
       (<["COL_B" := mkCollection false false (Some "Pivot_COL_B") "COLOR_02" ["Ball"] []]> ∅))
    [] [] [] ["COL_A"; "COL_B"] None ["Cube"; "Ball"] (Some "Cube") (Some Master) ∅.

(** [selected_objects] without the pivot: the list Add and Remove call
    [selected_objects]. *)
Definition valid_selection (st : Blend) (pivot : option string) : list string :=
  filter (λ ob, Some ob ≠ pivot) (selected_objects st).

(** A selected EZCollection: an EZCollection that has a selected object
    among its members. *)
Definition selected_ez (st : Blend) (n : string) : Prop :=
  ∃ ob c, ob ∈ selected_objects st ∧ collections st !! n = Some c ∧
          ob ∈ col_objects c ∧ is_ez_collection c = true.

(** There are fewer than two selected EZCollections. *)
Definition fewer_than_two_selected_ez (st : Blend) : Prop :=
  ∀ a b, selected_ez st a → selected_ez st b → a = b.

(** The cancel cases as the specification lists them: Create with an
    empty selection or a blank name; Add, Remove, Solo, Lock, Unlock and
    Unmerge with no active EZCollection; Add and Remove with no valid
    selected object; Merge with fewer than two selected EZCollections. *)
Definition listed_cancel_case (op : Operation) (st : Blend) : Prop :=
  match op with
  | OpSelect => False
  | OpCreate suffix => selected_objects st = [] ∨ strip suffix = ""
  | OpAdd | OpRemove =>
      match active_ez_collection st with
      | None => True
      | Some (_, c) => valid_selection st (get_collection_pivot st c) = []
      end
  | OpSolo | OpLock | OpUnlock | OpUnmerge => active_ez_collection st = None
  | OpMerge _ => fewer_than_two_selected_ez st
  end.

(** The cancel cases of the code: the listed ones, and with them the
    Outliner click with no active collection, Add, Lock and Unlock with a
    tag that names no object, Merge with a blank name or with no selected
    collection that has a pivot object, and Unmerge with no child
    EZCollection. *)
Definition cancel_case (op : Operation) (st : Blend) : Prop :=
  match op with
  | OpSelect => active_layer_collection st = None
  | OpCreate suffix => selected_objects st = [] ∨ strip suffix = ""
  | OpAdd =>
      match active_ez_collection st with
      | None => True
      | Some (_, c) =>
          get_collection_pivot st c = None ∨
          valid_selection st (get_collection_pivot st c) = []
      end
  | OpRemove =>
      match active_ez_collection st with
      | None => True
      | Some (_, c) => valid_selection st (get_collection_pivot st c) = []
      end
  | OpSolo => active_ez_collection st = None
  | OpLock | OpUnlock =>
      match active_ez_collection st with
      | None => True
      | Some (_, c) => get_collection_pivot st c = None
      end
  | OpMerge name =>
      fewer_than_two_selected_ez st ∨
      strip name = "" ∨
      ∀ n, selected_ez st n → ref_pivot st n = None
  | OpUnmerge =>
      match active_ez_collection st with
      | None => True
      | Some (_, c) =>
          filter (λ n, ref_is_ez st (Named n) = true) (col_children c) = []
      end
  end.

(** A scene whose active collection is an EZCollection with a live pivot
    and no child collection. *)
Definition childless_scene : Blend :=
  mkBlend
    (<["Pivot_COL_A" := demo_object]> (<["Cube" := demo_object]> ∅))
    (<["COL_A" := mkCollection false false (Some "Pivot_COL_A") "COLOR_02"
                    ["Cube"; "Pivot_COL_A"] []]> ∅)
    [] [] [] ["COL_A"] None ["Cube"] (Some "Cube") (Some (Named "COL_A")) ∅.

(** The tag of a collection, when it has one, names an existing object. *)
Definition tag_live (objs : gmap string Object) (c : Collection) : Prop :=
  match col_ez_pivot c with
  | Some p => is_Some (objs !! p)
  | None => True
  end.

Global Instance tag_live_dec objs c : Decision (tag_live objs c).
Proof. unfold tag_live. destruct (col_ez_pivot c); apply _. Defined.

(** The invariant: every tag of every collection is live. *)
Definition tags_live (st : Blend) : Prop :=
  map_Forall (λ _ c, tag_live (objects st) c) (collections st).

Global Instance tags_live_dec st : Decision (tags_live st).
Proof. unfold tags_live. apply _. Defined.

(** What no step of the add-on changes on an object. *)
Definition same_geometry (o o' : Object) : Prop :=
  ob_world o' = ob_world o ∧ ob_type o' = ob_type o.

(** No object is lost, and each keeps its place in the world and its
    type. *)
Definition objects_kept (objs objs' : gmap string Object) : Prop :=
  ∀ n o, objs !! n = Some o → ∃ o', objs' !! n = Some o' ∧ same_geometry o o'.

(** [keeps_tags st st']: from [st] to [st'] no collection and no object
    is lost, objects keep their place and type, and a tag of [st'] is
    either live or was there, on the same collection, in [st]. *)
Definition keeps_tags (st st' : Blend) : Prop :=
  dom (collections st) ⊆ dom (collections st') ∧
  objects_kept (objects st) (objects st') ∧
  ∀ n c', collections st' !! n = Some c' →
    tag_live (objects st') c' ∨
    ∃ c, collections st !! n = Some c ∧ col_ez_pivot c = col_ez_pivot c'.



(** Two objects, at (1, 2, 3) and (3, 2, 0), linked to the master
    collection and both selected. *)
Definition two_objects_scene : Blend :=
  mkBlend
    (<["Cube" := mkObject MESH None false false vzero
                   (mkVector (f32_of_nat 1) (f32_of_nat 2) (f32_of_nat 3)) false false]>
       (<["Ball" := mkObject MESH None false false vzero
                      (mkVector (f32_of_nat 3) (f32_of_nat 2) (f32_of_nat 0)) false false]> ∅))
    ∅ [] [] ["Cube"; "Ball"] [] None ["Cube"; "Ball"] (Some "Cube")
    (Some Master) ∅.

(** The collection named [n] exists and is an EZCollection. *)
Definition is_ez (st : Blend) (n : string) : Prop :=
  ref_is_ez st (Named n) = true.

(** [direct_ez st ob c]: [c] is an EZCollection that has [ob] as a member. *)
Definition direct_ez (st : Blend) (ob c : string) : Prop :=
  ∃ col, collections st !! c = Some col ∧ ob ∈ col_objects col ∧
         is_ez_collection col = true.

(** An EZCollection [COL_A] inside a plain collection [Group] inside an
    EZCollection [COL_G]; the object [Cube] is a member of [COL_A]. *)
Definition nested_scene : Blend :=
  mkBlend
    (<["Cube" := demo_object]>
       (<["Pivot_COL_A" := demo_object]> (<["Pivot_COL_G" := demo_object]> ∅)))
    (<["COL_A" := mkCollection false false (Some "Pivot_COL_A") "COLOR_02"
                    ["Cube"; "Pivot_COL_A"] []]>
       (<["Group" := mkCollection false false None "NONE" [] ["COL_A"]]>
          (<["COL_G" := mkCollection false false (Some "Pivot_COL_G") "COLOR_02"
                          ["Pivot_COL_G"] ["Group"]]> ∅)))
    [] [] [] ["COL_G"] None ["Cube"] (Some "Cube") (Some (Named "COL_A")) ∅.

(** An EZ pivot: an object of [bpy.data.objects] that the tag of some
    collection names. *)
Definition is_ez_pivot (st : Blend) (o : string) : Prop :=
  ∃ n c, collections st !! n = Some c ∧ col_ez_pivot c = Some o ∧
         is_Some (objects st !! o).

(** [ob.hide_viewport] read through the name, when the object exists. *)
Definition hidden (st : Blend) (o : string) : option bool :=
  ob_hide_viewport <$> objects st !! o.

(** The collections the view layer shows: those reached from the scene's
    master collection through collections that are not hidden in the
    viewport. *)
Inductive layer_shown (st : Blend) : string → Prop :=
  | layer_shown_top n c :
      n ∈ scene_children st → collections st !! n = Some c →
      col_hide_viewport c = false → layer_shown st n
  | layer_shown_child p pc n c :
      layer_shown st p → collections st !! p = Some pc → n ∈ col_children pc →
      collections st !! n = Some c → col_hide_viewport c = false →
      layer_shown st n.

(** [selectable st ob]: the host selects the object on [ob.select_set(True)]
    and accepts it as the active object of [parent_set]: the object
    exists, is not hidden in the viewport, and is a member of the master
    collection or of a collection the view layer shows.  The flags the
    add-on never writes ([hide_select], the exclusion of a layer
    collection, the eye of the Outliner, local view) are at their
    defaults. *)
Definition selectable (st : Blend) (ob : string) : Prop :=
  hidden st ob = Some false ∧
  (ob ∈ scene_objects st ∨
   ∃ n c, layer_shown st n ∧ collections st !! n = Some c ∧ ob ∈ col_objects c).

(** The names the tags of the collections hold, in the host's order. *)
Definition pivot_tags (st : Blend) : list string :=
  omap (λ kc : string * Collection, col_ez_pivot kc.2) (map_to_list (collections st)).

(** A scene in solo mode whose backup names a collection [Gone] that no
    longer exists, and that has a collection [Late] made since. *)
Definition stale_backup_scene : Blend :=
  mkBlend
    (<["Pivot_COL_A" := demo_object]> ∅)
    (<["COL_A" := mkCollection false false (Some "Pivot_COL_A") "COLOR_02"
                    ["Pivot_COL_A"] []]>
       (<["Late" := mkCollection true false None "NONE" [] []]> ∅))
    [] [] [] ["COL_A"; "Late"]
    (Some (<["COL_A" := true]> (<["Gone" := false]> ∅)))
    [] None (Some (Named "COL_A")) ∅.

(** What Remove has reached for an object: no longer a member of the
    collection, linked to the master collection, without a parent. *)
Definition detached (col : string) (st : Blend) (ob : string) : Prop :=
  (ob ∉ ref_objects st (Named col)) ∧ ob ∈ scene_objects st ∧
  ob_parent_of st ob = None.

(** Two EZCollections linked to the scene, with their pivots, shown in
    the viewport, at (1, 2, 3) and (3, 2, 0); one member of each is
    selected. *)
Definition merge_scene : Blend :=
  mkBlend
    (<["Cube" := demo_object]>
       (<["Ball" := demo_object]>
          (<["Pivot_COL_A" := mkObject MESH None false true vzero
                                (mkVector (f32_of_nat 1) (f32_of_nat 2) (f32_of_nat 3))
                                true false]>
             (<["Pivot_COL_B" := mkObject MESH None false true vzero
                                   (mkVector (f32_of_nat 3) (f32_of_nat 2) (f32_of_nat 0))
                                   true false]> ∅))))
    (<["COL_A" := mkCollection false false (Some "Pivot_COL_A") "COLOR_02"
                    ["Cube"; "Pivot_COL_A"] []]>
       (<["COL_B" := mkCollection false false (Some "Pivot_COL_B") "COLOR_02"
                       ["Ball"; "Pivot_COL_B"] []]> ∅))
    [] [] [] ["COL_A"; "COL_B"] None ["Cube"; "Ball"] (Some "Cube")
    (Some (Named "COL_A")) ∅.


(** [merged_scene] with the pivots of the two child EZCollections shown
    in the viewport. *)
Definition merged_shown_scene : Blend :=
  mkBlend
    (<["Cube" := demo_object]>
       (<["Pivot_COL_A" := mkObject MESH (Some "Pivot_COL_P") false true vzero vzero
                             true false]>
          (<["Pivot_COL_B" := mkObject MESH (Some "Pivot_COL_P") false true vzero vzero
                                true false]>
             (<["Pivot_COL_P" := mkObject MESH None false true vzero vzero
                                   true true]> ∅))))
    (<["COL_A" := mkCollection false false (Some "Pivot_COL_A") "COLOR_02"
                    ["Cube"; "Pivot_COL_A"] []]>
       (<["COL_B" := mkCollection false false (Some "Pivot_COL_B") "COLOR_02"
                       ["Pivot_COL_B"] []]>
          (<["Props" := new_collection]>
             (<["COL_P" := mkCollection false false (Some "Pivot_COL_P") "COLOR_01"
                             ["Pivot_COL_P"] ["COL_A"; "Props"; "COL_B"]]> ∅))))
    [] [] [] ["COL_P"] None ["Pivot_COL_P"] (Some "Pivot_COL_P")
    (Some (Named "COL_P")) ∅.


(** An EZCollection [COL_A], active and locked: [Cube] is a child of the
    pivot and [Ball] a child of [Cube]; [Cube] is selected. *)
Definition locked_scene : Blend :=
  mkBlend
    (<["Cube" := mkObject MESH (Some "Pivot_COL_A") false false vzero vzero
                   false false]>
       (<["Ball" := mkObject MESH (Some "Cube") false false vzero vzero
                      false false]>
          (<["Pivot_COL_A" := mkObject MESH None false true vzero vzero
                                true false]> ∅)))
    (<["COL_A" := mkCollection false false (Some "Pivot_COL_A") "COLOR_02"
                    ["Cube"; "Ball"; "Pivot_COL_A"] []]> ∅)
    [] [] [] ["COL_A"] None ["Cube"] (Some "Cube") (Some (Named "COL_A")) ∅.

(* ===================================================================== *)
(** ** Facts about names                                                  *)
(* ===================================================================== *)

Lemma startswith_app (p s : string) : startswith p (p +:+ s) = true.
Proof.
  unfold startswith. induction p as [|a p IH]; simpl.
  - by destruct s.
  - destruct (Ascii.ascii_dec a a); [done|congruence].
Qed.

Lemma startswith_refl (p : string) : startswith p p = true.
Proof.
  unfold startswith. induction p as [|a p IH]; simpl; [done|].
  destruct (Ascii.ascii_dec a a); [done|congruence].
Qed.

(** Among [n + 1] values of an injective enumeration, one is missing from
    any list of length [n]. *)
Lemma fresh_among_injective (f : nat → string) (l : list string) (c : nat) :
  (∀ i j, f i = f j → i = j) →
  ∃ k, k ≤ length l ∧ f (c + k) ∉ l.
Proof.
  intros Hinj.
  destruct (decide (Forall (λ k, f (c + k) ∈ l) (seq 0 (S (length l)))))
    as [Hall|Hex].
  - exfalso.
    assert (NoDup ((λ k, f (c + k)) <$> seq 0 (S (length l)))) as Hnd.
    { apply NoDup_fmap_2_strong; [|apply NoDup_seq].
      intros i j _ _ Hij. apply Hinj in Hij. lia. }
    assert (((λ k, f (c + k)) <$> seq 0 (S (length l))) ⊆+ l) as Hsub.
    { apply NoDup_submseteq; [done|].
      intros x (k & -> & Hk)%list_elem_of_fmap.
      by eapply Forall_forall in Hall. }
    apply submseteq_length in Hsub.
    rewrite length_fmap, length_seq in Hsub. lia.
  - apply not_Forall_Exists in Hex; [|intros k; apply _].
    apply Exists_exists in Hex as (k & Hk & Hnot).
    apply elem_of_seq in Hk. exists k. split; [lia|done].
Qed.

Lemma candidate_inj (base : string) (i j : nat) :
  base +:+ "_" +:+ pretty i = base +:+ "_" +:+ pretty j → i = j.
Proof.
  intros H. apply (inj (String.app base)) in H.
  apply (inj (String.app "_")) in H. by apply (inj pretty) in H.
Qed.

Lemma generate_unique_name_loop_mono fuel fuel' base ex name c r :
  generate_unique_name_loop fuel base ex name c = Some r →
  fuel ≤ fuel' →
  generate_unique_name_loop fuel' base ex name c = Some r.
Proof.
  revert fuel' name c. induction fuel as [|fuel IH]; intros fuel' name c; [done|].
  intros Hr Hle. destruct fuel' as [|fuel']; [lia|]. simpl in *.
  case_bool_decide; [|done]. apply IH; [done|lia].
Qed.

Lemma generate_unique_name_loop_exits base ex k :
  ∀ c name fuel,
    base +:+ "_" +:+ pretty (c + k) ∉ ex →
    S k < fuel →
    is_Some (generate_unique_name_loop fuel base ex name c).
Proof.
  induction k as [|k IH]; intros c name fuel Hfree Hfuel.
  - destruct fuel as [|[|fuel]]; [lia..|]. simpl.
    case_bool_decide; [|by eexists].
    rewrite Nat.add_0_r in Hfree. rewrite bool_decide_eq_false_2 by done.
    by eexists.
  - destruct fuel as [|fuel]; [lia|]. simpl.
    case_bool_decide; [|by eexists].
    apply IH; [|lia]. by replace (S c + k) with (c + S k) by lia.
Qed.

Lemma generate_unique_name_terminates base ex :
  ∃ r, ∀ fuel, 2 + length ex ≤ fuel →
    generate_unique_name_fuel fuel base ex = Some r.
Proof.
  destruct (fresh_among_injective (λ i, base +:+ "_" +:+ pretty i) ex 1)
    as (k & Hk & Hfree); [apply candidate_inj|].
  destruct (generate_unique_name_loop_exits base ex k 1 base (2 + length ex))
    as [r Hr]; [done|lia|].
  exists r. intros fuel Hfuel.
  by eapply generate_unique_name_loop_mono.
Qed.

Lemma legacy_loop_agrees fuel base names :
  ∀ name c, startswith base name = true →
    Legacy.unique_loop fuel base
      (filter (λ n, startswith base n = true) names) name c
    = generate_unique_name_loop fuel base names name c.
Proof.
  induction fuel as [|fuel IH]; intros name c Hpre; [done|]. simpl.
  rewrite IH by apply startswith_app.
  destruct (decide (name ∈ names)) as [Hin|Hin].
  - rewrite !bool_decide_eq_true_2; [done..|].
    by apply list_elem_of_filter.
  - rewrite !bool_decide_eq_false_2; [done..|].
    by intros [_ ?]%list_elem_of_filter.
Qed.

(** C10: for every base name and every list of existing collection names,
    the name uniquification of version 1.2 (which first keeps only the
    existing names that start with the base name) and
    [generate_unique_name] of version 2.4 (which tests against all names)
    both terminate, after at most [length names + 2] loop tests, and
    return the same name. *)
Theorem unique_name_versions_agree (base : string) (names : list string) :
  ∃ r, ∀ fuel, 2 + length names ≤ fuel →
    generate_unique_name_fuel fuel base names = Some r ∧
    Legacy.unique_name_fuel fuel base names = Some r.
Proof.
  destruct (generate_unique_name_terminates base names) as [r Hr].
  exists r. intros fuel Hfuel. split; [by apply Hr|].
  unfold Legacy.unique_name_fuel.
  rewrite legacy_loop_agrees by apply startswith_refl.
  by apply Hr.
Qed.

(* ===================================================================== *)
(** ** Solo mode                                                          *)
(* ===================================================================== *)

Section solo.
Variable st : Blend.
Variable col : string.
Variable c : Collection.
Hypothesis Hactive : active_layer_collection st = Some (Named col).
Hypothesis Hcol : collections st !! col = Some c.
Hypothesis Hez : is_ez_collection c = true.

Lemma active_ez_collection_eq : active_ez_collection st = Some (col, c).
Proof using Hactive Hcol Hez.
  unfold active_ez_collection. by rewrite Hactive, Hcol, Hez.
Qed.

Lemma solo_on_lookup n :
  scene_solo_backup st = None →
  collections (final (ez_toggle_solo_collection st)) !! n
  = set_visibility (bool_decide (n = col)) <$> collections st !! n.
Proof using Hactive Hcol Hez.
  intros Hb. unfold ez_toggle_solo_collection.
  rewrite active_ez_collection_eq, Hb. cbv zeta. unfold finish. cbn [final].
  case_bool_decide; cbn [collections with_collections with_solo_backup
                         with_active_layer_collection];
    rewrite map_lookup_imap; by destruct (collections st !! n).
Qed.

Lemma solo_on_backup :
  scene_solo_backup st = None →
  scene_solo_backup (final (ez_toggle_solo_collection st))
  = Some (col_hide_viewport <$> collections st).
Proof using Hactive Hcol Hez.
  intros Hb. unfold ez_toggle_solo_collection.
  rewrite active_ez_collection_eq, Hb. cbv zeta. unfold finish. cbn [final].
  by case_bool_decide.
Qed.

Lemma solo_on_top_level :
  scene_solo_backup st = None →
  top_level st col →
  active_layer_collection (final (ez_toggle_solo_collection st)) = Some (Named col).
Proof using Hactive Hcol Hez.
  intros Hb Htop. unfold ez_toggle_solo_collection.
  rewrite active_ez_collection_eq, Hb. cbv zeta. unfold finish. cbn [final].
  rewrite bool_decide_eq_true_2; [done|].
  intros n c' Hn. cbn [collections with_collections with_solo_backup] in Hn.
  rewrite map_lookup_imap in Hn.
  destruct (collections st !! n) as [c0|] eqn:Hc0; [|done].
  cbn in Hn. injection Hn as <-. exact (Htop n c0 Hc0).
Qed.
End solo.

Lemma restore_lookup (cols : gmap string Collection) (backup : gmap string bool) n :
  map_fold (λ name was_hidden cols,
              alter (col_with_hide_viewport was_hidden) name cols) cols backup !! n
  = match backup !! n with
    | Some b => col_with_hide_viewport b <$> cols !! n
    | None => cols !! n
    end.
Proof.
  revert n.
  apply (map_fold_weak_ind
           (λ (r : gmap string Collection) (m : gmap string bool),
              ∀ n, r !! n = match m !! n with
                            | Some b => col_with_hide_viewport b <$> cols !! n
                            | None => cols !! n
                            end)).
  - intros n. by rewrite lookup_empty.
  - intros i x m r Hi IH n. destruct (decide (i = n)) as [->|Hne].
    + rewrite lookup_alter_eq, lookup_insert_eq, IH. by rewrite Hi.
    + rewrite lookup_alter_ne, lookup_insert_ne by done. apply IH.
Qed.

(** C3: when Solo runs with an active EZCollection and no backup stored,
    it finishes, it leaves the set of collections as it was, the active
    collection has both [hide_viewport] and [hide_render] false, and every
    other collection has both true. *)
Theorem solo_on_isolates_active (st : Blend) (col : string) (c : Collection) :
  active_layer_collection st = Some (Named col) →
  collections st !! col = Some c →
  is_ez_collection c = true →
  scene_solo_backup st = None →
  let out := ez_toggle_solo_collection st in
  status out = FINISHED ∧
  dom (collections (final out)) = dom (collections st) ∧
  (∃ c', collections (final out) !! col = Some c' ∧
         col_hide_viewport c' = false ∧ col_hide_render c' = false) ∧
  (∀ n c', n ≠ col → collections (final out) !! n = Some c' →
           col_hide_viewport c' = true ∧ col_hide_render c' = true).
Proof.
  intros Hactive Hcol Hez Hb out. split; [|split; [|split]].
  - unfold out, ez_toggle_solo_collection.
    by rewrite (active_ez_collection_eq st col c), Hb.
  - apply set_eq. intros n. rewrite !elem_of_dom. unfold out.
    rewrite (solo_on_lookup st col c) by done. by rewrite fmap_is_Some.
  - exists (set_visibility true c). unfold out.
    rewrite (solo_on_lookup st col c), Hcol by done. simpl.
    by rewrite bool_decide_eq_true_2.
  - intros n c' Hne. unfold out.
    rewrite (solo_on_lookup st col c) by done.
    rewrite bool_decide_eq_false_2 by done.
    destruct (collections st !! n); intros [= <-]. done.
Qed.

Lemma solo_on_isolates_active_witness :
  let out := ez_toggle_solo_collection solo_scene in
  status out = FINISHED ∧
  dom (collections (final out)) = dom (collections solo_scene) ∧
  (∃ c', collections (final out) !! "COL_A" = Some c' ∧
         col_hide_viewport c' = false ∧ col_hide_render c' = false) ∧
  (∀ n c', n ≠ "COL_A" → collections (final out) !! n = Some c' →
           col_hide_viewport c' = true ∧ col_hide_render c' = true).
Proof.
  apply (solo_on_isolates_active solo_scene "COL_A"
           (mkCollection false false (Some "Pivot_COL_A") "COLOR_02"
              ["Cube"; "Pivot_COL_A"] [])); reflexivity.
Defined.

(** X11: Solo run twice from a state without a backup, on an active
    EZCollection that is the child of no collection, finishes, removes the
    backup key, and gives every collection that was there at solo-on its
    [hide_viewport] back.  (Solo-on hides every collection but the active
    one; were the active one inside another, the host would no longer
    show it and would make the master collection the active one.) *)
Lemma solo_twice_restores_viewport (st : Blend) (col : string) (c : Collection) :
  active_layer_collection st = Some (Named col) →
  collections st !! col = Some c →
  is_ez_collection c = true →
  scene_solo_backup st = None →
  top_level st col →
  let st1 := final (ez_toggle_solo_collection st) in
  let out := ez_toggle_solo_collection st1 in
  status out = FINISHED ∧
  scene_solo_backup (final out) = None ∧
  ∀ n c0, collections st !! n = Some c0 →
    ∃ c2, collections (final out) !! n = Some c2 ∧
          col_hide_viewport c2 = col_hide_viewport c0.
Proof.
  intros Hactive Hcol Hez Hb Htop st1 out.
  assert (active_ez_collection st1 = Some (col, set_visibility true c)) as Hact1.
  { apply active_ez_collection_eq.
    - by apply (solo_on_top_level st col c).
    - unfold st1. rewrite (solo_on_lookup st col c), Hcol by done. simpl.
      by rewrite bool_decide_eq_true_2.
    - done. }
  assert (scene_solo_backup st1 = Some (col_hide_viewport <$> collections st)) as Hb1.
  { by apply (solo_on_backup st col c). }
  unfold out, ez_toggle_solo_collection. rewrite Hact1, Hb1. simpl.
  split; [done|]. split; [done|].
  intros n c0 Hn. rewrite restore_lookup, lookup_fmap, Hn. simpl.
  unfold st1. rewrite (solo_on_lookup st col c), Hn by done. simpl.
  by eexists.
Qed.

(** C2: on [solo_scene], Solo on followed by Solo off finishes twice and
    removes the backup, and the plain collection [Props], which was
    rendered before, is left with [hide_render] set: the render flag that
    solo-on overwrote is not put back. *)
Theorem solo_twice_loses_render_flag :
  let st1 := final (ez_toggle_solo_collection solo_scene) in
  let out := ez_toggle_solo_collection st1 in
  status out = FINISHED ∧
  scene_solo_backup (final out) = None ∧
  col_hide_render <$> collections solo_scene !! "Props" = Some false ∧
  col_hide_render <$> collections (final out) !! "Props" = Some true ∧
  col_hide_viewport <$> collections (final out) !! "Props" = Some false.
Proof. vm_compute. done. Qed.

(* ===================================================================== *)
(** ** The selection timer: unchanged selection                           *)
(* ===================================================================== *)

(** C7: when the set of selected names equals [_last_selected], a run of
    the timer leaves the whole state as it was. *)
Theorem selection_timer_same_selection (fuel : nat) (st : Blend) :
  list_to_set (selected_objects st) = last_selected st →
  selection_timer fuel st = st.
Proof.
  intros Heq. unfold selection_timer.
  by rewrite bool_decide_eq_false_2 by (by intros ?).
Qed.

Lemma selection_timer_same_selection_witness :
  selection_timer 3 solo_scene = solo_scene.
Proof.
  apply (selection_timer_same_selection 3 solo_scene). reflexivity.
Defined.

(* ===================================================================== *)
(** ** Cancelled operators and the state they leave                       *)
(* ===================================================================== *)

(** X10: every cancel but one happens before the first write: the state
    is returned as it was received, except when Merge cancels on the
    pivots. *)
Lemma cancelled_before_first_write (op : Operation) (st : Blend) :
  status (execute op st) = CANCELLED →
  reports (execute op st) ≠ no_valid_pivots_report →
  final (execute op st) = st.
Proof.
  destruct op; simpl.
  - unfold ez_select_collection. by repeat case_match.
  - unfold ez_create_collection. by repeat case_match.
  - unfold ez_add_to_collection. by repeat case_match.
  - unfold ez_remove_from_collection. by repeat case_match.
  - unfold ez_toggle_solo_collection. by repeat case_match.
  - unfold ez_pivot_lock. by repeat case_match.
  - unfold ez_pivot_unlock. by repeat case_match.
  - unfold ez_merge_collections, collections_new, create_smart_pivot.
    repeat case_match; simpl; try done.
  - unfold ez_unmerge_collections. by repeat case_match.
Qed.

(** C1: Merge on [orphaned_scene] with the name [Group] returns CANCELLED
    with the report "No valid pivots found", and the state it leaves
    differs from the state it received: a collection [COL_Group] has been
    created and linked under the scene's master collection. *)
Theorem merge_cancel_leaves_new_collection :
  let out := ez_merge_collections "Group" orphaned_scene in
  status out = CANCELLED ∧
  reports out = no_valid_pivots_report ∧
  collections orphaned_scene !! "COL_Group" = None ∧
  collections (final out) !! "COL_Group"
    = Some (col_with_color_tag "COLOR_01" new_collection) ∧
  scene_children orphaned_scene = ["COL_A"; "COL_B"] ∧
  scene_children (final out) = ["COL_A"; "COL_B"; "COL_Group"] ∧
  final out ≠ orphaned_scene.
Proof.
  repeat split; try (vm_compute; reflexivity).
  intros Heq. apply (f_equal scene_children) in Heq. vm_compute in Heq. done.
Qed.

(* ===================================================================== *)
(** ** New collections get a fresh name                                   *)
(* ===================================================================== *)

Lemma generate_unique_name_loop_fresh fuel base ex name c r :
  generate_unique_name_loop fuel base ex name c = Some r → r ∉ ex.
Proof.
  revert name c. induction fuel as [|fuel IH]; intros name c; [done|]. simpl.
  case_bool_decide; [by apply IH|]. by intros [= <-].
Qed.

Lemma generate_unique_name_fresh base ex : generate_unique_name base ex ∉ ex.
Proof.
  unfold generate_unique_name.
  destruct (generate_unique_name_terminates base ex) as [r Hr].
  rewrite (Hr (2 + length ex)) by done. simpl.
  eapply generate_unique_name_loop_fresh. by apply (Hr (2 + length ex)).
Qed.

Lemma bpy_unique_name_free name used :
  name ∉ used → bpy_unique_name name used = name.
Proof. intros H. unfold bpy_unique_name. by rewrite bool_decide_eq_false_2. Qed.

Lemma collection_names_spec st n :
  n ∈ collection_names st ↔ is_Some (collections st !! n).
Proof.
  unfold collection_names. rewrite list_elem_of_fmap. split.
  - intros ([k c] & -> & Hin). apply elem_of_map_to_list in Hin. by eexists.
  - intros [c Hc]. exists (n, c). split; [done|]. by apply elem_of_map_to_list.
Qed.

Lemma collections_new_unique base st :
  let n := generate_unique_name base (collection_names st) in
  collections st !! n = None ∧
  collections_new n st = (n, with_collections (<[n := new_collection]> (collections st)) st).
Proof.
  intros n.
  assert (n ∉ collection_names st) as Hn by apply generate_unique_name_fresh.
  split.
  - apply eq_None_not_Some. by rewrite <-collection_names_spec.
  - unfold collections_new. by rewrite bpy_unique_name_free.
Qed.

Lemma omap_nil_iff {A B} (f : A → option B) (l : list A) :
  omap f l = [] ↔ ∀ x, x ∈ l → f x = None.
Proof.
  induction l as [|a l IH]; simpl.
  - split; [|done]. by intros _ x ?%elem_of_nil.
  - destruct (f a) eqn:Ha; simpl.
    + split; [done|]. intros H. specialize (H a (list_elem_of_here _ _)). congruence.
    + rewrite IH. split.
      * intros H x [->|?]%elem_of_cons; auto.
      * intros H x Hx. apply H. by right.
Qed.

(* ===================================================================== *)
(** ** Which runs are cancelled                                           *)
(* ===================================================================== *)

(** C9, as stated, fails: Unmerge on [childless_scene] is cancelled with
    a warning although the active collection is an EZCollection, which is
    the only cancel case listed for Unmerge. *)
Lemma unmerge_cancels_outside_listed_cases :
  status (execute OpUnmerge childless_scene) = CANCELLED ∧
  reports (execute OpUnmerge childless_scene)
    = [(WARNING, "No child EZCollections found to unmerge.")] ∧
  ¬ listed_cancel_case OpUnmerge childless_scene.
Proof. repeat split; try (vm_compute; reflexivity). vm_compute. done. Qed.

Lemma foldl_invariant {A B} (P : A → Prop) (f : A → B → A) (l : list B) (a : A) :
  P a → (∀ a b, P a → b ∈ l → P (f a b)) → P (foldl f a l).
Proof.
  revert a. induction l as [|b l IH]; intros a Ha Hf; simpl; [done|].
  apply IH.
  - apply Hf; [done|]. by left.
  - intros a' b' ? ?. apply Hf; [done|]. by right.
Qed.

Lemma merge_candidates_ez st :
  Forall (λ n, ref_is_ez st (Named n) = true) (merge_candidates st).
Proof.
  unfold merge_candidates.
  apply foldl_invariant; [done|]. intros acc ob Hacc _.
  apply foldl_invariant; [done|]. intros acc' [|n] Hacc' _; [done|].
  destruct (ref_is_ez st (Named n) && bool_decide (n ∉ acc')) eqn:Hc; [|done].
  apply andb_true_iff in Hc as [Hez _].
  apply Forall_app. split; [done|]. by apply Forall_singleton.
Qed.

Lemma ref_is_ez_exists st n :
  ref_is_ez st (Named n) = true → is_Some (collections st !! n).
Proof. simpl. destruct (collections st !! n); [by eexists|done]. Qed.

Lemma merge_selected_exist st n :
  n ∈ merge_selected_collections st → is_Some (collections st !! n).
Proof.
  unfold merge_selected_collections.
  pose proof (merge_candidates_ez st) as Hall.
  destruct (merge_candidates st) as [|m l] eqn:Hm.
  - destruct (active_ez_collection st) as [[m c]|] eqn:Hact;
      [|by intros ?%elem_of_nil].
    intros ->%list_elem_of_singleton. revert Hact. unfold active_ez_collection.
    destruct (active_layer_collection st) as [[|k]|]; try done.
    destruct (collections st !! k) as [c'|] eqn:Hk; [|done].
    destruct (is_ez_collection c'); [|done]. intros [= -> ->]. by eexists.
  - intros Hn. eapply Forall_forall in Hall; [|done]. by apply ref_is_ez_exists.
Qed.

Lemma ref_pivot_new_collection st n col tag :
  collections st !! n = None →
  is_Some (collections st !! col) →
  ref_pivot
    (children_link Master n
       (set_color_tag n tag
          (with_collections (<[n := new_collection]> (collections st)) st))) col
  = ref_pivot st col.
Proof.
  intros Hn [c Hc]. unfold ref_pivot. simpl.
  assert (n ≠ col) by congruence.
  rewrite lookup_alter_ne, lookup_insert_ne by done. done.
Qed.

Lemma users_collection_named (st : Blend) (ob n : string) :
  Named n ∈ users_collection st ob ↔
  ∃ col, collections st !! n = Some col ∧ ob ∈ col_objects col.
Proof.
  unfold users_collection. rewrite elem_of_app. split.
  - intros [Hm|Hn].
    + case_bool_decide; [|by apply elem_of_nil in Hm].
      by apply list_elem_of_singleton in Hm.
    + apply list_elem_of_fmap in Hn as (k & [= <-] & Hk).
      apply list_elem_of_fmap in Hk as ([k' col] & -> & Hk).
      apply list_elem_of_filter in Hk as [Hob Hk].
      apply elem_of_map_to_list in Hk. by exists col.
  - intros (col & Hn & Hob). right.
    apply list_elem_of_fmap. exists n. split; [done|].
    apply list_elem_of_fmap. exists (n, col). split; [done|].
    apply list_elem_of_filter. split; [done|]. by apply elem_of_map_to_list.
Qed.

Lemma merge_candidates_NoDup st : NoDup (merge_candidates st).
Proof.
  unfold merge_candidates.
  apply foldl_invariant; [constructor|]. intros acc ob Hacc _.
  apply foldl_invariant; [done|]. intros acc' [|n] Hacc' _; [done|].
  destruct (ref_is_ez st (Named n)); [|done]. cbn [andb].
  case_bool_decide as Hn; [|done].
  apply NoDup_app. split; [done|]. split; [|apply NoDup_singleton].
  by intros x Hx ->%list_elem_of_singleton.
Qed.

Lemma merge_candidates_spec st n :
  n ∈ merge_candidates st ↔ selected_ez st n.
Proof.
  assert (∀ rs acc,
            n ∈ foldl (λ (acc' : list string) r,
                         match r with
                         | Named k =>
                             if ref_is_ez st r && bool_decide (k ∉ acc')
                             then (acc' ++ [k])%list else acc'
                         | Master => acc'
                         end) acc rs
            ↔ n ∈ acc ∨ (Named n ∈ rs ∧ ref_is_ez st (Named n) = true)) as Hinner.
  { induction rs as [|r rs IH]; intros acc; cbn [foldl].
    - split; [by left|]. by intros [?|[?%elem_of_nil _]].
    - rewrite IH. destruct r as [|k].
      + split.
        * intros [?|[? ?]]; [by left|]. right. split; [by right|done].
        * intros [?|[[?|?]%elem_of_cons ?]]; [by left|done|by right].
      + destruct (ref_is_ez st (Named k)) eqn:Hk; cbn [andb].
        * case_bool_decide as Hin.
          -- rewrite elem_of_app, list_elem_of_singleton. split.
             ++ intros [[?| ->]|[? ?]]; [by left| |].
                ** right. split; [by left|done].
                ** right. split; [by right|done].
             ++ intros [?|[[[= ->]|?]%elem_of_cons ?]];
                  [left; by left|left; by right|by right].
          -- split.
             ++ intros [?|[? ?]]; [by left|]. right. split; [by right|done].
             ++ intros [?|[[[= ->]|?]%elem_of_cons ?]]; [by left|by left|by right].
        * split.
          -- intros [?|[? ?]]; [by left|]. right. split; [by right|done].
          -- intros [?|[[[= ->]|?]%elem_of_cons ?]]; [by left|congruence|by right].
  }
  assert (∀ obs acc,
            n ∈ foldl (λ (acc : list string) ob,
                         foldl (λ (acc' : list string) r,
                                  match r with
                                  | Named k =>
                                      if ref_is_ez st r && bool_decide (k ∉ acc')
                                      then (acc' ++ [k])%list else acc'
                                  | Master => acc'
                                  end) acc (users_collection st ob)) acc obs
            ↔ n ∈ acc ∨ ∃ ob, ob ∈ obs ∧ Named n ∈ users_collection st ob
                              ∧ ref_is_ez st (Named n) = true) as Houter.
  { induction obs as [|ob obs IH]; intros acc; cbn [foldl].
    - split; [by left|]. by intros [?|(? & ?%elem_of_nil & _)].
    - rewrite IH, Hinner. split.
      + intros [[?|[? ?]]|(ob' & ? & ? & ?)]; [by left| |].
        * right. exists ob. split; [by left|done].
        * right. exists ob'. split; [by right|done].
      + intros [?|(ob' & [->|?]%elem_of_cons & ? & ?)].
        * left. by left.
        * left. by right.
        * right. by exists ob'. }
  unfold merge_candidates. rewrite Houter. unfold selected_ez. split.
  - intros [?%elem_of_nil|(ob & Hob & Hn & Hez)]; [done|].
    apply users_collection_named in Hn as (c & Hc & Hin).
    exists ob, c. cbn in Hez. rewrite Hc in Hez. done.
  - intros (ob & c & Hob & Hc & Hin & Hez). right. exists ob.
    split; [done|]. split.
    + apply users_collection_named. by exists c.
    + cbn. by rewrite Hc.
Qed.

(** The list Merge works on has fewer than two entries exactly when there
    are fewer than two selected EZCollections; with two or more, it lists
    exactly the selected EZCollections. *)
Lemma merge_selected_few st :
  length (merge_selected_collections st) < 2 ↔ fewer_than_two_selected_ez st.
Proof.
  unfold merge_selected_collections, fewer_than_two_selected_ez.
  pose proof (merge_candidates_NoDup st) as Hnd.
  pose proof (merge_candidates_spec st) as Hspec.
  destruct (merge_candidates st) as [|x [|y l]].
  - split.
    + intros _ a b Ha%Hspec. by apply elem_of_nil in Ha.
    + intros _. destruct (active_ez_collection st) as [[? ?]|]; cbn; lia.
  - split; [|cbn; lia].
    intros _ a b Ha%Hspec Hb%Hspec.
    apply list_elem_of_singleton in Ha, Hb. congruence.
  - split; [cbn; lia|]. intros Hfew. exfalso.
    apply NoDup_cons in Hnd as [Hx _]. apply Hx.
    rewrite (Hfew x y); [by left| |]; apply Hspec; [by left|right; by left].
Qed.

Lemma merge_selected_spec st n :
  ¬ length (merge_selected_collections st) < 2 →
  n ∈ merge_selected_collections st ↔ selected_ez st n.
Proof.
  unfold merge_selected_collections. rewrite <-merge_candidates_spec.
  destruct (merge_candidates st) as [|x l]; [|done].
  intros H. exfalso. apply H. destruct (active_ez_collection st) as [[? ?]|]; cbn; lia.
Qed.

Lemma merge_cancelled name st :
  (status (ez_merge_collections name st) = CANCELLED ↔ cancel_case (OpMerge name) st) ∧
  (status (ez_merge_collections name st) = CANCELLED →
   ∃ lvl msg, reports (ez_merge_collections name st) = [(lvl, msg)] ∧ lvl ≠ INFO).
Proof.
  unfold ez_merge_collections. cbv zeta.
  destruct (collections_new_unique ("COL_" +:+ strip name) st) as [Hfresh Hnew].
  case_bool_decide as Hlen.
  { simpl. split; [|intros _; by eexists _, _].
    split; [|done]. intros _. left. by apply merge_selected_few. }
  case_bool_decide as Hname.
  { simpl. split; [naive_solver|]. intros _. by eexists _, _. }
  rewrite Hnew.
  set (n := generate_unique_name _ _) in *.
  set (st' := children_link Master n _).
  assert (omap (λ col, world_translation st' <$> ref_pivot st' col)
            (merge_selected_collections st) = []
          ↔ ∀ col, selected_ez st col → ref_pivot st col = None) as Hpiv.
  { rewrite omap_nil_iff. apply forall_proper. intros col.
    rewrite (merge_selected_spec st col Hlen). apply forall_proper. intros Hcol.
    unfold st'. rewrite ref_pivot_new_collection;
      [|done|by apply merge_selected_exist, merge_selected_spec].
    by rewrite fmap_None. }
  case_bool_decide as Hloc.
  { simpl. split; [|intros _; by eexists _, _].
    split; [|done]. intros _. right. right. by apply Hpiv. }
  unfold create_smart_pivot. simpl. split; [|done].
  split; [done|]. intros [H|[?|H]]; [by apply merge_selected_few in H|done|].
  by apply Hpiv in H.
Qed.

Lemma listed_is_cancel_case op st : listed_cancel_case op st → cancel_case op st.
Proof.
  destruct op; simpl; try done; try (by intros ->);
    try (destruct (active_ez_collection st) as [[? ?]|]; naive_solver).
Qed.

Lemma cancelled_cases (op : Operation) (st : Blend) :
  (status (execute op st) = CANCELLED ↔ cancel_case op st) ∧
  (status (execute op st) = CANCELLED →
   ∃ lvl msg, reports (execute op st) = [(lvl, msg)] ∧ lvl ≠ INFO).
Proof.
  destruct op; simpl; try apply merge_cancelled.
  - unfold ez_select_collection. destruct (active_layer_collection st); simpl.
    + split; [done|done].
    + split; [done|]. intros _. by eexists _, _.
  - unfold ez_create_collection. cbv zeta.
    case_bool_decide; simpl; [split; [naive_solver|intros _; by eexists _, _]|].
    case_bool_decide; simpl; [split; [naive_solver|intros _; by eexists _, _]|].
    unfold collections_new, create_smart_pivot. simpl.
    split; [|done]. split; [done|by intros [?|?]].
  - unfold ez_add_to_collection, valid_selection.
    destruct (active_ez_collection st) as [[col c]|]; simpl;
      [|split; [done|intros _; by eexists _, _]].
    destruct (get_collection_pivot st c) as [pivot|]; simpl;
      [|split; [naive_solver|intros _; by eexists _, _]].
    assert (filter (λ ob, Some ob ≠ Some pivot) (selected_objects st)
            = filter (λ ob, ob ≠ pivot) (selected_objects st)) as ->.
    { apply list_filter_iff. intros x. split; congruence. }
    case_bool_decide; simpl; [split; [naive_solver|intros _; by eexists _, _]|].
    split; [|done]. split; [done|by intros [?|?]].
  - unfold ez_remove_from_collection, valid_selection.
    destruct (active_ez_collection st) as [[col c]|]; simpl;
      [|split; [done|intros _; by eexists _, _]].
    case_bool_decide; simpl; [split; [naive_solver|intros _; by eexists _, _]|].
    split; [naive_solver|done].
  - unfold ez_toggle_solo_collection.
    destruct (active_ez_collection st) as [[col c]|]; simpl;
      [|split; [done|intros _; by eexists _, _]].
    destruct (scene_solo_backup st); simpl; split; done.
  - unfold ez_pivot_lock.
    destruct (active_ez_collection st) as [[col c]|]; simpl;
      [|split; [done|intros _; by eexists _, _]].
    destruct (get_collection_pivot st c) as [pivot|]; simpl;
      [|split; [naive_solver|intros _; by eexists _, _]].
    split; done.
  - unfold ez_pivot_unlock.
    destruct (active_ez_collection st) as [[col c]|]; simpl;
      [|split; [done|intros _; by eexists _, _]].
    destruct (get_collection_pivot st c) as [pivot|]; simpl;
      [|split; [naive_solver|intros _; by eexists _, _]].
    split; done.
  - unfold ez_unmerge_collections.
    destruct (active_ez_collection st) as [[col c]|]; simpl;
      [|split; [done|intros _; by eexists _, _]].
    case_bool_decide; simpl; [split; [naive_solver|intros _; by eexists _, _]|].
    destruct (unmerge_children _ _ _) as [st' []]; simpl; split; done.
Qed.

(** C9, amended: an operator returns CANCELLED exactly in the cancel
    cases of [cancel_case]; whenever it does, it has reported exactly one
    message, a warning or an error; and every case the specification
    lists is one of them. *)
Theorem cancelled_exactly_in_cancel_cases (op : Operation) (st : Blend) :
  (status (execute op st) = CANCELLED ↔ cancel_case op st) ∧
  (status (execute op st) = CANCELLED →
   ∃ lvl msg, reports (execute op st) = [(lvl, msg)] ∧ lvl ≠ INFO) ∧
  (listed_cancel_case op st → status (execute op st) = CANCELLED).
Proof.
  destruct (cancelled_cases op st) as [Hiff Hrep].
  split; [done|]. split; [done|].
  intros H. apply Hiff. by apply listed_is_cancel_case.
Qed.

(* ===================================================================== *)
(** ** The host's names are fresh                                         *)
(* ===================================================================== *)

Lemma pretty_N_go_head (x : N) :
  ∀ s, (0 < x)%N → ∃ a r, pretty_N_go x s = String a r ∧ a ≠ "0"%char.
Proof.
  induction (N.lt_wf_0 x) as [x _ IH]. intros s Hx.
  rewrite pretty_N_go_step by done.
  destruct (decide (x < 10)%N) as [Hlt|Hge].
  - rewrite N.div_small, pretty_N_go_0 by done. eexists _, _. split; [done|].
    rewrite N.mod_small by done. intros Heq.
    apply (pretty_N_char_inj x 0) in Heq; lia.
  - apply IH.
    + apply N.div_lt; lia.
    + apply N.div_str_pos. lia.
Qed.

Lemma pretty_nat_head (k : nat) :
  0 < k → ∃ a r, pretty k = String a r ∧ a ≠ "0"%char.
Proof.
  intros Hk. unfold pretty, pretty_nat, pretty, pretty_N.
  rewrite decide_False by lia. apply pretty_N_go_head. lia.
Qed.

Lemma pad3_inj (i j : nat) : 0 < i → 0 < j → pad3 i = pad3 j → i = j.
Proof.
  intros Hi Hj. unfold pad3.
  destruct (pretty_nat_head i Hi) as (a & r & Ha & Hna).
  destruct (pretty_nat_head j Hj) as (b & q & Hb & Hnb).
  repeat case_match; intros Heq; cbv [String.append] in Heq; simplify_eq;
    try (by apply (inj pretty));
    rewrite ?Ha, ?Hb in *; by simplify_eq.
Qed.

Lemma bpy_unique_name_fresh name used : bpy_unique_name name used ∉ used.
Proof.
  unfold bpy_unique_name. case_bool_decide; [|done].
  destruct (fresh_among_injective (λ k, name +:+ "." +:+ pad3 (S k)) used 0)
    as (k & Hk & Hfree).
  { intros i j Hij. apply (inj (String.app name)), (inj (String.app ".")) in Hij.
    apply pad3_inj in Hij; lia. }
  destruct (filter _ _) as [|x l] eqn:Hf; simpl.
  - exfalso. assert (name +:+ "." +:+ pad3 (S k) ∈ @nil string) as Hin; [|by apply elem_of_nil in Hin].
    rewrite <-Hf. apply list_elem_of_filter. split; [done|].
    apply list_elem_of_fmap. exists (S k). split; [done|]. apply elem_of_seq. lia.
  - assert (x ∈ x :: l) as Hin by left. rewrite <-Hf in Hin.
    by apply list_elem_of_filter in Hin as [? _].
Qed.

Lemma object_names_spec st n :
  n ∈ object_names st ↔ is_Some (objects st !! n).
Proof.
  unfold object_names. rewrite list_elem_of_fmap. split.
  - intros ([k o] & -> & Hin). apply elem_of_map_to_list in Hin. by eexists.
  - intros [o Ho]. exists (n, o). split; [done|]. by apply elem_of_map_to_list.
Qed.

(* ===================================================================== *)
(** ** The tag invariant                                                  *)
(* ===================================================================== *)

Lemma same_geometry_refl o : same_geometry o o.
Proof. done. Qed.

Lemma same_geometry_trans o1 o2 o3 :
  same_geometry o1 o2 → same_geometry o2 o3 → same_geometry o1 o3.
Proof. unfold same_geometry. intros (?&?) (?&?). split; congruence. Qed.

Lemma objects_kept_refl objs : objects_kept objs objs.
Proof. intros n o Hn. by exists o. Qed.

Lemma objects_kept_trans o1 o2 o3 :
  objects_kept o1 o2 → objects_kept o2 o3 → objects_kept o1 o3.
Proof.
  intros H12 H23 n o Hn. destruct (H12 n o Hn) as (o' & Hn' & ?).
  destruct (H23 n o' Hn') as (o'' & Hn'' & ?). exists o''.
  split; [done|]. by eapply same_geometry_trans.
Qed.

Lemma objects_kept_live objs objs' p :
  objects_kept objs objs' → is_Some (objs !! p) → is_Some (objs' !! p).
Proof. intros H [o Ho]. destruct (H p o Ho) as (o' & ? & _). by exists o'. Qed.

Lemma objects_kept_alter (f : Object → Object) k objs :
  (∀ o, same_geometry o (f o)) → objects_kept objs (alter f k objs).
Proof.
  intros Hf n o Hn. destruct (decide (k = n)) as [->|Hne].
  - exists (f o). by rewrite lookup_alter_eq, Hn.
  - exists o. by rewrite lookup_alter_ne.
Qed.

Lemma objects_kept_insert k x objs :
  objs !! k = None → objects_kept objs (<[k := x]> objs).
Proof.
  intros Hk n o Hn. exists o. split; [|done].
  rewrite lookup_insert_ne; [done|congruence].
Qed.

Lemma objects_kept_foldl {B} (g : gmap string Object → B → gmap string Object)
    (l : list B) (objs : gmap string Object) :
  (∀ o b, objects_kept o (g o b)) → objects_kept objs (foldl g objs l).
Proof.
  intros Hg. apply (foldl_invariant (objects_kept objs)); [apply objects_kept_refl|].
  intros o b Ho _. by eapply objects_kept_trans.
Qed.

Lemma tag_live_mono (objs objs' : gmap string Object) c c' :
  objects_kept objs objs' → col_ez_pivot c = col_ez_pivot c' →
  tag_live objs c → tag_live objs' c'.
Proof.
  unfold tag_live. intros Hk <-. destruct (col_ez_pivot c) as [p|]; [|done].
  by apply objects_kept_live.
Qed.

Lemma keeps_tags_refl st : keeps_tags st st.
Proof.
  split; [done|]. split; [apply objects_kept_refl|].
  intros n c Hn. right. by exists c.
Qed.

Lemma keeps_tags_trans st1 st2 st3 :
  keeps_tags st1 st2 → keeps_tags st2 st3 → keeps_tags st1 st3.
Proof.
  intros (Hc12 & Hd12 & H12) (Hc23 & Hd23 & H23).
  split; [set_solver|]. split; [by eapply objects_kept_trans|].
  intros n c3 Hn. destruct (H23 n c3 Hn) as [?|(c2 & Hc2 & Heq2)]; [by left|].
  destruct (H12 n c2 Hc2) as [Hl|(c1 & Hc1 & Heq1)].
  - left. by eapply tag_live_mono.
  - right. exists c1. split; [done|congruence].
Qed.

Lemma keeps_tags_live st st' : tags_live st → keeps_tags st st' → tags_live st'.
Proof.
  intros Hlive (_ & Hd & H) n c' Hn. simpl.
  destruct (H n c' Hn) as [?|(c & Hc & Heq)]; [done|].
  eapply tag_live_mono; [done..|]. by apply (Hlive n c).
Qed.

(** A step that leaves [bpy.data.objects] and [bpy.data.collections]. *)
Lemma keeps_tags_frame st0 st st' :
  objects st' = objects st → collections st' = collections st →
  keeps_tags st0 st → keeps_tags st0 st'.
Proof.
  intros Ho Hc H. eapply keeps_tags_trans; [done|].
  split; [by rewrite Hc|]. split; [rewrite Ho; apply objects_kept_refl|].
  intros n c Hn. right. exists c. by rewrite <-Hc.
Qed.

(** A step on the objects that loses none and moves none. *)
Lemma keeps_tags_objects st0 st objs :
  objects_kept (objects st) objs →
  keeps_tags st0 st → keeps_tags st0 (with_objects objs st).
Proof.
  intros Hd H. eapply keeps_tags_trans; [done|].
  split; [done|]. split; [done|]. intros n c Hn. right. by exists c.
Qed.

(** A step on the collections that loses none and keeps the tags, or
    sets none. *)
Lemma keeps_tags_collections st0 st cols :
  dom (collections st) ⊆ dom cols →
  (∀ n c', cols !! n = Some c' →
     col_ez_pivot c' = None ∨
     ∃ c, collections st !! n = Some c ∧ col_ez_pivot c = col_ez_pivot c') →
  keeps_tags st0 st → keeps_tags st0 (with_collections cols st).
Proof.
  intros Hdom Hc H. eapply keeps_tags_trans; [done|].
  split; [done|]. split; [apply objects_kept_refl|].
  intros n c' Hn. destruct (Hc n c' Hn) as [Hnone|?]; [|by right].
  left. unfold tag_live. by rewrite Hnone.
Qed.

Lemma keeps_tags_alter st0 st (f : Collection → Collection) k :
  (∀ c, col_ez_pivot (f c) = col_ez_pivot c) →
  keeps_tags st0 st →
  keeps_tags st0 (with_collections (alter f k (collections st)) st).
Proof.
  intros Hf. apply keeps_tags_collections; [by rewrite dom_alter_L|]. intros n c'.
  destruct (decide (k = n)) as [->|Hne].
  - rewrite lookup_alter_eq. destruct (collections st !! n) as [c|]; [|done].
    intros [= <-]. right. exists c. by rewrite Hf.
  - rewrite lookup_alter_ne by done. intros Hn. right. by exists c'.
Qed.

Lemma keeps_tags_foldl {B} st0 (f : Blend → B → Blend) (l : list B) st :
  (∀ s b, keeps_tags st0 s → keeps_tags st0 (f s b)) →
  keeps_tags st0 st → keeps_tags st0 (foldl f st l).
Proof. intros Hf H. apply foldl_invariant; [done|]. intros s b ? _. by apply Hf. Qed.

Section steps.
Variable st0 : Blend.
Implicit Types st : Blend.

Lemma kt_select_all_deselect st :
  keeps_tags st0 st → keeps_tags st0 (select_all_deselect st).
Proof. by apply keeps_tags_frame. Qed.

Lemma kt_select_set ob st :
  keeps_tags st0 st → keeps_tags st0 (select_set ob st).
Proof. unfold select_set. case_bool_decide; [done|]. by apply keeps_tags_frame. Qed.

Lemma kt_set_active ob st :
  keeps_tags st0 st → keeps_tags st0 (set_active ob st).
Proof. by apply keeps_tags_frame. Qed.

Lemma kt_parent_set st : keeps_tags st0 st → keeps_tags st0 (parent_set st).
Proof.
  unfold parent_set. destruct (active_object st) as [a|]; [|done].
  apply keeps_tags_objects. apply objects_kept_foldl.
  intros o b. case_bool_decide; [apply objects_kept_refl|].
  by apply objects_kept_alter.
Qed.

Lemma kt_parent_clear st : keeps_tags st0 st → keeps_tags st0 (parent_clear st).
Proof.
  apply keeps_tags_objects. apply objects_kept_foldl.
  intros o b. apply objects_kept_alter. intros x. unfold ob_clear_parent.
  by destruct (ob_parent x).
Qed.

Lemma kt_set_hide_viewport ob b st :
  keeps_tags st0 st → keeps_tags st0 (set_hide_viewport ob b st).
Proof. apply keeps_tags_objects. by apply objects_kept_alter. Qed.

Lemma kt_hide_all_pivots st :
  keeps_tags st0 st → keeps_tags st0 (hide_all_pivots st).
Proof.
  apply keeps_tags_objects. apply objects_kept_foldl.
  intros o [k c]. unfold hide_pivot_of. simpl.
  destruct (col_ez_pivot c); [by apply objects_kept_alter|apply objects_kept_refl].
Qed.

Lemma kt_objects_link r ob st :
  keeps_tags st0 st → keeps_tags st0 (objects_link r ob st).
Proof.
  destruct r; simpl; [by apply keeps_tags_frame|]. by apply keeps_tags_alter.
Qed.

Lemma kt_objects_unlink r ob st :
  keeps_tags st0 st → keeps_tags st0 (objects_unlink r ob st).
Proof.
  destruct r; simpl; [by apply keeps_tags_frame|]. by apply keeps_tags_alter.
Qed.

Lemma kt_children_link r col st :
  keeps_tags st0 st → keeps_tags st0 (children_link r col st).
Proof.
  destruct r; simpl; [by apply keeps_tags_frame|]. by apply keeps_tags_alter.
Qed.

Lemma kt_children_unlink r col st :
  keeps_tags st0 st → keeps_tags st0 (children_unlink r col st).
Proof.
  destruct r; simpl; [by apply keeps_tags_frame|]. by apply keeps_tags_alter.
Qed.

Lemma kt_set_color_tag col tag st :
  keeps_tags st0 st → keeps_tags st0 (set_color_tag col tag st).
Proof. by apply keeps_tags_alter. Qed.

Lemma kt_collections_new name st :
  keeps_tags st0 st → keeps_tags st0 (collections_new name st).2.
Proof.
  simpl. apply keeps_tags_collections; [rewrite dom_insert_L; set_solver|].
  intros n c'.
  destruct (decide (bpy_unique_name name (collection_names st) = n)) as [->|Hne].
  - rewrite lookup_insert_eq. intros [= <-]. by left.
  - rewrite lookup_insert_ne by done. intros Hn. right. by exists c'.
Qed.

Lemma kt_create_smart_pivot name loc b st :
  keeps_tags st0 st → keeps_tags st0 (create_smart_pivot name loc b st).2.
Proof.
  intros H. eapply keeps_tags_trans; [done|].
  split; [done|]. split; [|intros n c Hn; right; by exists c].
  unfold create_smart_pivot. simpl. apply objects_kept_insert.
  apply eq_None_not_Some. rewrite <-object_names_spec.
  apply bpy_unique_name_fresh.
Qed.

Lemma create_smart_pivot_live name loc b st :
  is_Some (objects (create_smart_pivot name loc b st).2
             !! (create_smart_pivot name loc b st).1).
Proof. unfold create_smart_pivot. simpl. rewrite lookup_insert_eq. by eexists. Qed.

Lemma kt_preserve_parent_hierarchy objs p st :
  keeps_tags st0 st → keeps_tags st0 (preserve_parent_hierarchy objs p st).2.
Proof.
  intros H. unfold preserve_parent_hierarchy. simpl.
  assert (keeps_tags st0
            (foldl (λ s ob, select_set ob s)
               (select_set p (select_all_deselect st))
               (filter (λ ob, is_root_in st objs ob = true) objs))) as H'.
  { apply keeps_tags_foldl; [intros; by apply kt_select_set|].
    by apply kt_select_set, kt_select_all_deselect. }
  case_bool_decide; [done|]. by apply kt_parent_set, kt_set_active.
Qed.

Lemma kt_set_ez_pivot col p st :
  is_Some (objects st !! p) →
  keeps_tags st0 st → keeps_tags st0 (set_ez_pivot col p st).
Proof.
  intros Hp H. eapply keeps_tags_trans; [done|].
  split; [simpl; by rewrite dom_alter_L|]. split; [apply objects_kept_refl|].
  intros n c'. simpl.
  destruct (decide (col = n)) as [->|Hne].
  - rewrite lookup_alter_eq. destruct (collections st !! n) as [c|]; [|done].
    intros [= <-]. by left.
  - rewrite lookup_alter_ne by done. intros Hn. right. by exists c'.
Qed.
End steps.

Lemma keeps_tags_object_live st st' p :
  keeps_tags st st' → is_Some (objects st !! p) → is_Some (objects st' !! p).
Proof. intros (_ & Hd & _). by apply objects_kept_live. Qed.

Ltac kt_step :=
  lazymatch goal with
  | H : keeps_tags ?a ?s |- keeps_tags ?a ?s => exact H
  | |- keeps_tags ?a ?a => apply keeps_tags_refl
  | |- keeps_tags _ (select_all_deselect _) => apply kt_select_all_deselect
  | |- keeps_tags _ (select_set _ _) => apply kt_select_set
  | |- keeps_tags _ (set_active _ _) => apply kt_set_active
  | |- keeps_tags _ (parent_set _) => apply kt_parent_set
  | |- keeps_tags _ (parent_clear _) => apply kt_parent_clear
  | |- keeps_tags _ (set_hide_viewport _ _ _) => apply kt_set_hide_viewport
  | |- keeps_tags _ (hide_all_pivots _) => apply kt_hide_all_pivots
  | |- keeps_tags _ (objects_link _ _ _) => apply kt_objects_link
  | |- keeps_tags _ (objects_unlink _ _ _) => apply kt_objects_unlink
  | |- keeps_tags _ (children_link _ _ _) => apply kt_children_link
  | |- keeps_tags _ (children_unlink _ _ _) => apply kt_children_unlink
  | |- keeps_tags _ (set_color_tag _ _ _) => apply kt_set_color_tag
  | |- keeps_tags _ (collections_new _ _).2 => apply kt_collections_new
  | |- keeps_tags _ (create_smart_pivot _ _ _ _).2 => apply kt_create_smart_pivot
  | |- keeps_tags _ (preserve_parent_hierarchy _ _ _).2 =>
      apply kt_preserve_parent_hierarchy
  | |- keeps_tags _ (foldl _ _ _) => apply keeps_tags_foldl; [intros ? ? ?|]
  | |- keeps_tags _ _ => progress case_match
  end.

Ltac kt := repeat kt_step.

Ltac out_final := cbv beta iota zeta; unfold finish, cancel; cbn [final].

Lemma kt_select st0 st :
  keeps_tags st0 st → keeps_tags st0 (final (ez_select_collection st)).
Proof.
  intros H. unfold ez_select_collection.
  destruct (active_layer_collection st) as [alc|]; out_final; kt.
Qed.

Lemma kt_move_to_collection st0 col st ob :
  keeps_tags st0 st → keeps_tags st0 (move_to_collection col st ob).
Proof. intros H. unfold move_to_collection. kt. Qed.

Lemma kt_create st0 suffix st :
  keeps_tags st0 st → keeps_tags st0 (final (ez_create_collection suffix st)).
Proof.
  intros H. unfold ez_create_collection. cbv zeta.
  case_bool_decide; [done|]. case_bool_decide; [done|].
  set (name := generate_unique_name _ _).
  pose proof (kt_collections_new st0 name st H) as Hk1.
  destruct (collections_new name st) as [col s1]. simpl in Hk1.
  set (s2 := foldl _ _ _).
  assert (keeps_tags st0 s2) as Hk2.
  { unfold s2. apply keeps_tags_foldl; [|kt].
    intros; by apply kt_move_to_collection. }
  set (center := vdiv _ _).
  pose proof (kt_create_smart_pivot st0 name center false s2 Hk2) as Hk3.
  pose proof (create_smart_pivot_live name center false s2) as Hlive.
  destruct (create_smart_pivot name center false s2) as [pivot s3].
  simpl in Hk3, Hlive. out_final. kt.
  apply kt_set_ez_pivot; [|kt].
  eapply keeps_tags_object_live; [|done]. kt.
Qed.

Lemma kt_add_member st0 col st ob :
  keeps_tags st0 st → keeps_tags st0 (add_member col st ob).
Proof. intros H. unfold add_member. kt. Qed.

Lemma kt_add st0 st :
  keeps_tags st0 st → keeps_tags st0 (final (ez_add_to_collection st)).
Proof.
  intros H. unfold ez_add_to_collection.
  destruct (active_ez_collection st) as [[col c]|]; [|done].
  destruct (get_collection_pivot st c) as [pivot|]; [|done].
  case_bool_decide; [done|]. out_final. kt. by apply kt_add_member.
Qed.

Lemma kt_remove_member st0 col st ob :
  keeps_tags st0 st → keeps_tags st0 (remove_member col st ob).
Proof. intros H. unfold remove_member. kt. Qed.

Lemma kt_remove st0 st :
  keeps_tags st0 st → keeps_tags st0 (final (ez_remove_from_collection st)).
Proof.
  intros H. unfold ez_remove_from_collection.
  destruct (active_ez_collection st) as [[col c]|]; [|done].
  cbv zeta. case_bool_decide; [done|]. out_final. kt. by apply kt_remove_member.
Qed.

Lemma kt_unlock st0 st :
  keeps_tags st0 st → keeps_tags st0 (final (ez_pivot_unlock st)).
Proof.
  intros H. unfold ez_pivot_unlock.
  destruct (active_ez_collection st) as [[col c]|]; [|done].
  destruct (get_collection_pivot st c) as [pivot|]; [|done]. out_final. kt.
Qed.

Lemma kt_lock st0 st :
  keeps_tags st0 st → keeps_tags st0 (final (ez_pivot_lock st)).
Proof.
  intros H. unfold ez_pivot_lock.
  destruct (active_ez_collection st) as [[col c]|]; [|done].
  destruct (get_collection_pivot st c) as [pivot|]; [|done]. out_final. kt.
Qed.

Lemma kt_solo st0 st :
  keeps_tags st0 st → keeps_tags st0 (final (ez_toggle_solo_collection st)).
Proof.
  intros H. unfold ez_toggle_solo_collection.
  destruct (active_ez_collection st) as [[col c]|]; [|done].
  destruct (scene_solo_backup st) as [backup|]; [simpl|].
  - apply keeps_tags_frame with
      (st := with_collections
               (map_fold (λ name was_hidden cols,
                            alter (col_with_hide_viewport was_hidden) name cols)
                  (collections st) backup) st); [done..|].
    apply keeps_tags_collections; [|intros n c'|done].
    { intros n. rewrite !elem_of_dom, restore_lookup.
      destruct (backup !! n); [|done]. by rewrite fmap_is_Some. }
    rewrite restore_lookup. destruct (backup !! n).
    + destruct (collections st !! n) as [c1|]; [|done].
      intros [= <-]. right. by exists c1.
    + intros Hn. right. by exists c'.
  - cbv zeta. unfold finish. cbn [final].
    match goal with
    | |- keeps_tags _ (if _ then ?X else _) =>
        apply keeps_tags_frame with (st := X); [by case_bool_decide..|]
    end.
    apply keeps_tags_collections;
      [|intros n c'|by apply keeps_tags_frame with (st := st)].
    { intros n. simpl. rewrite !elem_of_dom, map_lookup_imap.
      by destruct (collections st !! n). }
    simpl. rewrite map_lookup_imap.
    destruct (collections st !! n) as [c1|]; [|done].
    intros [= <-]. right. by exists c1.
Qed.

Lemma kt_merge_child st0 parent_col parent_pivot st col :
  keeps_tags st0 st → keeps_tags st0 (merge_child parent_col parent_pivot st col).
Proof. intros H. unfold merge_child. kt. Qed.

Lemma kt_merge st0 name st :
  keeps_tags st0 st → keeps_tags st0 (final (ez_merge_collections name st)).
Proof.
  intros H. unfold ez_merge_collections. cbv zeta.
  case_bool_decide; [done|]. case_bool_decide; [done|].
  set (pname := generate_unique_name _ _).
  pose proof (kt_collections_new st0 pname st H) as Hk1.
  destruct (collections_new pname st) as [col s1]. simpl in Hk1.
  set (s2 := children_link _ _ _).
  assert (keeps_tags st0 s2) as Hk2 by (unfold s2; kt).
  case_bool_decide; [done|].
  set (center := vdiv _ _).
  pose proof (kt_create_smart_pivot st0 pname center true s2 Hk2) as Hk3.
  pose proof (create_smart_pivot_live pname center true s2) as Hlive.
  destruct (create_smart_pivot pname center true s2) as [pivot s3].
  simpl in Hk3, Hlive. out_final. kt.
  apply kt_set_ez_pivot.
  - eapply keeps_tags_object_live; [|done].
    apply keeps_tags_foldl; [|kt]. intros; by apply kt_merge_child.
  - apply keeps_tags_foldl; [|kt]. intros; by apply kt_merge_child.
Qed.

Lemma kt_unmerge_children st0 parent_col cols st :
  keeps_tags st0 st → keeps_tags st0 (unmerge_children parent_col cols st).1.
Proof.
  revert st. induction cols as [|col cols IH]; intros st H; [done|].
  cbn [unmerge_children]. cbv zeta.
  case_bool_decide; [cbn [fst]|apply IH]; kt.
Qed.

Lemma kt_unmerge st0 st :
  keeps_tags st0 st → keeps_tags st0 (final (ez_unmerge_collections st)).
Proof.
  intros H. unfold ez_unmerge_collections.
  destruct (active_ez_collection st) as [[col c]|]; [|done].
  cbv zeta. case_bool_decide; [done|].
  pose proof (kt_unmerge_children st0 col
                (filter (λ n, ref_is_ez st (Named n) = true) (col_children c))
                st H) as Hk1.
  destruct (unmerge_children _ _ _) as [s1 []]; done.
Qed.

Lemma kt_execute st0 op st :
  keeps_tags st0 st → keeps_tags st0 (final (execute op st)).
Proof.
  destruct op; simpl;
    auto using kt_select, kt_create, kt_add, kt_remove, kt_solo, kt_lock,
      kt_unlock, kt_merge, kt_unmerge.
Qed.

(** C8: every operator keeps the tags live.  If every collection that
    carries an [ez_pivot] tag names an object of [bpy.data.objects]
    before the operator runs, the same holds of the state it leaves,
    whatever it returns (FINISHED, CANCELLED or a raised host error). *)
Theorem tags_stay_live (op : Operation) (st : Blend) :
  tags_live st → tags_live (final (execute op st)).
Proof.
  intros H. eapply keeps_tags_live; [done|].
  apply kt_execute, keeps_tags_refl.
Qed.

Lemma kt_show_collection st0 acc col :
  keeps_tags st0 acc.1 → keeps_tags st0 (show_collection acc col).1.
Proof.
  destruct acc as [st shown]. unfold show_collection. intros H.
  case_bool_decide; [done|]. destruct (ref_pivot st col); [|done].
  cbn [fst] in *. kt.
Qed.

Lemma kt_show_selected st0 fuel names acc :
  keeps_tags st0 acc.1 → keeps_tags st0 (show_selected fuel names acc).
Proof.
  revert acc. induction names as [|n names IH]; intros acc H; [done|].
  cbn [show_selected]. destruct (objects acc.1 !! n); [|by apply IH].
  destruct (get_collection_hierarchy fuel acc.1 n) as [e|h]; [done|].
  apply IH. apply (foldl_invariant (λ a, keeps_tags st0 a.1)); [done|].
  intros a b Ha _. by apply kt_show_collection.
Qed.

Lemma selection_timer_tags_stay_live fuel st :
  tags_live st → tags_live (selection_timer fuel st).
Proof.
  intros H. eapply keeps_tags_live; [done|]. unfold selection_timer. cbv zeta.
  case_bool_decide; [|apply keeps_tags_refl].
  assert (keeps_tags st
            (hide_all_pivots (with_last_selected (list_to_set (selected_objects st)) st))).
  { apply kt_hide_all_pivots. by apply keeps_tags_frame with (st := st), keeps_tags_refl. }
  case_bool_decide; [done|]. by apply kt_show_selected.
Qed.

Lemma tags_stay_live_witness :
  tags_live (final (execute (OpCreate "Props") childless_scene)).
Proof.
  apply (tags_stay_live (OpCreate "Props") childless_scene).
  apply (bool_decide_unpack (tags_live childless_scene)). vm_compute. exact I.
Defined.

(* ===================================================================== *)
(** ** Create: the loop over the selection                              *)
(* ===================================================================== *)

Lemma objects_move_to_collection col st ob :
  objects (move_to_collection col st ob) = objects st.
Proof.
  unfold move_to_collection.
  transitivity (objects (foldl (λ s pc, objects_unlink pc ob s) st (users_collection st ob))).
  { by destruct (foldl _ _ _). }
  apply (foldl_invariant (λ s, objects s = objects st)); [done|].
  intros s [|n] Hs _; by rewrite <-Hs.
Qed.

(* ===================================================================== *)
(** ** The collection hierarchy of an object                              *)
(* ===================================================================== *)

(** The walk raises at its first membership test. *)
Lemma find_parent_collections_raises (fuel : nat) (cols : list (string * Collection))
    (child_col : string) :
  cols ≠ [] → find_parent_collections (S fuel) cols child_col = inl TypeError.
Proof. by destruct cols. Qed.

(** Whatever the bound on the recursion, the function returns the empty
    list or raises. *)
Lemma get_collection_hierarchy_result (fuel : nat) (st : Blend) (ob : string) :
  get_collection_hierarchy fuel st ob
  = if existsb (ref_is_ez st) (users_collection st ob)
    then inl (match fuel with 0 => RecursionError | S _ => TypeError end)
    else inr [].
Proof.
  unfold get_collection_hierarchy.
  induction (users_collection st ob) as [|r l IH]; [done|].
  cbn [exn_concat_map existsb]. destruct r as [|n].
  { cbn [ref_is_ez orb exn_bind]. rewrite IH. by destruct (existsb _ l). }
  destruct (ref_is_ez st (Named n)) eqn:Hez; cbn [orb exn_bind].
  - destruct fuel as [|fuel]; [done|].
    rewrite find_parent_collections_raises; [done|].
    apply ref_is_ez_exists in Hez as [c Hc]. intros Hnil.
    apply elem_of_map_to_list in Hc. rewrite Hnil in Hc.
    by apply elem_of_nil in Hc.
  - rewrite IH. by destruct (existsb _ l).
Qed.

(** C4, as stated, fails on every object that is a member of an
    EZCollection: for such an object [get_collection_hierarchy] does not
    return the ancestor EZCollections, it raises [TypeError], at the
    first test [child_col in parent_col.children] of the first call of
    [find_parent_collections], whatever the recursion limit. *)
Theorem hierarchy_raises_for_ez_member (fuel : nat) (st : Blend) (ob c : string) :
  direct_ez st ob c →
  get_collection_hierarchy (S fuel) st ob = inl TypeError.
Proof.
  intros (col & Hc & Hob & Hez). rewrite get_collection_hierarchy_result.
  assert (existsb (ref_is_ez st) (users_collection st ob) = true) as ->; [|done].
  apply existsb_exists. exists (Named c). split.
  - apply list_elem_of_In, users_collection_named. by exists col.
  - cbn. by rewrite Hc.
Qed.

Lemma hierarchy_raises_for_ez_member_witness :
  get_collection_hierarchy 1000 nested_scene "Cube" = inl TypeError.
Proof.
  apply (hierarchy_raises_for_ez_member 999 nested_scene "Cube" "COL_A").
  exists (mkCollection false false (Some "Pivot_COL_A") "COLOR_02"
            ["Cube"; "Pivot_COL_A"] []).
  split; [by vm_compute|]. split; [by left|done].
Defined.

(* ===================================================================== *)
(** ** The selection timer: changed selection                             *)
(* ===================================================================== *)

Lemma ref_pivot_exists st col p :
  ref_pivot st col = Some p → is_Some (objects st !! p).
Proof.
  unfold ref_pivot, get_collection_pivot.
  destruct (collections st !! col) as [c|]; [|done]. simpl.
  destruct (col_ez_pivot c) as [q|]; [|done]. simpl.
  destruct (objects st !! q) eqn:Hq; [|done]. simpl. intros [= <-]. by eexists.
Qed.

Lemma hidden_set_hide_viewport s p v o :
  hidden (set_hide_viewport p v s) o
  = if bool_decide (o = p) then (λ _, v) <$> hidden s o else hidden s o.
Proof.
  unfold hidden. simpl. case_bool_decide as Ho.
  - subst. rewrite lookup_alter_eq. by destruct (objects s !! p).
  - by rewrite lookup_alter_ne.
Qed.

(** The pivots hidden by [hide_all_pivots]. *)
Lemma hide_pivots_dom (l : list (string * Collection)) (objs : gmap string Object) :
  dom (foldl (λ objs kc, hide_pivot_of objs kc.2) objs l) = dom objs.
Proof.
  apply (foldl_invariant (λ o, dom o = dom objs)); [done|].
  intros o [k c] Ho _. unfold hide_pivot_of. simpl.
  destruct (col_ez_pivot c); [by rewrite dom_alter_L|done].
Qed.

Lemma hide_pivots_stay_hidden (l : list (string * Collection)) :
  ∀ (objs : gmap string Object) o,
    ob_hide_viewport <$> objs !! o = Some true →
    ob_hide_viewport <$> foldl (λ objs kc, hide_pivot_of objs kc.2) objs l !! o
    = Some true.
Proof.
  induction l as [|[k c] l IH]; intros objs o Ho; [done|]. simpl. apply IH.
  unfold hide_pivot_of. simpl. destruct (col_ez_pivot c) as [p|]; [|done].
  destruct (decide (p = o)) as [->|Hne].
  - rewrite lookup_alter_eq. by destruct (objs !! o).
  - by rewrite lookup_alter_ne.
Qed.

Lemma hide_pivots_hides (l : list (string * Collection)) :
  ∀ (objs : gmap string Object) k c o,
    (k, c) ∈ l → col_ez_pivot c = Some o → is_Some (objs !! o) →
    ob_hide_viewport <$> foldl (λ objs kc, hide_pivot_of objs kc.2) objs l !! o
    = Some true.
Proof.
  induction l as [|[k' c'] l IH]; intros objs k c o Hin Htag [ob Hob];
    [by apply elem_of_nil in Hin|].
  simpl. apply elem_of_cons in Hin as [[= <- <-]|Hin].
  - apply hide_pivots_stay_hidden. unfold hide_pivot_of. simpl. rewrite Htag.
    by rewrite lookup_alter_eq, Hob.
  - apply (IH _ k c); [done..|].
    apply elem_of_dom. pose proof (hide_pivots_dom [(k', c')] objs) as Hd.
    simpl in Hd. rewrite Hd. apply elem_of_dom. by eexists.
Qed.

Lemma hide_all_pivots_hides st o :
  is_ez_pivot st o → hidden (hide_all_pivots st) o = Some true.
Proof.
  intros (n & c & Hn & Htag & Hex). unfold hidden. simpl.
  apply (hide_pivots_hides _ _ n c); [|done..]. by apply elem_of_map_to_list.
Qed.

(** The loop over the selection shows no pivot: every hierarchy is empty
    or an exception. *)
Lemma show_selected_shows_nothing (fuel : nat) (names : list string)
    (acc : Blend * gset string) :
  show_selected fuel names acc = acc.1.
Proof.
  revert acc. induction names as [|n names IH]; intros acc; [done|].
  cbn [show_selected]. destruct (objects acc.1 !! n); [|apply IH].
  rewrite get_collection_hierarchy_result.
  destruct (existsb _ _); [done|]. cbn [foldl]. apply IH.
Qed.

Lemma selection_timer_unfold (fuel : nat) (st : Blend) :
  selection_timer fuel st
  = if bool_decide (list_to_set (selected_objects st) ≠ last_selected st)
    then hide_all_pivots
           (with_last_selected (list_to_set (selected_objects st)) st)
    else st.
Proof.
  unfold selection_timer. cbv zeta. case_bool_decide; [|done].
  case_bool_decide; [done|]. apply show_selected_shows_nothing.
Qed.

(** C6, as stated, fails whenever a selected object is a member of an
    EZCollection with a pivot: a run of the timer that finds the
    selection changed records the selection and leaves every EZ pivot
    hidden in the viewport, the pivots of the collections of the selected
    objects included, because the exception of
    [get_collection_hierarchy] ends the loop that would show them. *)
Theorem selection_timer_hides_every_pivot (fuel : nat) (st : Blend) :
  list_to_set (selected_objects st) ≠ last_selected st →
  let st' := selection_timer fuel st in
  last_selected st' = list_to_set (selected_objects st) ∧
  ∀ o, is_ez_pivot st o → hidden st' o = Some true.
Proof.
  intros Hchanged st'. unfold st'. rewrite selection_timer_unfold.
  rewrite bool_decide_eq_true_2 by done. split; [done|].
  intros o Ho.
  by apply (hide_all_pivots_hides
              (with_last_selected (list_to_set (selected_objects st)) st)).
Qed.

Lemma selection_timer_hides_every_pivot_witness :
  let st' := selection_timer 1000 nested_scene in
  last_selected st' = list_to_set (selected_objects nested_scene) ∧
  ∀ o, is_ez_pivot nested_scene o → hidden st' o = Some true.
Proof.
  apply (selection_timer_hides_every_pivot 1000 nested_scene).
  apply (bool_decide_unpack _). by vm_compute.
Defined.

(* ===================================================================== *)
(** ** The name [generate_unique_name] returns                         *)
(* ===================================================================== *)

Lemma generate_unique_name_loop_least fuel base ex :
  ∀ name c r,
    generate_unique_name_loop fuel base ex name c = Some r →
    ((name ∉ ex) ∧ r = name) ∨
    ((name ∈ ex) ∧ ∃ k, c ≤ k ∧ r = base +:+ "_" +:+ pretty k ∧ (r ∉ ex) ∧
                      ∀ j, c ≤ j < k → base +:+ "_" +:+ pretty j ∈ ex).
Proof.
  induction fuel as [|fuel IH]; intros name c r Hr; [done|]. simpl in Hr.
  case_bool_decide as Hin; [|left; split; [done|congruence]].
  right. split; [done|].
  destruct (IH _ _ _ Hr) as [[Hfree ->]|(Htaken & k & Hk & -> & Hfree & Hall)].
  - exists c. split; [done|]. split; [done|]. split; [done|]. intros j ?. lia.
  - exists k. split; [lia|]. split; [done|]. split; [done|].
    intros j Hj. destruct (decide (j = c)) as [->|?]; [done|]. apply Hall. lia.
Qed.

Lemma generate_unique_name_returned base ex :
  generate_unique_name_fuel (2 + length ex) base ex
  = Some (generate_unique_name base ex).
Proof.
  unfold generate_unique_name.
  destruct (generate_unique_name_terminates base ex) as [r Hr].
  by rewrite (Hr (2 + length ex)).
Qed.

(** X1: [generate_unique_name] returns, for every base name and every list
    of existing names, a name that is not in the list and that starts with
    the base name. *)
Theorem generate_unique_name_fresh_prefixed (base : string) (ex : list string) :
  (generate_unique_name base ex ∉ ex) ∧
  startswith base (generate_unique_name base ex) = true.
Proof.
  pose proof (generate_unique_name_returned base ex) as Hr.
  apply generate_unique_name_loop_least in Hr
    as [[Hfree ->]|(_ & k & _ & -> & Hfree & _)].
  - split; [done|apply startswith_refl].
  - split; [done|apply startswith_app].
Qed.

(** X2: [generate_unique_name] returns the base name when it is free, and
    otherwise [base_k] for the least counter [k >= 1] whose name is free:
    every [base_j] with [1 <= j < k] is taken. *)
Theorem generate_unique_name_least_counter (base : string) (ex : list string) :
  ((base ∉ ex) ∧ generate_unique_name base ex = base) ∨
  ((base ∈ ex) ∧
   ∃ k, 1 ≤ k ∧ generate_unique_name base ex = base +:+ "_" +:+ pretty k ∧
        ∀ j, 1 ≤ j < k → base +:+ "_" +:+ pretty j ∈ ex).
Proof.
  pose proof (generate_unique_name_returned base ex) as Hr.
  apply generate_unique_name_loop_least in Hr
    as [[Hfree ->]|(Htaken & k & Hk & -> & _ & Hall)].
  - by left.
  - right. split; [done|]. by exists k.
Qed.

(* ===================================================================== *)
(** ** What [hide_all_pivots] and the timer change                     *)
(* ===================================================================== *)

Lemma hide_pivots_lookup (l : list (string * Collection)) :
  ∀ (objs : gmap string Object) o,
    foldl (λ objs kc, hide_pivot_of objs kc.2) objs l !! o
    = if bool_decide (o ∈ omap (λ kc : string * Collection, col_ez_pivot kc.2) l)
      then ob_with_hide_viewport true <$> objs !! o
      else objs !! o.
Proof.
  induction l as [|[k c] l IH]; intros objs o; [done|].
  cbn [foldl omap list_omap]. rewrite IH. unfold hide_pivot_of. cbn [snd].
  destruct (col_ez_pivot c) as [p|]; [|done].
  destruct (decide (p = o)) as [->|Hne].
  - rewrite lookup_alter_eq.
    rewrite (bool_decide_eq_true_2 (o ∈ o :: _)) by left.
    case_bool_decide; [|done]. by destruct (objs !! o).
  - rewrite lookup_alter_ne by done.
    case_bool_decide as H1; case_bool_decide as H2; try done.
    + exfalso. apply H2. by right.
    + exfalso. apply elem_of_cons in H2 as [?|?]; [congruence|done].
Qed.

(** X3: [hide_all_pivots] sets [hide_viewport] on exactly the existing
    objects that some collection's tag names, keeps every other object as
    it is, and changes no collection and no link of the scene. *)
Theorem hide_all_pivots_lookup (st : Blend) (o : string) :
  objects (hide_all_pivots st) !! o
  = (if bool_decide (o ∈ pivot_tags st)
     then ob_with_hide_viewport true <$> objects st !! o
     else objects st !! o) ∧
  collections (hide_all_pivots st) = collections st ∧
  scene_objects (hide_all_pivots st) = scene_objects st ∧
  scene_children (hide_all_pivots st) = scene_children st.
Proof.
  split; [apply hide_pivots_lookup|done].
Qed.

(** X4: Running [hide_all_pivots] twice leaves the state of one run. *)
Theorem hide_all_pivots_idempotent (st : Blend) :
  hide_all_pivots (hide_all_pivots st) = hide_all_pivots st.
Proof.
  unfold hide_all_pivots. cbn [collections objects with_objects].
  set (A := foldl _ (objects st) _).
  change (with_objects ?a (with_objects ?b st)) with (with_objects a st).
  assert (foldl (λ objs kc, hide_pivot_of objs kc.2) A
            (map_to_list (collections st)) = A) as ->; [|done].
  apply map_eq. intros o. unfold A. rewrite !hide_pivots_lookup.
  case_bool_decide; [|done]. by destruct (objects st !! o).
Qed.

(** X5: A tick of [selection_timer] changes no collection and no link
    of the scene, adds and removes no object, and changes no field of an
    object other than [hide_viewport]. *)
Theorem selection_timer_changes_visibility_only (fuel : nat) (st : Blend) :
  collections (selection_timer fuel st) = collections st ∧
  scene_objects (selection_timer fuel st) = scene_objects st ∧
  scene_children (selection_timer fuel st) = scene_children st ∧
  ∀ n, ob_with_hide_viewport true <$> objects (selection_timer fuel st) !! n
       = ob_with_hide_viewport true <$> objects st !! n.
Proof.
  rewrite selection_timer_unfold. case_bool_decide; [|done].
  split; [done|]. split; [done|]. split; [done|]. intros n.
  unfold hide_all_pivots. cbn [objects with_objects with_last_selected].
  rewrite hide_pivots_lookup. case_bool_decide; [|done].
  by destruct (objects st !! n).
Qed.

(** X6: When no selected object is one that a tag names, a second tick
    of [selection_timer] right after the first leaves the state of the
    first.  (A selected pivot is hidden by the first tick, and the host
    no longer lists a hidden object among the selected ones.) *)
Theorem selection_timer_idempotent (fuel : nat) (st : Blend) :
  Forall (λ o, o ∉ pivot_tags st) (selected_objects st) →
  selection_timer fuel (selection_timer fuel st) = selection_timer fuel st.
Proof.
  intros _. rewrite (selection_timer_unfold fuel st).
  case_bool_decide as Hchanged.
  - rewrite selection_timer_unfold.
    change (selected_objects (hide_all_pivots ?x)) with (selected_objects x).
    change (last_selected (hide_all_pivots ?x)) with (last_selected x).
    cbn [selected_objects last_selected with_last_selected].
    case_bool_decide as H2; [exfalso; exact (H2 eq_refl)|reflexivity].
  - rewrite selection_timer_unfold.
    case_bool_decide as H2; [exfalso; exact (H2 Hchanged)|reflexivity].
Qed.

Lemma selection_timer_idempotent_witness :
  selection_timer 1000 (selection_timer 1000 nested_scene)
  = selection_timer 1000 nested_scene.
Proof.
  apply (selection_timer_idempotent 1000 nested_scene).
  apply (bool_decide_unpack _). vm_compute. exact I.
Defined.

Lemma ez_member_exists (st : Blend) (ob : string) :
  existsb (ref_is_ez st) (users_collection st ob) = true ↔ ∃ c, direct_ez st ob c.
Proof.
  rewrite existsb_exists. split.
  - intros ([|n] & Hin & Hez); [done|]. exists n.
    apply list_elem_of_In, users_collection_named in Hin as (col & Hc & Hob).
    exists col. cbn in Hez. rewrite Hc in Hez. done.
  - intros (n & col & Hc & Hob & Hez). exists (Named n). split.
    + apply list_elem_of_In, users_collection_named. by exists col.
    + cbn. by rewrite Hc.
Qed.

(** X7: [get_collection_hierarchy] returns for exactly the objects that
    are a member of no EZCollection, and what it returns is the empty
    list; for every other object it raises [TypeError]. *)
Theorem hierarchy_returns_only_empty (fuel : nat) (st : Blend) (ob : string) :
  (get_collection_hierarchy (S fuel) st ob = inr [] ↔ ∀ c, ¬ direct_ez st ob c) ∧
  (get_collection_hierarchy (S fuel) st ob = inl TypeError ↔ ∃ c, direct_ez st ob c) ∧
  ∀ l, get_collection_hierarchy (S fuel) st ob = inr l → l = [].
Proof.
  rewrite get_collection_hierarchy_result.
  pose proof (ez_member_exists st ob) as Hex.
  destruct (existsb (ref_is_ez st) (users_collection st ob)).
  - split; [|split].
    + split; [done|]. intros Hno. destruct (proj1 Hex eq_refl) as [c Hc].
      by destruct (Hno c).
    + split; [|done]. intros _. by apply Hex.
    + done.
  - split; [|split].
    + split; [|done]. intros _ c Hc.
      assert (false = true) as H; [|done]. apply Hex. by exists c.
    + split; [done|]. intros H. by apply Hex in H.
    + by intros l [= <-].
Qed.

(* ===================================================================== *)
(** ** The Outliner click                                              *)
(* ===================================================================== *)

Lemma childless_scene_selectable (ob : string) :
  ob ∈ ["Cube"; "Pivot_COL_A"] → selectable childless_scene ob.
Proof.
  intros Hin.
  assert (layer_shown childless_scene "COL_A") as Hshown.
  { eapply layer_shown_top; [apply list_elem_of_here|reflexivity|reflexivity]. }
  assert (ob = "Cube" ∨ ob = "Pivot_COL_A") as [-> | ->].
  { apply elem_of_cons in Hin as [?|Hin]; [by left|].
    apply list_elem_of_singleton in Hin. by right. }
  - split; [reflexivity|]. right. eexists "COL_A", _.
    split; [exact Hshown|]. split; [reflexivity|]. apply list_elem_of_here.
  - split; [reflexivity|]. right. eexists "COL_A", _.
    split; [exact Hshown|]. split; [reflexivity|].
    apply list_elem_of_further, list_elem_of_here.
Qed.

Lemma locked_scene_selectable (ob : string) :
  ob ∈ ["Cube"; "Ball"; "Pivot_COL_A"] → selectable locked_scene ob.
Proof.
  intros Hin.
  assert (layer_shown locked_scene "COL_A") as Hshown.
  { eapply layer_shown_top; [apply list_elem_of_here|reflexivity|reflexivity]. }
  assert (ob = "Cube" ∨ ob = "Ball" ∨ ob = "Pivot_COL_A") as [-> | [-> | ->]].
  { apply elem_of_cons in Hin as [?|Hin]; [by left|].
    apply elem_of_cons in Hin as [?|Hin]; [right; by left|].
    apply list_elem_of_singleton in Hin. right. by right. }
  - split; [reflexivity|]. right. eexists "COL_A", _.
    split; [exact Hshown|]. split; [reflexivity|]. apply list_elem_of_here.
  - split; [reflexivity|]. right. eexists "COL_A", _.
    split; [exact Hshown|]. split; [reflexivity|].
    apply list_elem_of_further, list_elem_of_here.
  - split; [reflexivity|]. right. eexists "COL_A", _.
    split; [exact Hshown|]. split; [reflexivity|].
    do 2 apply list_elem_of_further. apply list_elem_of_here.
Qed.

Lemma select_loop_spec (st : Blend) (members : list string) :
  ∀ s, objects s = objects st →
    let s' := foldl (λ s ob, if not_empty_pivot s ob then select_set ob s else s)
                s members in
    with_selected (selected_objects s) s' = s ∧
    ∀ ob, ob ∈ selected_objects s' ↔
          ob ∈ selected_objects s ∨ (ob ∈ members ∧ not_empty_pivot st ob = true).
Proof.
  induction members as [|m members IH]; intros s Hobj; cbn [foldl].
  - split; [by destruct s|]. intros ob. split; [by left|].
    by intros [?|[?%elem_of_nil _]].
  - assert (not_empty_pivot s m = not_empty_pivot st m) as Hnep.
    { unfold not_empty_pivot. by rewrite Hobj. }
    rewrite Hnep. destruct (not_empty_pivot st m) eqn:Hm.
    + set (s1 := select_set m s).
      assert (objects s1 = objects st) as Hobj1.
      { unfold s1, select_set. by case_bool_decide. }
      destruct (IH s1 Hobj1) as [Hframe Hsel]. split.
      * change (with_selected (selected_objects s) ?t)
          with (with_selected (selected_objects s)
                  (with_selected (selected_objects s1) t)).
        rewrite Hframe. unfold s1, select_set.
        case_bool_decide; by destruct s.
      * intros ob. rewrite Hsel. unfold s1, select_set.
        case_bool_decide as Hin; cbn [selected_objects with_selected].
        -- split; [intros [?|[? ?]]; [by left|right; split; [by right|done]]|].
           intros [?|[[->|?]%elem_of_cons ?]]; [by left|by left|by right].
        -- rewrite elem_of_app, list_elem_of_singleton. split.
           ++ intros [[? | ->] | [? ?]]; [by left|right; split; [by left|done]|].
              right. split; [by right|done].
           ++ intros [?|[[->|?]%elem_of_cons ?]];
                [left; by left|left; by right|by right].
    + destruct (IH s Hobj) as [Hframe Hsel]. split; [done|].
      intros ob. rewrite Hsel. split.
      * intros [?|[? ?]]; [by left|]. right. split; [by right|done].
      * intros [?|[[->|?]%elem_of_cons ?]]; [by left|congruence|by right].
Qed.

(** X9: The Outliner click on an active collection whose members, those
    that are not an empty named [Pivot_...], are selectable finishes
    without a report, changes no object and no collection, selects
    exactly these members, and makes the first of them the active object
    (the active object is kept when there is none). *)
Theorem select_collection_selects_members (st : Blend) (alc : CollRef) :
  active_layer_collection st = Some alc →
  (∀ ob, ob ∈ ref_objects st alc → not_empty_pivot st ob = true →
         selectable st ob) →
  let out := ez_select_collection st in
  status out = FINISHED ∧ reports out = [] ∧
  objects (final out) = objects st ∧
  collections (final out) = collections st ∧
  (∀ ob, ob ∈ selected_objects (final out) ↔
         ob ∈ ref_objects st alc ∧ not_empty_pivot st ob = true) ∧
  active_object (final out)
  = match filter (λ ob, not_empty_pivot st ob = true) (ref_objects st alc) with
    | ob :: _ => Some ob
    | [] => active_object st
    end.
Proof.
  intros Halc _ out. unfold out, ez_select_collection. rewrite Halc. cbv zeta.
  cbn [status reports final].
  destruct (select_loop_spec st (ref_objects st alc) (select_all_deselect st) eq_refl)
    as [Hframe Hsel].
  change (ref_objects (select_all_deselect st) alc) with (ref_objects st alc) in *.
  set (s' := foldl _ _ _) in *.
  assert (objects s' = objects st) as Hobj.
  { change (objects s') with (objects (with_selected
      (selected_objects (select_all_deselect st)) s')). by rewrite Hframe. }
  assert (collections s' = collections st) as Hcol.
  { change (collections s') with (collections (with_selected
      (selected_objects (select_all_deselect st)) s')). by rewrite Hframe. }
  assert (active_object s' = active_object st) as Hact.
  { change (active_object s') with (active_object (with_selected
      (selected_objects (select_all_deselect st)) s')). by rewrite Hframe. }
  assert (filter (λ ob, not_empty_pivot s' ob = true) (ref_objects st alc)
          = filter (λ ob, not_empty_pivot st ob = true) (ref_objects st alc)) as Hf.
  { apply list_filter_iff. intros ob. unfold not_empty_pivot. by rewrite Hobj. }
  rewrite Hf.
  assert (∀ ob, ob ∈ selected_objects s' ↔
                ob ∈ ref_objects st alc ∧ not_empty_pivot st ob = true) as Hsel'.
  { intros ob. rewrite Hsel. cbn. split; [|by right].
    by intros [?%elem_of_nil|?]. }
  split; [done|]. split; [done|].
  case_bool_decide as Hmem.
  - split; [exact Hobj|]. split; [exact Hcol|]. split; [exact Hsel'|].
    rewrite Hmem. exact Hact.
  - clear Hf.
    destruct (filter (λ ob, not_empty_pivot st ob = true) (ref_objects st alc))
      as [|ob l];
      (split; [exact Hobj|]; split; [exact Hcol|]; split; [exact Hsel'|]);
      [exact Hact|reflexivity].
Qed.

Lemma select_collection_selects_members_witness :
  let out := ez_select_collection childless_scene in
  status out = FINISHED ∧ reports out = [] ∧
  objects (final out) = objects childless_scene ∧
  collections (final out) = collections childless_scene ∧
  (∀ ob, ob ∈ selected_objects (final out) ↔
         ob ∈ ref_objects childless_scene (Named "COL_A") ∧
         not_empty_pivot childless_scene ob = true) ∧
  active_object (final out)
  = match filter (λ ob, not_empty_pivot childless_scene ob = true)
            (ref_objects childless_scene (Named "COL_A")) with
    | ob :: _ => Some ob
    | [] => active_object childless_scene
    end.
Proof.
  apply (select_collection_selects_members childless_scene (Named "COL_A")).
  - reflexivity.
  - intros ob Hin _. apply childless_scene_selectable. exact Hin.
Defined.

(* ===================================================================== *)
(** ** Cancelled operators and Solo, on scenes                         *)
(* ===================================================================== *)

Lemma cancelled_before_first_write_witness :
  final (execute OpUnmerge childless_scene) = childless_scene.
Proof.
  apply (cancelled_before_first_write OpUnmerge childless_scene).
  - reflexivity.
  - vm_compute. discriminate.
Defined.

Lemma solo_twice_restores_viewport_witness :
  let st1 := final (ez_toggle_solo_collection solo_scene) in
  let out := ez_toggle_solo_collection st1 in
  status out = FINISHED ∧
  scene_solo_backup (final out) = None ∧
  ∀ n c0, collections solo_scene !! n = Some c0 →
    ∃ c2, collections (final out) !! n = Some c2 ∧
          col_hide_viewport c2 = col_hide_viewport c0.
Proof.
  apply (solo_twice_restores_viewport solo_scene "COL_A"
           (mkCollection false false (Some "Pivot_COL_A") "COLOR_02"
              ["Cube"; "Pivot_COL_A"] [])); try reflexivity.
  apply (bool_decide_unpack _). vm_compute. exact I.
Defined.

(** X12: Solo with a backup present removes the backup and writes
    [hide_viewport] of exactly the collections the backup names that still
    exist; a name of the backup without a collection is skipped, a
    collection made since solo-on keeps its flags, and no object changes.
    *)
Theorem solo_off_writes_backup_only (st : Blend) (col : string) (c : Collection)
    (backup : gmap string bool) :
  active_ez_collection st = Some (col, c) →
  scene_solo_backup st = Some backup →
  let out := ez_toggle_solo_collection st in
  status out = FINISHED ∧
  scene_solo_backup (final out) = None ∧
  objects (final out) = objects st ∧
  dom (collections (final out)) = dom (collections st) ∧
  ∀ n, collections (final out) !! n
       = match backup !! n with
         | Some was_hidden => col_with_hide_viewport was_hidden <$> collections st !! n
         | None => collections st !! n
         end.
Proof.
  intros Hact Hb out. unfold out, ez_toggle_solo_collection. rewrite Hact, Hb.
  cbn. repeat split; try done.
  - apply set_eq. intros n. rewrite !elem_of_dom, restore_lookup.
    destruct (backup !! n); [|done]. by rewrite fmap_is_Some.
  - intros n. apply restore_lookup.
Qed.

Lemma solo_off_writes_backup_only_witness :
  let out := ez_toggle_solo_collection stale_backup_scene in
  status out = FINISHED ∧
  scene_solo_backup (final out) = None ∧
  objects (final out) = objects stale_backup_scene ∧
  dom (collections (final out)) = dom (collections stale_backup_scene) ∧
  ∀ n, collections (final out) !! n
       = match (<["COL_A" := true]> (<["Gone" := false]> ∅) : gmap string bool) !! n with
         | Some was_hidden =>
             col_with_hide_viewport was_hidden <$> collections stale_backup_scene !! n
         | None => collections stale_backup_scene !! n
         end.
Proof.
  apply (solo_off_writes_backup_only stale_backup_scene "COL_A"
           (mkCollection false false (Some "Pivot_COL_A") "COLOR_02"
              ["Pivot_COL_A"] [])); reflexivity.
Defined.

(* ===================================================================== *)
(** ** Parents: [preserve_parent_hierarchy], Unlock and Lock           *)
(* ===================================================================== *)

Lemma foldl_alter_lookup (f : Object → Object) (keep : string → bool)
    (l : list string) :
  (∀ o, f (f o) = f o) →
  ∀ (objs : gmap string Object) ob,
    foldl (λ objs x, if keep x then objs else alter f x objs) objs l !! ob
    = if bool_decide (ob ∈ l ∧ keep ob = false)
      then f <$> objs !! ob else objs !! ob.
Proof.
  intros Hf. induction l as [|x l IH]; intros objs ob.
  - cbn [foldl]. rewrite bool_decide_eq_false_2; [done|]. by intros [?%elem_of_nil _].
  - cbn [foldl]. rewrite IH. destruct (keep x) eqn:Hx.
    + case_bool_decide as H1; case_bool_decide as H2; try done.
      * exfalso. apply H2. destruct H1. split; [by right|done].
      * exfalso. apply H1. destruct H2 as [[->|?]%elem_of_cons ?]; [congruence|done].
    + destruct (decide (x = ob)) as [->|Hne].
      * rewrite lookup_alter_eq.
        rewrite (bool_decide_eq_true_2 (ob ∈ ob :: l ∧ _)) by (split; [left|done]).
        case_bool_decide; [|done]. destruct (objs !! ob); [|done]. cbn. by rewrite Hf.
      * rewrite lookup_alter_ne by done.
        case_bool_decide as H1; case_bool_decide as H2; try done.
        -- exfalso. apply H2. destruct H1. split; [by right|done].
        -- exfalso. apply H1. destruct H2 as [[->|?]%elem_of_cons ?]; [done|done].
Qed.

Lemma parent_set_lookup (st : Blend) (a ob : string) :
  active_object st = Some a →
  objects (parent_set st) !! ob
  = if bool_decide (ob ∈ selected_objects st ∧ ob ≠ a)
    then ob_reparent (Some a) <$> objects st !! ob else objects st !! ob.
Proof.
  intros Ha. unfold parent_set. rewrite Ha. cbn [objects with_objects].
  rewrite (foldl_alter_lookup (ob_reparent (Some a)) (λ x, bool_decide (x = a)))
    by done.
  apply (f_equal (λ b : bool, if b then _ else _)).
  apply bool_decide_ext. rewrite bool_decide_eq_false. done.
Qed.

Lemma ob_clear_parent_parent (o : Object) : ob_parent (ob_clear_parent o) = None.
Proof. unfold ob_clear_parent. by destruct (ob_parent o) eqn:H. Qed.

Lemma ob_clear_parent_idemp (o : Object) :
  ob_clear_parent (ob_clear_parent o) = ob_clear_parent o.
Proof. unfold ob_clear_parent. by destruct (ob_parent o) eqn:H; cbn; rewrite ?H. Qed.

Lemma parent_clear_lookup (st : Blend) (ob : string) :
  objects (parent_clear st) !! ob
  = if bool_decide (ob ∈ selected_objects st)
    then ob_clear_parent <$> objects st !! ob else objects st !! ob.
Proof.
  unfold parent_clear. cbn [objects with_objects].
  change (foldl (λ (objs : gmap string Object) ob0,
                   alter ob_clear_parent ob0 objs))
    with (foldl (λ (objs : gmap string Object) ob0,
                   if (λ _ : string, false) ob0 then objs
                   else alter ob_clear_parent ob0 objs)).
  rewrite (foldl_alter_lookup ob_clear_parent (λ _, false))
    by apply ob_clear_parent_idemp.
  apply (f_equal (λ b : bool, if b then _ else _)).
  apply bool_decide_ext. split; [by intros [? _]|by intros ?].
Qed.

Lemma select_only (ob : string) (st : Blend) :
  select_set ob (select_all_deselect st) = with_selected [ob] st.
Proof.
  unfold select_set. rewrite bool_decide_eq_false_2; [done|]. apply not_elem_of_nil.
Qed.

Lemma select_each_spec (l : list string) :
  ∀ s, let s' := foldl (λ s ob, select_set ob s) s l in
       with_selected (selected_objects s) s' = s ∧
       ∀ x, x ∈ selected_objects s' ↔ x ∈ selected_objects s ∨ x ∈ l.
Proof.
  induction l as [|m l IH]; intros s; cbn [foldl].
  - split; [by destruct s|]. intros x. split; [by left|]. by intros [?|?%elem_of_nil].
  - destruct (IH (select_set m s)) as [Hframe Hsel]. split.
    + change (with_selected (selected_objects s) ?t)
        with (with_selected (selected_objects s)
                (with_selected (selected_objects (select_set m s)) t)).
      rewrite Hframe. unfold select_set. case_bool_decide; by destruct s.
    + intros x. rewrite Hsel. unfold select_set.
      case_bool_decide as Hin; cbn [selected_objects with_selected].
      * split; [intros [?|?]; [by left|right; by right]|].
        intros [?|[->|?]%elem_of_cons]; [by left|by left|by right].
      * rewrite elem_of_app, list_elem_of_singleton. split.
        -- intros [[? | ->] | ?]; [by left|right; by left|right; by right].
        -- intros [?|[->|?]%elem_of_cons]; [left; by left|left; by right|by right].
Qed.

Lemma pph_spec (objs : list string) (new_parent : string) (st : Blend)
    (ob : string) :
  let roots := (preserve_parent_hierarchy objs new_parent st).1 in
  let st' := (preserve_parent_hierarchy objs new_parent st).2 in
  roots = filter (λ ob, is_root_in st objs ob = true) objs ∧
  collections st' = collections st ∧
  (∀ x, x ∈ selected_objects st' ↔ x = new_parent ∨ x ∈ roots) ∧
  objects st' !! ob
  = if bool_decide (ob ∈ roots ∧ ob ≠ new_parent)
    then ob_reparent (Some new_parent) <$> objects st !! ob
    else objects st !! ob.
Proof.
  unfold preserve_parent_hierarchy. cbv zeta. cbn [fst snd].
  set (roots := filter _ objs).
  rewrite select_only.
  destruct (select_each_spec roots (with_selected [new_parent] st))
    as [Hframe Hsel].
  set (s := foldl _ _ roots) in *.
  assert (∀ x, x ∈ selected_objects s ↔ x = new_parent ∨ x ∈ roots) as Hsel'.
  { intros x. rewrite Hsel. cbn [selected_objects with_selected].
    by rewrite list_elem_of_singleton. }
  assert (objects s = objects st) as Hobj.
  { change (objects s) with (objects (with_selected (selected_objects
      (with_selected [new_parent] st)) s)). by rewrite Hframe. }
  assert (collections s = collections st) as Hcol.
  { change (collections s) with (collections (with_selected (selected_objects
      (with_selected [new_parent] st)) s)). by rewrite Hframe. }
  split; [done|]. case_bool_decide as Hroots.
  - split; [exact Hcol|]. split; [exact Hsel'|].
    rewrite Hobj, bool_decide_eq_false_2; [done|].
    rewrite Hroots. by intros [?%elem_of_nil _].
  - split; [|split].
    + unfold parent_set. cbn [active_object set_active with_active]. exact Hcol.
    + unfold parent_set. cbn [active_object set_active with_active]. exact Hsel'.
    + rewrite (parent_set_lookup _ new_parent) by done.
      cbn [objects selected_objects set_active with_active]. rewrite Hobj.
      apply (f_equal (λ b : bool, if b then _ else _)).
      apply bool_decide_ext. rewrite Hsel'. split.
      * intros [[?|?] ?]; [done|by split].
      * intros [? ?]. split; [by right|done].
Qed.

Lemma ob_parent_of_reparent (st st' : Blend) (ob : string) (b : bool)
    (p : option string) :
  objects st' !! ob
  = (if b then ob_reparent p <$> objects st !! ob else objects st !! ob) →
  is_Some (objects st !! ob) →
  ob_parent_of st' ob = if b then p else ob_parent_of st ob.
Proof. intros Heq [o Ho]. unfold ob_parent_of. rewrite Heq, Ho. by destruct b. Qed.

Lemma ob_parent_of_clear (st st' : Blend) (ob : string) (b : bool) :
  objects st' !! ob
  = (if b then ob_clear_parent <$> objects st !! ob else objects st !! ob) →
  ob_parent_of st' ob = if b then None else ob_parent_of st ob.
Proof.
  intros Heq. unfold ob_parent_of. rewrite Heq. destruct b; [|done].
  destruct (objects st !! ob); [apply ob_clear_parent_parent|done].
Qed.

(** X13: When the new parent is selectable and has no parent itself, and
    the objects of the list are selectable, [preserve_parent_hierarchy]
    returns the objects of the list whose parent is none or outside the
    list, gives exactly these (the new parent itself excepted) the new
    parent, keeps every other parent link and every collection, and
    leaves the new parent and these objects selected. *)
Theorem preserve_parent_hierarchy_parents (objs : list string) (new_parent : string)
    (st : Blend) :
  selectable st new_parent →
  ob_parent_of st new_parent = None →
  Forall (selectable st) objs →
  let roots := filter (λ ob, is_root_in st objs ob = true) objs in
  let st' := (preserve_parent_hierarchy objs new_parent st).2 in
  (preserve_parent_hierarchy objs new_parent st).1 = roots ∧
  collections st' = collections st ∧
  (∀ x, x ∈ selected_objects st' ↔ x = new_parent ∨ x ∈ roots) ∧
  ∀ ob, is_Some (objects st !! ob) →
        ob_parent_of st' ob
        = if bool_decide (ob ∈ roots ∧ ob ≠ new_parent)
          then Some new_parent else ob_parent_of st ob.
Proof.
  intros _ _ _ roots st'. subst roots st'.
  pose proof (pph_spec objs new_parent st) as Hspec. cbv zeta in Hspec.
  destruct (Hspec new_parent) as (Hroots & Hcol & Hsel & _).
  split; [exact Hroots|]. split; [exact Hcol|].
  split; [intros x; rewrite <-Hroots; apply Hsel|].
  intros ob Hob. apply ob_parent_of_reparent; [|done].
  destruct (Hspec ob) as (_ & _ & _ & Hlook).
  rewrite Hroots in Hlook. exact Hlook.
Qed.

Lemma preserve_parent_hierarchy_parents_witness :
  let st := childless_scene in
  let objs := ["Cube"] in
  let roots := filter (λ ob, is_root_in st objs ob = true) objs in
  let st' := (preserve_parent_hierarchy objs "Pivot_COL_A" st).2 in
  (preserve_parent_hierarchy objs "Pivot_COL_A" st).1 = roots ∧
  collections st' = collections st ∧
  (∀ x, x ∈ selected_objects st' ↔ x = "Pivot_COL_A" ∨ x ∈ roots) ∧
  ∀ ob, is_Some (objects st !! ob) →
        ob_parent_of st' ob
        = if bool_decide (ob ∈ roots ∧ ob ≠ "Pivot_COL_A")
          then Some "Pivot_COL_A" else ob_parent_of st ob.
Proof.
  apply (preserve_parent_hierarchy_parents ["Cube"] "Pivot_COL_A" childless_scene).
  - apply childless_scene_selectable. apply list_elem_of_further, list_elem_of_here.
  - reflexivity.
  - apply Forall_cons. split; [|apply Forall_nil_2].
    apply childless_scene_selectable. apply list_elem_of_here.
Defined.

Lemma ob_parent_of_lookup st st' ob :
  objects st' !! ob = objects st !! ob → ob_parent_of st' ob = ob_parent_of st ob.
Proof. unfold ob_parent_of. by intros ->. Qed.

Lemma unlock_spec (st : Blend) (col : string) (c : Collection) (pivot : string) :
  active_ez_collection st = Some (col, c) →
  get_collection_pivot st c = Some pivot →
  let out := ez_pivot_unlock st in
  status out = FINISHED ∧
  collections (final out) = collections st ∧
  active_layer_collection (final out) = active_layer_collection st ∧
  selected_objects (final out) = [pivot] ∧
  active_object (final out) = Some pivot ∧
  ∀ ob, objects (final out) !! ob
        = if bool_decide (ob ∈ col_objects c ∧ ob_parent_of st ob = Some pivot)
          then ob_clear_parent <$> objects st !! ob
          else objects st !! ob.
Proof.
  intros Hact Hp out. unfold out, ez_pivot_unlock. rewrite Hact, Hp. cbv zeta.
  unfold finish. cbn [status final].
  remember (filter (λ ob, ob_parent_of st ob = Some pivot) (col_objects c))
    as children eqn:Hch.
  destruct (select_each_spec children (select_all_deselect st)) as [Hframe Hsel].
  set (s := foldl _ _ children) in *.
  assert (∀ x, x ∈ selected_objects s ↔
               x ∈ col_objects c ∧ ob_parent_of st x = Some pivot) as Hsel'.
  { intros x. rewrite Hsel, Hch, list_elem_of_filter. cbn.
    split; [intros [?%elem_of_nil|[? ?]]; done|intros [? ?]; by right]. }
  assert (objects s = objects st) as Hobj.
  { change (objects s) with (objects (with_selected (selected_objects
      (select_all_deselect st)) s)). by rewrite Hframe. }
  assert (collections s = collections st) as Hcol.
  { change (collections s) with (collections (with_selected (selected_objects
      (select_all_deselect st)) s)). by rewrite Hframe. }
  assert (active_layer_collection s = active_layer_collection st) as Halc.
  { change (active_layer_collection s) with (active_layer_collection (with_selected
      (selected_objects (select_all_deselect st)) s)). by rewrite Hframe. }
  clearbody s. clear Hframe Hsel.
  split; [done|].
  destruct children as [|ch rest].
  - rewrite select_only. cbn [collections selected_objects active_object objects
      active_layer_collection set_active with_active with_selected].
    split; [exact Hcol|]. split; [exact Halc|]. split; [done|]. split; [done|].
    intros ob. rewrite Hobj, bool_decide_eq_false_2; [done|].
    intros [Hin Hpar].
    assert (ob ∈ filter (λ ob, ob_parent_of st ob = Some pivot) (col_objects c)) as H
      by (by apply list_elem_of_filter).
    rewrite <-Hch in H. by apply elem_of_nil in H.
  - rewrite select_only. cbn [collections selected_objects active_object objects
      active_layer_collection set_active with_active with_selected parent_clear
      with_objects].
    split; [exact Hcol|]. split; [exact Halc|]. split; [done|]. split; [done|].
    intros ob.
    pose proof (parent_clear_lookup (set_active ch s) ob) as Hpc.
    cbn [objects selected_objects set_active with_active parent_clear with_objects] in Hpc.
    rewrite Hpc, Hobj.
    apply (f_equal (λ b : bool, if b then _ else _)).
    apply bool_decide_ext. apply Hsel'.
Qed.

(** X14: Unlock on an EZCollection whose pivot and members are
    selectable finishes, clears the parent of exactly the members whose
    parent is the pivot, keeps every other parent link and every
    collection, and ends with the pivot as the only selected object and
    the active one. *)
Theorem unlock_clears_pivot_children (st : Blend) (col : string) (c : Collection)
    (pivot : string) :
  active_ez_collection st = Some (col, c) →
  get_collection_pivot st c = Some pivot →
  selectable st pivot →
  Forall (selectable st) (col_objects c) →
  let out := ez_pivot_unlock st in
  status out = FINISHED ∧
  collections (final out) = collections st ∧
  active_layer_collection (final out) = active_layer_collection st ∧
  selected_objects (final out) = [pivot] ∧
  active_object (final out) = Some pivot ∧
  ∀ ob, ob_parent_of (final out) ob
        = if bool_decide (ob ∈ col_objects c ∧ ob_parent_of st ob = Some pivot)
          then None else ob_parent_of st ob.
Proof.
  intros Hact Hp _ _ out.
  destruct (unlock_spec st col c pivot Hact Hp) as (H1 & H2 & H3 & H4 & H5 & Hobj).
  repeat (split; [done|]). intros ob. apply ob_parent_of_clear, Hobj.
Qed.

Lemma unlock_clears_pivot_children_witness :
  let st := locked_scene in
  let c := mkCollection false false (Some "Pivot_COL_A") "COLOR_02"
             ["Cube"; "Ball"; "Pivot_COL_A"] [] in
  let pivot := "Pivot_COL_A" in
  let out := ez_pivot_unlock st in
  status out = FINISHED ∧
  collections (final out) = collections st ∧
  active_layer_collection (final out) = active_layer_collection st ∧
  selected_objects (final out) = [pivot] ∧
  active_object (final out) = Some pivot ∧
  ∀ ob, ob_parent_of (final out) ob
        = if bool_decide (ob ∈ col_objects c ∧ ob_parent_of st ob = Some pivot)
          then None else ob_parent_of st ob.
Proof.
  apply (unlock_clears_pivot_children locked_scene "COL_A").
  - vm_compute. reflexivity.
  - vm_compute. reflexivity.
  - apply locked_scene_selectable. do 2 apply list_elem_of_further.
    apply list_elem_of_here.
  - apply Forall_forall. intros ob Hin. by apply locked_scene_selectable.
Defined.

Lemma lock_spec (st : Blend) (col : string) (c : Collection) (pivot : string) :
  active_ez_collection st = Some (col, c) →
  get_collection_pivot st c = Some pivot →
  let members := filter (λ ob, ob ≠ pivot) (col_objects c) in
  let out := ez_pivot_lock st in
  status out = FINISHED ∧
  collections (final out) = collections st ∧
  ∀ ob, objects (final out) !! ob
        = if bool_decide (ob ∈ members ∧ is_root_in st members ob = true)
          then ob_reparent (Some pivot) <$> objects st !! ob
          else objects st !! ob.
Proof.
  intros Hact Hp members out. unfold out, ez_pivot_lock. rewrite Hact, Hp.
  cbv zeta. unfold finish. cbn [status final]. fold members.
  destruct (pph_spec members pivot st pivot) as (Hroots & Hcol & _ & _).
  split; [done|]. split; [exact Hcol|]. intros ob.
  destruct (pph_spec members pivot st ob) as (_ & _ & _ & ->).
  apply (f_equal (λ b : bool, if b then _ else _)).
  apply bool_decide_ext. rewrite Hroots, list_elem_of_filter.
  split.
  - intros [[? ?] _]. by split.
  - intros [Hm ?]. split; [by split|].
    unfold members in Hm. by apply list_elem_of_filter in Hm as [? _].
Qed.

(** X15: Lock on an EZCollection whose pivot is selectable and has no
    parent, and whose members are selectable, finishes, gives the pivot
    as parent to exactly the members, other than the pivot, whose parent
    is none or not such a member, keeps every other parent link, and
    changes no collection. *)
Theorem lock_parents_collection_roots (st : Blend) (col : string) (c : Collection)
    (pivot : string) :
  active_ez_collection st = Some (col, c) →
  get_collection_pivot st c = Some pivot →
  selectable st pivot →
  ob_parent_of st pivot = None →
  Forall (selectable st) (col_objects c) →
  let members := filter (λ ob, ob ≠ pivot) (col_objects c) in
  let out := ez_pivot_lock st in
  status out = FINISHED ∧
  collections (final out) = collections st ∧
  ∀ ob, is_Some (objects st !! ob) →
        ob_parent_of (final out) ob
        = if bool_decide (ob ∈ members ∧ is_root_in st members ob = true)
          then Some pivot else ob_parent_of st ob.
Proof.
  intros Hact Hp _ _ _ members out.
  destruct (lock_spec st col c pivot Hact Hp) as (H1 & H2 & Hobj).
  split; [done|]. split; [done|]. intros ob Hob.
  apply ob_parent_of_reparent; [apply Hobj|done].
Qed.

Lemma lock_parents_collection_roots_witness :
  let st := childless_scene in
  let c := mkCollection false false (Some "Pivot_COL_A") "COLOR_02"
             ["Cube"; "Pivot_COL_A"] [] in
  let pivot := "Pivot_COL_A" in
  let members := filter (λ ob, ob ≠ pivot) (col_objects c) in
  let out := ez_pivot_lock st in
  status out = FINISHED ∧
  collections (final out) = collections st ∧
  ∀ ob, is_Some (objects st !! ob) →
        ob_parent_of (final out) ob
        = if bool_decide (ob ∈ members ∧ is_root_in st members ob = true)
          then Some pivot else ob_parent_of st ob.
Proof.
  apply (lock_parents_collection_roots childless_scene "COL_A").
  - vm_compute. reflexivity.
  - vm_compute. reflexivity.
  - apply childless_scene_selectable. apply list_elem_of_further, list_elem_of_here.
  - reflexivity.
  - apply Forall_forall. intros ob Hin. by apply childless_scene_selectable.
Defined.

(** X16: On an EZCollection whose pivot is selectable and has no parent,
    and whose members are selectable, Unlock followed by Lock gives a
    member that was a child of the pivot the pivot as its parent again;
    in between it has no parent. *)
Theorem unlock_then_lock_reparents (st : Blend) (col : string) (c : Collection)
    (pivot ob : string) :
  active_ez_collection st = Some (col, c) →
  get_collection_pivot st c = Some pivot →
  selectable st pivot →
  ob_parent_of st pivot = None →
  Forall (selectable st) (col_objects c) →
  ob ∈ col_objects c →
  ob ≠ pivot →
  ob_parent_of st ob = Some pivot →
  let st1 := final (ez_pivot_unlock st) in
  let out := ez_pivot_lock st1 in
  ob_parent_of st1 ob = None ∧
  status out = FINISHED ∧
  ob_parent_of (final out) ob = Some pivot.
Proof.
  intros Hact Hp _ _ _ Hin Hne Hpar st1 out.
  destruct (unlock_spec st col c pivot Hact Hp) as (_ & Hcol & Halc & _ & _ & Hobj).
  fold st1 in Hcol, Halc, Hobj.
  assert (∃ o, objects st !! ob = Some o ∧ ob_parent o = Some pivot) as (o & Ho & Hop).
  { unfold ob_parent_of in Hpar. destruct (objects st !! ob) as [o|]; [|done].
    by exists o. }
  assert (objects st1 !! ob = Some (ob_clear_parent o)) as Ho1.
  { rewrite Hobj, bool_decide_eq_true_2 by done. by rewrite Ho. }
  assert (ob_parent_of st1 ob = None) as Hpar1.
  { unfold ob_parent_of. rewrite Ho1. apply ob_clear_parent_parent. }
  assert (active_ez_collection st1 = Some (col, c)) as Hact1.
  { revert Hact. unfold active_ez_collection. by rewrite Halc, Hcol. }
  assert (get_collection_pivot st1 c = Some pivot) as Hp1.
  { revert Hp. unfold get_collection_pivot.
    destruct (col_ez_pivot c) as [p|]; [|done]. cbn. rewrite Hobj.
    case_bool_decide; [|done]. by destruct (objects st !! p). }
  destruct (lock_spec st1 col c pivot Hact1 Hp1) as (Hfin & _ & Hobj2).
  split; [done|]. split; [done|].
  unfold ob_parent_of. fold out in Hobj2. rewrite Hobj2.
  rewrite bool_decide_eq_true_2, Ho1; [done|].
  split; [by apply list_elem_of_filter|]. unfold is_root_in. by rewrite Hpar1.
Qed.

Lemma unlock_then_lock_reparents_witness :
  let st1 := final (ez_pivot_unlock locked_scene) in
  let out := ez_pivot_lock st1 in
  ob_parent_of st1 "Cube" = None ∧
  status out = FINISHED ∧
  ob_parent_of (final out) "Cube" = Some "Pivot_COL_A".
Proof.
  apply (unlock_then_lock_reparents locked_scene "COL_A"
           (mkCollection false false (Some "Pivot_COL_A") "COLOR_02"
              ["Cube"; "Ball"; "Pivot_COL_A"] [])).
  - vm_compute. reflexivity.
  - vm_compute. reflexivity.
  - apply locked_scene_selectable. do 2 apply list_elem_of_further.
    apply list_elem_of_here.
  - reflexivity.
  - apply Forall_forall. intros ob Hin. by apply locked_scene_selectable.
  - apply list_elem_of_here.
  - discriminate.
  - vm_compute. reflexivity.
Defined.

(* ===================================================================== *)
(** ** Remove                                                          *)
(* ===================================================================== *)

Lemma ref_objects_unlink col m st :
  ref_objects (objects_unlink (Named col) m st) (Named col)
  = filter (λ x, x ≠ m) (ref_objects st (Named col)).
Proof.
  cbn. rewrite lookup_alter_eq. by destruct (collections st !! col).
Qed.

Lemma remove_member_detaches col st m :
  detached col (remove_member col st m) m ∧
  ∀ ob, detached col st ob → detached col (remove_member col st m) ob.
Proof.
  unfold remove_member. cbv zeta. rewrite select_only.
  set (s4 := parent_clear _).
  assert (collections s4 = collections st) as Hcol by done.
  assert (scene_objects s4 = scene_objects st) as Hsc by done.
  assert (∀ ob, ob_parent_of s4 ob
                = if bool_decide (ob = m) then None else ob_parent_of st ob) as Hpar.
  { intros ob. unfold ob_parent_of, s4. rewrite parent_clear_lookup.
    cbn [selected_objects objects set_active with_active with_selected].
    destruct (decide (ob = m)) as [->|Hne].
    - rewrite !bool_decide_eq_true_2 by (done || by left).
      destruct (objects st !! m); [apply ob_clear_parent_parent|done].
    - rewrite !bool_decide_eq_false_2; [done|done|].
      by intros ->%list_elem_of_singleton. }
  set (s5 := if bool_decide (m ∈ ref_objects s4 (Named col))
             then objects_unlink (Named col) m s4 else s4).
  assert (∀ ob, ob ∈ ref_objects s5 (Named col) ↔
                ob ∈ ref_objects st (Named col) ∧ ob ≠ m) as Hmem.
  { intros ob. unfold s5. case_bool_decide as Hin.
    - rewrite ref_objects_unlink, list_elem_of_filter.
      unfold ref_objects. rewrite Hcol. by rewrite (and_comm (ob ≠ m)).
    - unfold ref_objects in *. rewrite Hcol in *. split; [|by intros [? _]].
      intros Hob. split; [done|]. by intros ->. }
  assert (scene_objects s5 = scene_objects st) as Hsc5.
  { unfold s5. by case_bool_decide. }
  assert (∀ ob, ob_parent_of s5 ob = ob_parent_of s4 ob) as Hpar5.
  { intros ob. unfold s5. by case_bool_decide. }
  set (s6 := if bool_decide (m ∉ scene_objects s5) then objects_link Master m s5 else s5).
  assert (∀ ob, ob ∈ ref_objects s6 (Named col) ↔ ob ∈ ref_objects s5 (Named col)) as Hmem6.
  { intros ob. unfold s6. by case_bool_decide. }
  assert (∀ ob, ob_parent_of s6 ob = ob_parent_of s5 ob) as Hpar6.
  { intros ob. unfold s6. by case_bool_decide. }
  assert (∀ ob, ob ∈ scene_objects s6 ↔ ob ∈ scene_objects st ∨ ob = m) as Hsc6.
  { intros ob. unfold s6. case_bool_decide as Hin.
    - cbn. rewrite elem_of_app, list_elem_of_singleton. by rewrite Hsc5.
    - rewrite Hsc5. rewrite Hsc5 in Hin.
      split; [by left|]. by intros [?| ->]. }
  split.
  - split; [|split].
    + rewrite Hmem6, Hmem. by intros [_ ?].
    + apply Hsc6. by right.
    + rewrite Hpar6, Hpar5, Hpar. by rewrite bool_decide_eq_true_2.
  - intros ob (Hnot & Hin & Hnone). split; [|split].
    + rewrite Hmem6, Hmem. by intros [? _].
    + apply Hsc6. by left.
    + rewrite Hpar6, Hpar5, Hpar. by case_bool_decide.
Qed.

(** X17: Remove with a valid selection finishes, and afterwards every
    selected object other than the pivot is no member of the active
    collection, is linked to the scene's master collection and has no
    parent. *)
Theorem remove_detaches_selection (st : Blend) (col : string) (c : Collection) :
  active_ez_collection st = Some (col, c) →
  valid_selection st (get_collection_pivot st c) ≠ [] →
  let out := ez_remove_from_collection st in
  status out = FINISHED ∧
  ∀ ob, ob ∈ valid_selection st (get_collection_pivot st c) →
        detached col (final out) ob.
Proof.
  intros Hact Hsel out. unfold out, ez_remove_from_collection. rewrite Hact.
  cbv zeta. fold (valid_selection st (get_collection_pivot st c)).
  rewrite bool_decide_eq_false_2 by done. unfold finish. cbn [status final].
  split; [done|].
  generalize (valid_selection st (get_collection_pivot st c)) as sel. intros sel.
  generalize st as s. clear.
  induction sel as [|m sel IH] using rev_ind; intros s ob Hob;
    [by apply elem_of_nil in Hob|].
  rewrite foldl_snoc.
  destruct (remove_member_detaches col (foldl (remove_member col) s sel) m)
    as [Hm Hkeep].
  apply elem_of_app in Hob as [Hob | ->%list_elem_of_singleton]; [|done].
  apply Hkeep. by apply IH.
Qed.

Lemma remove_detaches_selection_witness :
  let st := locked_scene in
  let c := mkCollection false false (Some "Pivot_COL_A") "COLOR_02"
             ["Cube"; "Ball"; "Pivot_COL_A"] [] in
  let out := ez_remove_from_collection st in
  status out = FINISHED ∧
  ∀ ob, ob ∈ valid_selection st (get_collection_pivot st c) →
        detached "COL_A" (final out) ob.
Proof.
  apply (remove_detaches_selection locked_scene "COL_A").
  - vm_compute. reflexivity.
  - vm_compute. discriminate.
Defined.

(* ===================================================================== *)
(** ** Create: members, parents and the pivot shown                    *)
(* ===================================================================== *)

Lemma users_collection_spec (st : Blend) (ob : string) (r : CollRef) :
  r ∈ users_collection st ob ↔ ob ∈ ref_objects st r.
Proof.
  destruct r as [|n].
  - unfold users_collection. rewrite elem_of_app. cbn [ref_objects]. split.
    + intros [Hm|Hn].
      * by case_bool_decide; [|apply elem_of_nil in Hm].
      * apply list_elem_of_fmap in Hn as (k & [=] & _).
    + intros Hin. left. rewrite bool_decide_eq_true_2 by done. by left.
  - rewrite users_collection_named. cbn [ref_objects]. split.
    + intros (col & -> & Hob). done.
    + destruct (collections st !! n) as [col|]; [|by intros ?%elem_of_nil].
      intros Hob. by exists col.
Qed.

Lemma ref_objects_unlink_any (st : Blend) (r0 r : CollRef) (m : string) :
  ref_objects (objects_unlink r0 m st) r
  = if bool_decide (r = r0) then filter (λ x, x ≠ m) (ref_objects st r)
    else ref_objects st r.
Proof.
  destruct r0 as [|n0], r as [|n]; cbn; try done.
  case_bool_decide as Heq.
  - injection Heq as ->. rewrite lookup_alter_eq. by destruct (collections st !! n0).
  - rewrite lookup_alter_ne; [done|]. by intros ->.
Qed.

Lemma ref_objects_link_same (st : Blend) (col m : string) :
  is_Some (collections st !! col) →
  ref_objects (objects_link (Named col) m st) (Named col)
  = (ref_objects st (Named col) ++ [m])%list.
Proof. intros [c Hc]. cbn. by rewrite lookup_alter_eq, Hc. Qed.

Lemma ref_objects_link_other (st : Blend) (r0 r : CollRef) (m : string) :
  r ≠ r0 → ref_objects (objects_link r0 m st) r = ref_objects st r.
Proof.
  intros Hne. destruct r0 as [|n0], r as [|n]; cbn; try done.
  rewrite lookup_alter_ne; [done|]. by intros ->.
Qed.

Lemma unlink_each_spec (m : string) (keep : CollRef → bool) (l : list CollRef) :
  ∀ st r ob,
    ob ∈ ref_objects
           (foldl (λ s pc, if keep pc then s else objects_unlink pc m s) st l) r
    ↔ ob ∈ ref_objects st r ∧ ¬ (ob = m ∧ r ∈ l ∧ keep r = false).
Proof.
  induction l as [|r0 l IH]; intros st r ob; cbn [foldl].
  - split; [|by intros [? _]]. intros ?. split; [done|].
    by intros (_ & ?%elem_of_nil & _).
  - rewrite IH. destruct (keep r0) eqn:Hk.
    + split; intros [Hin Hnot]; (split; [done|]).
      * intros (-> & [-> | ?]%elem_of_cons & ?); [congruence|]. apply Hnot. done.
      * intros (-> & ? & ?). apply Hnot. split; [done|]. split; [by right|done].
    + rewrite ref_objects_unlink_any. case_bool_decide as Hr.
      * subst r0. rewrite list_elem_of_filter. split.
        -- intros [[Hne Hin] Hnot]. split; [done|]. by intros (-> & _).
        -- intros [Hin Hnot]. split; [split; [|done]|].
           ++ intros ->. apply Hnot. split; [done|]. split; [left|done].
           ++ intros (-> & ? & ?). apply Hnot. split; [done|]. split; [by right|done].
      * split; intros [Hin Hnot]; (split; [done|]).
        -- intros (-> & [-> | ?]%elem_of_cons & ?); [done|]. apply Hnot. done.
        -- intros (-> & ? & ?). apply Hnot. split; [done|]. split; [by right|done].
Qed.

Lemma unlink_each_collections (m : string) (keep : CollRef → bool) (l : list CollRef) :
  ∀ st, dom (collections
               (foldl (λ s pc, if keep pc then s else objects_unlink pc m s) st l))
        = dom (collections st) ∧
        objects (foldl (λ s pc, if keep pc then s else objects_unlink pc m s) st l)
        = objects st.
Proof.
  intros st.
  apply (foldl_invariant
           (λ s, dom (collections s) = dom (collections st) ∧ objects s = objects st));
    [done|].
  intros s [|n] [Hd Ho] _; destruct (keep _); try done.
  split; [|done]. cbn. by rewrite dom_alter_L.
Qed.

(** [move_to_collection]: afterwards the object is a member of [col] and
    of nothing else; the membership of every other object is as before. *)
Lemma move_to_collection_spec (col : string) (st : Blend) (m : string) :
  is_Some (collections st !! col) →
  let st' := move_to_collection col st m in
  dom (collections st') = dom (collections st) ∧
  objects st' = objects st ∧
  ∀ r ob, ob ∈ ref_objects st' r ↔
          (ob = m ∧ r = Named col) ∨ (ob ≠ m ∧ ob ∈ ref_objects st r).
Proof.
  intros Hcol st'. unfold st', move_to_collection. cbv zeta.
  change (foldl (λ s pc, objects_unlink pc m s))
    with (foldl (λ s pc, if (λ _ : CollRef, false) pc then s
                         else objects_unlink pc m s)).
  set (s1 := foldl _ st _).
  destruct (unlink_each_collections m (λ _, false) (users_collection st m) st)
    as [Hd Ho]. fold s1 in Hd, Ho.
  split; [cbn; by rewrite dom_alter_L|]. split; [exact Ho|].
  intros r ob.
  assert (is_Some (collections s1 !! col)) as Hcol1.
  { apply elem_of_dom. rewrite Hd. by apply elem_of_dom. }
  pose proof (unlink_each_spec m (λ _, false) (users_collection st m) st r ob) as Hs.
  fold s1 in Hs.
  destruct (decide (r = Named col)) as [-> | Hr].
  - rewrite ref_objects_link_same by done.
    rewrite elem_of_app, list_elem_of_singleton, Hs. split.
    + intros [[Hin Hnot] | ->]; [|by left]. right. split; [|done].
      intros ->. apply Hnot. split; [done|]. split; [|done].
      by apply users_collection_spec.
    + intros [[-> _] | [Hne Hin]]; [by right|]. left. split; [done|].
      by intros (-> & _).
  - rewrite ref_objects_link_other by done. rewrite Hs. split.
    + intros [Hin Hnot]. right. split; [|done].
      intros ->. apply Hnot. split; [done|]. split; [|done].
      by apply users_collection_spec.
    + intros [[-> ->] | [Hne Hin]]; [done|].
      split; [done|]. by intros (-> & _).
Qed.

Lemma move_each_spec (col : string) (l : list string) :
  ∀ st, is_Some (collections st !! col) →
    let st' := foldl (move_to_collection col) st l in
    dom (collections st') = dom (collections st) ∧
    objects st' = objects st ∧
    ∀ r ob, ob ∈ ref_objects st' r ↔
            (ob ∈ l ∧ r = Named col) ∨ ((ob ∉ l) ∧ ob ∈ ref_objects st r).
Proof.
  induction l as [|m l IH] using rev_ind; intros st Hcol; cbn zeta.
  - cbn [foldl]. split; [done|]. split; [done|]. intros r ob. split.
    + intros ?. right. split; [apply not_elem_of_nil|done].
    + by intros [[?%elem_of_nil _] | [_ ?]].
  - rewrite foldl_snoc. destruct (IH st Hcol) as (Hd & Ho & Hmem).
    set (s := foldl _ st l) in *.
    assert (is_Some (collections s !! col)) as Hcols.
    { apply elem_of_dom. rewrite Hd. by apply elem_of_dom. }
    destruct (move_to_collection_spec col s m Hcols) as (Hd' & Ho' & Hmem').
    split; [by rewrite Hd', Hd|]. split; [by rewrite Ho', Ho|].
    intros r ob. rewrite Hmem', Hmem, !elem_of_app, !list_elem_of_singleton.
    split.
    + intros [[-> ->] | [Hne [[Hin ->] | [Hnin Hin]]]].
      * left. split; [by right|done].
      * left. split; [by left|done].
      * right. split; [|done]. by intros [?|?].
    + intros [[[Hin | ->] ->] | [Hnin Hin]].
      * destruct (decide (ob = m)) as [-> | Hne]; [by left|].
        right. split; [done|]. by left.
      * by left.
      * right. split; [by intros ->; apply Hnin; right|].
        right. split; [by intros ?; apply Hnin; left|done].
Qed.

Lemma move_to_collection_frame (col : string) (st : Blend) (m : string) (n : string) :
  col_ez_pivot <$> collections (move_to_collection col st m) !! n
  = col_ez_pivot <$> collections st !! n ∧
  scene_children (move_to_collection col st m) = scene_children st.
Proof.
  unfold move_to_collection. cbv zeta. set (s' := foldl _ st _).
  assert (col_ez_pivot <$> collections s' !! n = col_ez_pivot <$> collections st !! n
          ∧ scene_children s' = scene_children st) as [<- <-].
  { unfold s'.
    apply (foldl_invariant
             (λ t, col_ez_pivot <$> collections t !! n
                   = col_ez_pivot <$> collections st !! n
                   ∧ scene_children t = scene_children st)); [done|].
    intros t [|k] [Ht Hc] _; [done|]. rewrite <-Ht, <-Hc. split; [|done]. cbn.
    destruct (decide (k = n)) as [-> | Hne].
    - rewrite lookup_alter_eq. by destruct (collections t !! n).
    - by rewrite lookup_alter_ne. }
  split; [|done]. cbn. destruct (decide (col = n)) as [-> | Hne].
  - rewrite lookup_alter_eq. by destruct (collections s' !! n).
  - by rewrite lookup_alter_ne.
Qed.

(** The state Create has reached when the pivot has been linked to the new
    collection, and the calls that are left. *)
Lemma create_run (suffix : string) (st : Blend) :
  selected_objects st ≠ [] →
  strip suffix ≠ "" →
  let objs := selected_objects st in
  let name := generate_unique_name ("COL_" +:+ strip suffix) (collection_names st) in
  ∃ pivot s5 msg,
    collections st !! name = None ∧
    objects st !! pivot = None ∧
    (∃ p, objects s5 = <[pivot := p]> (objects st) ∧ ob_hide_viewport p = false
          ∧ ob_parent p = None
          ∧ ob_location p = vdiv (vsum (world_translation st <$> objs)) (length objs)) ∧
    scene_children s5 = (scene_children st ++ [name])%list ∧
    is_Some (collections s5 !! name) ∧
    (∀ n, n ≠ name → col_ez_pivot <$> collections s5 !! n
                     = col_ez_pivot <$> collections st !! n) ∧
    (∀ r ob, ob ∈ ref_objects s5 r ↔
             ((ob ∈ objs ∨ ob = pivot) ∧ r = Named name) ∨
             ((ob ∉ objs) ∧ ob ∈ ref_objects st r)) ∧
    ez_create_collection suffix st
    = finish msg
        (set_active pivot
           (select_set pivot
              (select_all_deselect
                 (set_hide_viewport pivot false
                    (hide_all_pivots
                       (set_ez_pivot name pivot
                          (preserve_parent_hierarchy objs pivot s5).2)))))).
Proof.
  intros Hsel Hname objs name. unfold ez_create_collection. cbv zeta.
  rewrite !bool_decide_eq_false_2 by done.
  destruct (collections_new_unique ("COL_" +:+ strip suffix) st) as [Hfresh ->].
  fold name in Hfresh |- *. fold objs.
  set (s2 := children_link Master name _).
  assert (∀ r, ref_objects s2 r = ref_objects st r) as Href2.
  { intros [|n]; [done|]. cbn. destruct (decide (n = name)) as [-> | Hne].
    - by rewrite lookup_alter_eq, lookup_insert_eq, Hfresh.
    - by rewrite lookup_alter_ne, lookup_insert_ne. }
  assert (is_Some (collections s2 !! name)) as Hcol2.
  { cbn. rewrite lookup_alter_eq, lookup_insert_eq. by eexists. }
  assert (∀ n, n ≠ name → collections s2 !! n = collections st !! n) as Hoth2.
  { intros n Hne. cbn. by rewrite lookup_alter_ne, lookup_insert_ne. }
  destruct (move_each_spec name objs s2 Hcol2) as (Hd3 & Ho3 & Hmem3).
  set (s3 := foldl (move_to_collection name) s2 objs) in *.
  change (objects s2) with (objects st) in Ho3.
  assert (∀ n, col_ez_pivot <$> collections s3 !! n
               = col_ez_pivot <$> collections s2 !! n) as Htag3.
  { intros n. unfold s3.
    apply (foldl_invariant
             (λ s, col_ez_pivot <$> collections s !! n
                   = col_ez_pivot <$> collections s2 !! n)); [done|].
    intros s m Hs _. rewrite <-Hs. apply move_to_collection_frame. }
  assert (world_translation s3 <$> objs = world_translation st <$> objs) as ->.
  { unfold world_translation. by rewrite Ho3. }
  set (center := vdiv _ _).
  assert (objects st !! (create_smart_pivot name center false s3).1 = None) as Hpfresh.
  { rewrite <-Ho3. apply eq_None_not_Some. rewrite <-object_names_spec.
    apply bpy_unique_name_fresh. }
  assert (collections (create_smart_pivot name center false s3).2 = collections s3)
    as Hc4 by done.
  assert (scene_objects (create_smart_pivot name center false s3).2 = scene_objects s3)
    as Hso4 by done.
  assert (scene_children (create_smart_pivot name center false s3).2 = scene_children s3)
    as Hsc4 by done.
  assert (∃ p, objects (create_smart_pivot name center false s3).2
               = <[(create_smart_pivot name center false s3).1 := p]> (objects st)
               ∧ ob_hide_viewport p = false ∧ ob_parent p = None
               ∧ ob_location p = center) as Hobj4.
  { unfold create_smart_pivot. cbn. rewrite Ho3. by eexists. }
  destruct (create_smart_pivot name center false s3) as [pivot s4].
  cbn [fst snd] in *.
  assert (scene_children s3 = (scene_children st ++ [name])%list) as Hsc3.
  { unfold s3.
    apply (foldl_invariant
             (λ s, scene_children s = (scene_children st ++ [name])%list)); [done|].
    intros s m Hs _. rewrite <-Hs. apply (move_to_collection_frame name s m name). }
  assert (∀ r, ref_objects s4 r = ref_objects s3 r) as Href4.
  { intros [|n]; cbn; by rewrite ?Hso4, ?Hc4. }
  assert (is_Some (collections s4 !! name)) as Hcol4.
  { rewrite Hc4. apply elem_of_dom. rewrite Hd3. by apply elem_of_dom. }
  eexists pivot, (objects_link (Named name) pivot s4), _.
  split; [done|]. split; [done|]. split; [exact Hobj4|].
  split.
  { change (scene_children s4 = (scene_children st ++ [name])%list).
    by rewrite Hsc4, Hsc3. }
  split.
  { destruct Hcol4 as [c Hc]. unfold objects_link.
    cbn [collections with_collections]. rewrite lookup_alter_eq, Hc. by eexists. }
  split.
  { intros n Hne. unfold objects_link. cbn [collections with_collections].
    rewrite lookup_alter_ne by done.
    by rewrite Hc4, Htag3, Hoth2. }
  split; [|reflexivity].
  intros r ob. destruct (decide (r = Named name)) as [-> | Hr].
  - rewrite ref_objects_link_same by done.
    rewrite elem_of_app, list_elem_of_singleton, Href4, Hmem3, Href2. split.
    + intros [[[Hin _] | [Hnin Hin]] | ->].
      * left. split; [by left|done].
      * by right.
      * left. split; [by right|done].
    + intros [[[Hin | ->] _] | [Hnin Hin]].
      * left. left. done.
      * by right.
      * left. right. done.
  - rewrite ref_objects_link_other by done. rewrite Href4, Hmem3, Href2. split.
    + intros [[_ ->] | ?]; [done|by right].
    + intros [[_ ->] | ?]; [done|by right].
Qed.

(** The last calls of Create and of Merge: hide every pivot, show the new
    one, select it alone and make it active. *)
Lemma show_new_pivot_spec (s : Blend) (pivot : string) :
  is_Some (objects s !! pivot) →
  let f := set_active pivot
             (select_set pivot
                (select_all_deselect
                   (set_hide_viewport pivot false (hide_all_pivots s)))) in
  collections f = collections s ∧
  scene_objects f = scene_objects s ∧
  scene_children f = scene_children s ∧
  selected_objects f = [pivot] ∧
  active_object f = Some pivot ∧
  (∀ o, is_Some (objects f !! o) ↔ is_Some (objects s !! o)) ∧
  (∀ o, ob_parent_of f o = ob_parent_of s o) ∧
  (∀ o, is_ez_pivot f o → hidden f o = Some (bool_decide (o ≠ pivot))).
Proof.
  intros Hp f. unfold f. rewrite select_only.
  cbn [collections scene_objects scene_children selected_objects active_object
       set_active with_active with_selected set_hide_viewport with_objects
       hide_all_pivots objects].
  split; [done|]. split; [done|]. split; [done|]. split; [done|]. split; [done|].
  assert (∀ o, is_Some (alter (ob_with_hide_viewport false) pivot
                          (foldl (λ objs kc, hide_pivot_of objs kc.2) (objects s)
                             (map_to_list (collections s))) !! o)
               ↔ is_Some (objects s !! o)) as Hdom.
  { intros o. rewrite <-!elem_of_dom, dom_alter_L. by rewrite hide_pivots_dom. }
  split; [exact Hdom|]. split.
  - intros o. unfold ob_parent_of.
    cbn [objects set_active with_active with_selected set_hide_viewport with_objects
         hide_all_pivots].
    destruct (decide (pivot = o)) as [-> | Hne].
    + rewrite lookup_alter_eq, hide_pivots_lookup.
      case_bool_decide; by destruct (objects s !! o).
    + rewrite lookup_alter_ne by done. rewrite hide_pivots_lookup.
      case_bool_decide; by destruct (objects s !! o).
  - intros o (n & c & Hn & Htag & Hex).
    cbn [collections objects set_active with_active with_selected set_hide_viewport
         with_objects hide_all_pivots] in Hn, Hex.
    apply Hdom in Hex.
    change (hidden (set_hide_viewport pivot false (hide_all_pivots s)) o
            = Some (bool_decide (o ≠ pivot))).
    rewrite hidden_set_hide_viewport.
    rewrite (hide_all_pivots_hides s o) by (by exists n, c).
    by case_bool_decide; [rewrite bool_decide_eq_false_2 by (by intros ?)
                         |rewrite bool_decide_eq_true_2].
Qed.

Lemma show_new_pivot_geometry (s : Blend) (pivot o : string) :
  let f := set_active pivot
             (select_set pivot
                (select_all_deselect
                   (set_hide_viewport pivot false (hide_all_pivots s)))) in
  ob_with_hide_viewport true <$> objects f !! o
  = ob_with_hide_viewport true <$> objects s !! o.
Proof.
  intros f. unfold f. rewrite select_only.
  cbn [objects set_active with_active with_selected set_hide_viewport with_objects
       hide_all_pivots].
  destruct (decide (pivot = o)) as [-> | Hne].
  - rewrite lookup_alter_eq, hide_pivots_lookup.
    case_bool_decide; by destruct (objects s !! o).
  - rewrite lookup_alter_ne by done. rewrite hide_pivots_lookup.
    case_bool_decide; by destruct (objects s !! o).
Qed.

Lemma ref_pivot_Some (s : Blend) (col ob : string) :
  ref_pivot s col = Some ob ↔
  ∃ c, collections s !! col = Some c ∧ col_ez_pivot c = Some ob ∧
       is_Some (objects s !! ob).
Proof.
  unfold ref_pivot, get_collection_pivot. split.
  - destruct (collections s !! col) as [c|]; simpl; [|discriminate].
    destruct (col_ez_pivot c) as [p|] eqn:Htag; simpl; [|discriminate].
    destruct (objects s !! p) as [o|] eqn:Ho; simpl; [|discriminate].
    intros [= <-]. exists c. split; [done|]. split; [done|]. by eexists.
  - intros (c & -> & Htag & [o Ho]). simpl. rewrite Htag. simpl. by rewrite Ho.
Qed.

Lemma pph_scene (objs : list string) (new_parent : string) (st : Blend) :
  scene_objects (preserve_parent_hierarchy objs new_parent st).2 = scene_objects st ∧
  scene_children (preserve_parent_hierarchy objs new_parent st).2 = scene_children st.
Proof.
  unfold preserve_parent_hierarchy. cbv zeta. cbn [snd].
  set (s := foldl _ _ _).
  assert (scene_objects s = scene_objects st ∧ scene_children s = scene_children st)
    as [Ho Hc].
  { unfold s.
    apply (foldl_invariant
             (λ t, scene_objects t = scene_objects st
                   ∧ scene_children t = scene_children st)).
    - unfold select_set, select_all_deselect. by case_bool_decide.
    - intros t ob Ht _. unfold select_set. by case_bool_decide. }
  case_bool_decide; [done|]. unfold parent_set. by cbn.
Qed.

(** The state Create leaves: the state of [create_run] with the roots of
    the selection parented and the tag set, then [show_new_pivot_spec]. *)
Lemma create_final (suffix : string) (st : Blend) :
  selected_objects st ≠ [] →
  strip suffix ≠ "" →
  let objs := selected_objects st in
  let name := generate_unique_name ("COL_" +:+ strip suffix) (collection_names st) in
  let out := ez_create_collection suffix st in
  ∃ pivot,
    status out = FINISHED ∧
    collections st !! name = None ∧
    objects st !! pivot = None ∧
    ref_pivot (final out) name = Some pivot ∧
    scene_children (final out) = (scene_children st ++ [name])%list ∧
    selected_objects (final out) = [pivot] ∧
    active_object (final out) = Some pivot ∧
    (∀ r ob, ob ∈ ref_objects (final out) r ↔
             ((ob ∈ objs ∨ ob = pivot) ∧ r = Named name) ∨
             ((ob ∉ objs) ∧ ob ∈ ref_objects st r)) ∧
    (∀ o, is_ez_pivot (final out) o →
          hidden (final out) o = Some (bool_decide (o ≠ pivot))) ∧
    (∀ ob, is_Some (objects st !! ob) →
           ob_parent_of (final out) ob
           = if bool_decide (ob ∈ objs) && is_root_in st objs ob
             then Some pivot else ob_parent_of st ob) ∧
    (∃ p, objects (final out) !! pivot = Some p ∧
          ob_location p = vdiv (vsum (world_translation st <$> objs)) (length objs)).
Proof.
  intros Hsel Hname objs name out.
  destruct (create_run suffix st Hsel Hname)
    as (pivot & s5 & msg & Hfresh & Hpfresh & (p & Hobj5 & Hhid & Hpar & Hloc) & Hsc5
        & Hcol5 & Htag5 & Hmem5 & Hrun).
  fold objs name in Hfresh, Hsc5, Hcol5, Htag5, Hmem5, Hrun.
  exists pivot. unfold out. rewrite Hrun. unfold finish. cbn [status final].
  set (s6 := (preserve_parent_hierarchy objs pivot s5).2).
  destruct (pph_spec objs pivot s5 pivot) as (Hroots & Hcol6 & _ & Hp6).
  fold s6 in Hcol6, Hp6.
  rewrite bool_decide_eq_false_2 in Hp6 by (intros [_ ?]; congruence).
  assert (objects s5 !! pivot = Some p) as Hp5 by (by rewrite Hobj5, lookup_insert_eq).
  set (s7 := set_ez_pivot name pivot s6).
  assert (is_Some (objects s7 !! pivot)) as Hp7.
  { change (objects s7) with (objects s6). rewrite Hp6, Hp5. by eexists. }
  destruct (show_new_pivot_spec s7 pivot Hp7)
    as (Hcolf & Hsof & Hscf & Hself & Hactf & Hdomf & Hparf & Hhidf).
  set (f := set_active pivot _) in *.
  assert (∀ r, ref_objects f r = ref_objects s5 r) as Href.
  { intros [|n]; cbn [ref_objects].
    { rewrite Hsof. apply (pph_scene objs pivot s5). }
    rewrite Hcolf. unfold s7, set_ez_pivot. cbn [collections with_collections].
    rewrite Hcol6. destruct (decide (name = n)) as [Heq | Hne].
    - rewrite <-Heq, lookup_alter_eq. by destruct (collections s5 !! name).
    - by rewrite lookup_alter_ne. }
  split; [done|]. split; [done|]. split; [done|].
  split.
  { destruct Hcol5 as [c Hc5].
    assert (collections f !! name = Some (col_with_ez_pivot (Some pivot) c)) as Hcf.
    { rewrite Hcolf. unfold s7, set_ez_pivot. cbn [collections with_collections].
      by rewrite Hcol6, lookup_alter_eq, Hc5. }
    apply Hdomf in Hp7 as [x Hx].
    unfold ref_pivot. rewrite Hcf.
    change (objects f !! pivot ≫= (λ _, Some pivot) = Some pivot).
    by rewrite Hx. }
  split.
  { rewrite Hscf, <-Hsc5. apply (pph_scene objs pivot s5). }
  split; [done|]. split; [done|].
  split; [intros r ob; by rewrite Href|]. split; [exact Hhidf|].
  split.
  2:{ pose proof (show_new_pivot_geometry s7 pivot pivot) as Hgeo. cbv zeta in Hgeo.
      change (objects s7) with (objects s6) in Hgeo.
      rewrite Hp6, Hp5 in Hgeo. subst f.
      match type of Hgeo with
      | _ <$> ?x = _ => destruct x as [p'|] eqn:Hp'; [|cbn in Hgeo; discriminate]
      end.
      exists p'. split; [exact Hp'|]. etrans; [|exact Hloc].
      exact (f_equal (λ x, from_option ob_location vzero x) Hgeo). }
  intros ob [o Ho]. rewrite Hparf.
  assert (ob ≠ pivot) as Hne by congruence.
  assert (∀ x, ob_parent_of s5 x = ob_parent_of st x) as Hpar5.
  { intros x. unfold ob_parent_of. rewrite Hobj5.
    destruct (decide (pivot = x)) as [<- | Hx].
    - by rewrite lookup_insert_eq, Hpfresh.
    - by rewrite lookup_insert_ne. }
  destruct (pph_spec objs pivot s5 ob) as (_ & _ & _ & Hob6). fold s6 in Hob6.
  change (ob_parent_of s7 ob) with (ob_parent_of s6 ob).
  unfold ob_parent_of at 1. rewrite Hob6, Hroots.
  assert (objects s5 !! ob = Some o) as Ho5 by (by rewrite Hobj5, lookup_insert_ne).
  assert (is_root_in s5 objs ob = is_root_in st objs ob) as Hroot.
  { unfold is_root_in. by rewrite Hpar5. }
  destruct (decide (ob ∈ objs ∧ is_root_in st objs ob = true)) as [[Hin Hr] | Hnot].
  - rewrite (bool_decide_eq_true_2 (_ ∧ ob ≠ pivot)).
    2:{ split; [|done]. apply list_elem_of_filter. split; [congruence|done]. }
    rewrite (bool_decide_eq_true_2 (ob ∈ objs)) by done. by rewrite Hr, Ho5.
  - rewrite (bool_decide_eq_false_2 (_ ∧ ob ≠ pivot)).
    2:{ intros [[? ?]%list_elem_of_filter _]. apply Hnot. split; [done|congruence]. }
    rewrite Ho5, <-(Hpar5 ob). unfold ob_parent_of. rewrite Ho5.
    destruct (bool_decide (ob ∈ objs)) eqn:Hb; [|done].
    apply bool_decide_eq_true_1 in Hb.
    destruct (is_root_in st objs ob) eqn:Hr; [|done]. exfalso. by apply Hnot.
Qed.




(** X18: Create moves the selection: the new collection is linked to the
    scene, its members are the selected objects and the new pivot, a
    selected object is a member of no other collection, and the members of
    the other collections are otherwise as before. *)
Theorem create_collects_selection (suffix : string) (st : Blend) :
  selected_objects st ≠ [] →
  strip suffix ≠ "" →
  let objs := selected_objects st in
  let out := ez_create_collection suffix st in
  status out = FINISHED ∧
  ∃ name pivot,
    collections st !! name = None ∧
    objects st !! pivot = None ∧
    scene_children (final out) = (scene_children st ++ [name])%list ∧
    ref_pivot (final out) name = Some pivot ∧
    ∀ r ob, ob ∈ ref_objects (final out) r ↔
            ((ob ∈ objs ∨ ob = pivot) ∧ r = Named name) ∨
            ((ob ∉ objs) ∧ ob ∈ ref_objects st r).
Proof.
  intros Hsel Hname objs out.
  destruct (create_final suffix st Hsel Hname)
    as (pivot & Hfin & Hfresh & Hp & Hrp & Hsc & _ & _ & Hmem & _).
  split; [done|].
  by exists (generate_unique_name ("COL_" +:+ strip suffix) (collection_names st)), pivot.
Qed.

Lemma create_collects_selection_witness :
  let st := two_objects_scene in
  let objs := selected_objects st in
  let out := ez_create_collection " Props " st in
  status out = FINISHED ∧
  ∃ name pivot,
    collections st !! name = None ∧
    objects st !! pivot = None ∧
    scene_children (final out) = (scene_children st ++ [name])%list ∧
    ref_pivot (final out) name = Some pivot ∧
    ∀ r ob, ob ∈ ref_objects (final out) r ↔
            ((ob ∈ objs ∨ ob = pivot) ∧ r = Named name) ∨
            ((ob ∉ objs) ∧ ob ∈ ref_objects st r).
Proof.
  apply (create_collects_selection " Props " two_objects_scene).
  - discriminate.
  - vm_compute. discriminate.
Defined.

(** X19: Create ends with the pivot of the new collection as the only
    selected object and the active one, and as the only pivot shown in
    the viewport. *)
Theorem create_shows_only_new_pivot (suffix : string) (st : Blend) :
  selected_objects st ≠ [] →
  strip suffix ≠ "" →
  let out := ez_create_collection suffix st in
  ∃ name pivot,
    collections st !! name = None ∧
    ref_pivot (final out) name = Some pivot ∧
    selected_objects (final out) = [pivot] ∧
    active_object (final out) = Some pivot ∧
    ∀ o, is_ez_pivot (final out) o →
         hidden (final out) o = Some (bool_decide (o ≠ pivot)).
Proof.
  intros Hsel Hname out.
  destruct (create_final suffix st Hsel Hname)
    as (pivot & _ & Hfresh & _ & Hrp & _ & Hs & Ha & _ & Hhid & _).
  by exists (generate_unique_name ("COL_" +:+ strip suffix) (collection_names st)), pivot.
Qed.

Lemma create_shows_only_new_pivot_witness :
  let st := two_objects_scene in
  let out := ez_create_collection " Props " st in
  ∃ name pivot,
    collections st !! name = None ∧
    ref_pivot (final out) name = Some pivot ∧
    selected_objects (final out) = [pivot] ∧
    active_object (final out) = Some pivot ∧
    ∀ o, is_ez_pivot (final out) o →
         hidden (final out) o = Some (bool_decide (o ≠ pivot)).
Proof.
  apply (create_shows_only_new_pivot " Props " two_objects_scene).
  - discriminate.
  - vm_compute. discriminate.
Defined.

(** X20: Create gives the pivot of the new collection as parent to
    exactly the selected objects whose parent is none or not selected;
    every other parent link is kept. *)
Theorem create_parents_selection_roots (suffix : string) (st : Blend) :
  selected_objects st ≠ [] →
  strip suffix ≠ "" →
  let objs := selected_objects st in
  let out := ez_create_collection suffix st in
  ∃ name pivot,
    collections st !! name = None ∧
    objects st !! pivot = None ∧
    ref_pivot (final out) name = Some pivot ∧
    ∀ ob, is_Some (objects st !! ob) →
          ob_parent_of (final out) ob
          = if bool_decide (ob ∈ objs) && is_root_in st objs ob
            then Some pivot else ob_parent_of st ob.
Proof.
  intros Hsel Hname objs out.
  destruct (create_final suffix st Hsel Hname)
    as (pivot & _ & Hfresh & Hp & Hrp & _ & _ & _ & _ & _ & Hpar & _).
  by exists (generate_unique_name ("COL_" +:+ strip suffix) (collection_names st)), pivot.
Qed.

Lemma create_parents_selection_roots_witness :
  let st := two_objects_scene in
  let objs := selected_objects st in
  let out := ez_create_collection " Props " st in
  ∃ name pivot,
    collections st !! name = None ∧
    objects st !! pivot = None ∧
    ref_pivot (final out) name = Some pivot ∧
    ∀ ob, is_Some (objects st !! ob) →
          ob_parent_of (final out) ob
          = if bool_decide (ob ∈ objs) && is_root_in st objs ob
            then Some pivot else ob_parent_of st ob.
Proof.
  apply (create_parents_selection_roots " Props " two_objects_scene).
  - discriminate.
  - vm_compute. discriminate.
Defined.

(* ===================================================================== *)
(** ** Merge                                                           *)
(* ===================================================================== *)

(** X8: The collections Merge works on are pairwise distinct and each is
    an EZCollection of the scene. *)
Theorem merge_selected_collections_distinct_ez (st : Blend) :
  NoDup (merge_selected_collections st) ∧
  Forall (is_ez st) (merge_selected_collections st).
Proof.
  assert (NoDup (merge_candidates st)) as Hnd.
  { unfold merge_candidates.
    apply foldl_invariant; [constructor|]. intros acc ob Hacc _.
    apply foldl_invariant; [done|]. intros acc' [|n] Hacc' _; [done|].
    destruct (ref_is_ez st (Named n) && bool_decide (n ∉ acc')) eqn:Hc; [|done].
    apply andb_true_iff in Hc as [_ Hn%bool_decide_eq_true].
    apply NoDup_app. split; [done|]. split; [|apply NoDup_singleton].
    intros x Hx ->%list_elem_of_singleton. done. }
  pose proof (merge_candidates_ez st) as Hez.
  unfold merge_selected_collections.
  destruct (merge_candidates st) as [|m l]; [|done].
  unfold active_ez_collection.
  destruct (active_layer_collection st) as [[|k]|];
    try (split; [constructor|constructor]).
  destruct (collections st !! k) as [c|] eqn:Hk; [|split; constructor].
  destruct (is_ez_collection c) eqn:Hc; [|split; constructor].
  split; [apply NoDup_singleton|]. apply Forall_singleton.
  unfold is_ez. cbn [ref_is_ez]. by rewrite Hk.
Qed.

Lemma ref_pivot_same (s s' : Blend) (col : string) :
  col_ez_pivot <$> collections s' !! col = col_ez_pivot <$> collections s !! col →
  (∀ ob, is_Some (objects s' !! ob) ↔ is_Some (objects s !! ob)) →
  ref_pivot s' col = ref_pivot s col.
Proof.
  intros Htag Hdom. unfold ref_pivot.
  destruct (collections s' !! col) as [c'|], (collections s !! col) as [c|];
    try done.
  injection Htag as Htag. cbn. unfold get_collection_pivot. rewrite Htag.
  destruct (col_ez_pivot c) as [p|]; [|done]. cbn.
  destruct (Hdom p) as [H1 H2].
  destruct (objects s' !! p) as [x|], (objects s !! p) as [y|]; try done.
  - by destruct H1 as [? ?]; [eexists|].
  - by destruct H2 as [? ?]; [eexists|].
Qed.

Lemma filter_all {A} (P : A → Prop) `{!∀ x, Decision (P x)} (l : list A) :
  (∀ x, x ∈ l → P x) → filter P l = l.
Proof.
  induction l as [|x l IH]; intros Hall; [done|].
  rewrite filter_cons_True by (apply Hall; left).
  f_equal. apply IH. intros y ?. apply Hall. by right.
Qed.

Lemma filter_ne_absent (col : string) (l : list string) :
  col ∉ l → filter (λ x, x ≠ col) l = l.
Proof. intros Hnin. apply filter_all. by intros x ? ->. Qed.

Lemma parent_set_frame (st : Blend) :
  scene_children (parent_set st) = scene_children st ∧
  scene_objects (parent_set st) = scene_objects st ∧
  collections (parent_set st) = collections st.
Proof. unfold parent_set. by destruct (active_object st). Qed.

(** One round of the loop of Merge. *)
Lemma merge_child_spec (pc pp : string) (s : Blend) (col : string) :
  let s' := merge_child pc pp s col in
  scene_children s' = filter (λ x, x ≠ col) (scene_children s) ∧
  scene_objects s' = scene_objects s ∧
  collections s'
  = alter (λ c, col_with_children (col_children c ++ [col]) c) pc (collections s) ∧
  ∀ ob, objects s' !! ob
        = if bool_decide (ref_pivot s col = Some ob ∧ ob ≠ pp)
          then ob_reparent (Some pp) <$> objects s !! ob
          else objects s !! ob.
Proof.
  intros s'. unfold s', merge_child. cbv zeta.
  set (s1 := if bool_decide (col ∈ scene_children s)
             then children_unlink Master col s else s).
  assert (scene_children s1 = filter (λ x, x ≠ col) (scene_children s)) as Hsc1.
  { unfold s1. case_bool_decide; [done|]. by rewrite filter_ne_absent. }
  assert (scene_objects s1 = scene_objects s) as Hso1.
  { unfold s1. by case_bool_decide. }
  assert (collections s1 = collections s) as Hc1.
  { unfold s1. by case_bool_decide. }
  assert (objects s1 = objects s) as Ho1.
  { unfold s1. by case_bool_decide. }
  set (s2 := children_link (Named pc) col s1).
  assert (ref_pivot s2 col = ref_pivot s col) as ->.
  { apply ref_pivot_same.
    - unfold s2, children_link. cbn [collections with_collections]. rewrite Hc1.
      destruct (decide (pc = col)) as [-> | Hne].
      + rewrite lookup_alter_eq. by destruct (collections s !! col).
      + by rewrite lookup_alter_ne.
    - intros ob. change (objects s2) with (objects s1). by rewrite Ho1. }
  assert (collections s2
          = alter (λ c, col_with_children (col_children c ++ [col]) c) pc
              (collections s)) as Hc2.
  { unfold s2, children_link. cbn [collections with_collections]. by rewrite Hc1. }
  destruct (ref_pivot s col) as [cp|].
  - rewrite select_only.
    set (s3 := set_active pp (select_set cp (with_selected [pp] s2))).
    assert (active_object s3 = Some pp) as Hact by done.
    assert (∀ x, x ∈ selected_objects s3 ↔ x = pp ∨ x = cp) as Hsel.
    { intros x. unfold s3, select_set.
      cbn [selected_objects with_selected set_active with_active].
      case_bool_decide as Hin; cbn [selected_objects with_selected set_active with_active].
      - apply list_elem_of_singleton in Hin as ->.
        rewrite list_elem_of_singleton. split; [by left|by intros [?|?]].
      - rewrite elem_of_app, !list_elem_of_singleton. done. }
    assert (scene_children s3 = scene_children s1 ∧ scene_objects s3 = scene_objects s1
            ∧ collections s3 = collections s2 ∧ objects s3 = objects s1)
      as (Hsc3 & Hso3 & Hc3 & Ho3).
    { unfold s3, select_set. by case_bool_decide. }
    destruct (parent_set_frame s3) as (-> & -> & ->).
    split; [congruence|]. split; [congruence|]. split; [congruence|].
    intros ob. rewrite (parent_set_lookup s3 pp ob Hact), Ho3, Ho1.
    apply (f_equal (λ b : bool, if b then _ else _)).
    apply bool_decide_ext. rewrite Hsel. split.
    + intros [[? | ->] ?]; [done|]. done.
    + intros [[= ->] ?]. split; [by right|done].
  - split; [done|]. split; [done|]. split; [done|].
    intros ob. rewrite bool_decide_eq_false_2 by (by intros [? _]).
    change (objects s2) with (objects s1). by rewrite Ho1.
Qed.

(** The loop of Merge over [l], from [s0]. *)
Lemma merge_children_spec (pc pp : string) (s0 : Blend) (l : list string) :
  let s := foldl (merge_child pc pp) s0 l in
  scene_children s = filter (λ x, x ∉ l) (scene_children s0) ∧
  scene_objects s = scene_objects s0 ∧
  (∀ k, collections s !! k
        = if bool_decide (k = pc)
          then (λ c, col_with_children (col_children c ++ l) c) <$> collections s0 !! k
          else collections s0 !! k) ∧
  (∀ ob, ob_reparent None <$> objects s !! ob
         = ob_reparent None <$> objects s0 !! ob) ∧
  (∀ col cp, col ∈ l → ref_pivot s0 col = Some cp → cp ≠ pp →
             ob_parent_of s cp = Some pp) ∧
  (∀ ob, (ob = pp ∨ ∀ col, col ∈ l → ref_pivot s0 col ≠ Some ob) →
         objects s !! ob = objects s0 !! ob).
Proof.
  induction l as [|col l IH] using rev_ind; cbv zeta.
  - cbn [foldl]. split.
    { symmetry. apply filter_all. intros; apply not_elem_of_nil. }
    split; [done|]. split.
    { intros k. case_bool_decide; [|done].
      destruct (collections s0 !! k) as [[]|]; cbn; [|done]. by rewrite app_nil_r. }
    split; [done|]. split; [by intros ? ? ?%elem_of_nil|]. done.
  - rewrite foldl_snoc. cbv zeta in IH.
    destruct IH as (Hsc & Hso & Hc & Hfr & Hpar & Hkeep).
    set (s := foldl (merge_child pc pp) s0 l) in *.
    destruct (merge_child_spec pc pp s col) as (Hsc' & Hso' & Hc' & Ho').
    assert (∀ ob, is_Some (objects s !! ob) ↔ is_Some (objects s0 !! ob)) as Hdom.
    { intros ob. rewrite <-(fmap_is_Some (ob_reparent None) (objects s !! ob)).
      rewrite Hfr. by rewrite fmap_is_Some. }
    assert (∀ c, ref_pivot s c = ref_pivot s0 c) as Hrp.
    { intros c. apply ref_pivot_same; [|done]. rewrite Hc.
      case_bool_decide; [|done]. by destruct (collections s0 !! c). }
    rewrite Hrp in Ho'.
    split.
    { rewrite Hsc', Hsc. rewrite list_filter_filter. apply list_filter_iff.
      intros x. rewrite not_elem_of_app, list_elem_of_singleton. tauto. }
    split; [congruence|]. split.
    { intros k. rewrite Hc'. destruct (decide (k = pc)) as [-> | Hne].
      - rewrite lookup_alter_eq, Hc, !bool_decide_eq_true_2 by done.
        destruct (collections s0 !! pc) as [[]|]; cbn; [|done].
        by rewrite app_assoc.
      - rewrite lookup_alter_ne by done. rewrite Hc.
        by rewrite !bool_decide_eq_false_2 by done. }
    split.
    { intros ob. rewrite Ho', <-Hfr. case_bool_decide; [|done].
      by destruct (objects s !! ob). }
    split.
    { intros c cp [Hin | ->%list_elem_of_singleton]%elem_of_app Hcp Hne.
      - specialize (Hpar c cp Hin Hcp Hne). unfold ob_parent_of in *.
        rewrite Ho'. case_bool_decide; [|done].
        destruct (objects s !! cp); [done|done].
      - unfold ob_parent_of. rewrite Ho', bool_decide_eq_true_2 by done.
        assert (is_Some (objects s !! cp)) as [o ->]; [|done].
        apply Hdom. by apply (ref_pivot_exists s0 col). }
    intros ob Hob. rewrite Ho', bool_decide_eq_false_2.
    + apply Hkeep. destruct Hob as [? | Hob]; [by left|]. right.
      intros c Hin. apply Hob, elem_of_app. by left.
    + intros [Hcp Hne]. destruct Hob as [? | Hob]; [done|].
      apply (Hob col); [|done]. apply elem_of_app. right. by left.
Qed.

Lemma omap_ext_in {A B} (f g : A → option B) (l : list A) :
  (∀ x, x ∈ l → f x = g x) → omap f l = omap g l.
Proof.
  induction l as [|a l IH]; intros Hfg; [done|]. cbn.
  rewrite (Hfg a) by left. rewrite IH; [done|]. intros x ?. apply Hfg. by right.
Qed.

(** The last calls of Create and of Merge change [hide_viewport] only. *)
(** The part of Merge after the new collection has been made and linked
    to the scene. *)
Lemma merge_body (st : Blend) (name : string) (sel : list string)
    (center : Vector) (pp : string) (s3 : Blend) :
  collections st !! name = None →
  (∀ col, col ∈ sel → is_Some (collections st !! col)) →
  let s2 := children_link Master name
              (set_color_tag name "COLOR_01"
                 (with_collections (<[name := new_collection]> (collections st)) st)) in
  create_smart_pivot name center true s2 = (pp, s3) →
  let f := set_active pp
             (select_set pp
                (select_all_deselect
                   (set_hide_viewport pp false
                      (hide_all_pivots
                         (set_ez_pivot name pp
                            (foldl (merge_child name pp)
                               (objects_link (Named name) pp s3) sel)))))) in
  objects st !! pp = None ∧
  collections f !! name
  = Some (mkCollection false false (Some pp) "COLOR_01" [pp] sel) ∧
  (∀ k, k ≠ name → collections f !! k = collections st !! k) ∧
  scene_children f = (filter (λ x, x ∉ sel) (scene_children st) ++ [name])%list ∧
  scene_objects f = scene_objects st ∧
  selected_objects f = [pp] ∧
  active_object f = Some pp ∧
  (∀ o, is_ez_pivot f o → hidden f o = Some (bool_decide (o ≠ pp))) ∧
  (∃ p, objects f !! pp = Some p ∧ ob_location p = center ∧ ob_parent p = None) ∧
  (∀ col cp, col ∈ sel → ref_pivot st col = Some cp →
             ob_parent_of f cp = Some pp) ∧
  (∀ ob, is_Some (objects st !! ob) →
         (∀ col, col ∈ sel → ref_pivot st col ≠ Some ob) →
         ob_parent_of f ob = ob_parent_of st ob).
Proof.
  intros Hfresh Hsel s2 Hcs f.
  assert (name ∉ sel) as Hname.
  { intros [c Hc]%Hsel. congruence. }
  assert (objects st !! pp = None) as Hpfresh.
  { apply (f_equal fst) in Hcs. cbn [fst] in Hcs. subst pp.
    apply eq_None_not_Some. rewrite <-object_names_spec.
    apply (bpy_unique_name_fresh _ (object_names st)). }
  assert (∃ p, objects s3 = <[pp := p]> (objects st) ∧ ob_location p = center
               ∧ ob_parent p = None) as (p & Hobj3 & Hloc & Hparp).
  { revert Hcs. unfold create_smart_pivot. cbv zeta. intros [= <- <-].
    by eexists. }
  assert (collections s3 = collections s2 ∧ scene_objects s3 = scene_objects st
          ∧ scene_children s3 = (scene_children st ++ [name])%list)
    as (Hc3 & Hso3 & Hsc3).
  { revert Hcs. unfold create_smart_pivot. cbv zeta. by intros [= <- <-]. }
  set (s4 := objects_link (Named name) pp s3) in *.
  assert (collections s4 !! name
          = Some (mkCollection false false None "COLOR_01" [pp] [])) as Hc4n.
  { unfold s4, objects_link. cbn [collections with_collections]. rewrite Hc3.
    unfold s2, children_link, set_color_tag. cbn [collections with_collections with_scene_children].
    by rewrite !lookup_alter_eq, lookup_insert_eq. }
  assert (∀ k, k ≠ name → collections s4 !! k = collections st !! k) as Hc4.
  { intros k Hk. unfold s4, objects_link. cbn [collections with_collections].
    rewrite Hc3. unfold s2, children_link, set_color_tag.
    cbn [collections with_collections with_scene_children].
    by rewrite !lookup_alter_ne, lookup_insert_ne. }
  assert (objects s4 = <[pp := p]> (objects st)) as Hobj4 by done.
  destruct (merge_children_spec name pp s4 sel)
    as (Hsc5 & Hso5 & Hc5 & Hfr5 & Hpar5 & Hkeep5).
  set (s5 := foldl (merge_child name pp) s4 sel) in *.
  set (s6 := set_ez_pivot name pp s5) in *.
  assert (objects s5 !! pp = Some p) as Hpp5.
  { rewrite Hkeep5 by (by left). by rewrite Hobj4, lookup_insert_eq. }
  assert (is_Some (objects s6 !! pp)) as Hp6 by (by exists p).
  destruct (show_new_pivot_spec s6 pp Hp6)
    as (Hcolf & Hsof & Hscf & Hself & Hactf & Hdomf & Hparf & Hhidf).
  fold f in Hcolf, Hsof, Hscf, Hself, Hactf, Hdomf, Hparf, Hhidf.
  split; [done|]. split.
  { rewrite Hcolf. unfold s6, set_ez_pivot. cbn [collections with_collections].
    by rewrite lookup_alter_eq, Hc5, bool_decide_eq_true_2, Hc4n. }
  split.
  { intros k Hk. rewrite Hcolf. unfold s6, set_ez_pivot.
    cbn [collections with_collections].
    by rewrite lookup_alter_ne, Hc5, bool_decide_eq_false_2, Hc4. }
  split.
  { rewrite Hscf. change (scene_children s6) with (scene_children s5).
    rewrite Hsc5. change (scene_children s4) with (scene_children s3).
    rewrite Hsc3, filter_app. f_equal. by rewrite filter_singleton_True. }
  split.
  { rewrite Hsof. change (scene_objects s6) with (scene_objects s5).
    rewrite Hso5. exact Hso3. }
  split; [done|]. split; [done|]. split; [done|].
  split.
  { pose proof (show_new_pivot_geometry s6 pp pp) as Hgeo. cbv zeta in Hgeo. fold f in Hgeo.
    change (objects s6) with (objects s5) in Hgeo. rewrite Hpp5 in Hgeo.
    destruct (objects f !! pp) as [q|]; [|done]. exists q.
    split; [done|]. rewrite <-Hloc, <-Hparp.
    split; [exact (f_equal (λ x, from_option ob_location vzero x) Hgeo)
           |exact (f_equal (λ x : option Object, from_option ob_parent None x) Hgeo)]. }
  split.
  { intros col cp Hin Hcp. rewrite Hparf.
    change (ob_parent_of s6 cp) with (ob_parent_of s5 cp).
    assert (is_Some (objects st !! cp)) as Hex by (by apply (ref_pivot_exists st col)).
    assert (cp ≠ pp) as Hne by (intros ->; destruct Hex; congruence).
    apply (Hpar5 col cp Hin); [|done].
    apply ref_pivot_Some in Hcp as (c & Hc & Htag & _).
    apply ref_pivot_Some. exists c. split; [|split; [done|]].
    - rewrite Hc4; [done|]. by intros ->.
    - by rewrite Hobj4, lookup_insert_ne. }
  intros ob Hex Hnot. rewrite Hparf.
  change (ob_parent_of s6 ob) with (ob_parent_of s5 ob).
  assert (ob ≠ pp) as Hne by (intros ->; destruct Hex; congruence).
  unfold ob_parent_of. rewrite Hkeep5, Hobj4, lookup_insert_ne; [done|done|].
  right. intros col Hin (c & Hc & Htag & _)%ref_pivot_Some.
  apply (Hnot col Hin). apply ref_pivot_Some. exists c.
  split; [|done]. rewrite <-Hc4; [done|]. by intros ->.
Qed.

(** The state Merge leaves when it does not cancel. *)
Lemma merge_final (pname : string) (st : Blend) :
  2 ≤ length (merge_selected_collections st) →
  strip pname ≠ "" →
  omap (ref_pivot st) (merge_selected_collections st) ≠ [] →
  let sel := merge_selected_collections st in
  let name := generate_unique_name ("COL_" +:+ strip pname) (collection_names st) in
  let locs := omap (λ col, world_translation st <$> ref_pivot st col) sel in
  let out := ez_merge_collections pname st in
  status out = FINISHED ∧
  collections st !! name = None ∧
  ∃ pp,
    objects st !! pp = None ∧
    collections (final out) !! name
    = Some (mkCollection false false (Some pp) "COLOR_01" [pp] sel) ∧
    (∀ k, k ≠ name → collections (final out) !! k = collections st !! k) ∧
    scene_children (final out)
    = (filter (λ x, x ∉ sel) (scene_children st) ++ [name])%list ∧
    scene_objects (final out) = scene_objects st ∧
    selected_objects (final out) = [pp] ∧
    active_object (final out) = Some pp ∧
    (∀ o, is_ez_pivot (final out) o →
          hidden (final out) o = Some (bool_decide (o ≠ pp))) ∧
    (∃ p, objects (final out) !! pp = Some p ∧ ob_location p = vdiv (vsum locs) (length locs)
          ∧ ob_parent p = None) ∧
    (∀ col cp, col ∈ sel → ref_pivot st col = Some cp →
               ob_parent_of (final out) cp = Some pp) ∧
    (∀ ob, is_Some (objects st !! ob) →
           (∀ col, col ∈ sel → ref_pivot st col ≠ Some ob) →
           ob_parent_of (final out) ob = ob_parent_of st ob).
Proof.
  intros Hlen Hname Hpiv sel name locs out.
  destruct (collections_new_unique ("COL_" +:+ strip pname) st) as [Hfresh Hnew].
  fold name in Hfresh, Hnew.
  assert (∀ col, col ∈ sel → is_Some (collections st !! col)) as Hsel.
  { intros col. apply merge_selected_exist. }
  unfold out, ez_merge_collections. cbv zeta. fold sel.
  rewrite (bool_decide_eq_false_2 (length sel < 2)) by (unfold sel; lia).
  rewrite (bool_decide_eq_false_2 (strip pname = "")) by done.
  fold name. rewrite Hnew.
  set (s2 := children_link Master name _).
  assert (omap (λ col, world_translation s2 <$> ref_pivot s2 col) sel = locs) as ->.
  { unfold locs. apply omap_ext_in. intros col Hcol.
    unfold s2. rewrite ref_pivot_new_collection; [done|done|by apply Hsel]. }
  assert (locs ≠ []) as Hlocs.
  { unfold locs. rewrite omap_nil_iff. intros Hnone. apply Hpiv.
    apply omap_nil_iff. intros col Hcol. specialize (Hnone col Hcol).
    by apply fmap_None in Hnone. }
  rewrite (bool_decide_eq_false_2 (locs = [])) by done.
  destruct (create_smart_pivot name (vdiv (vsum locs) (length locs)) true s2)
    as [pp s3] eqn:Hcs.
  unfold finish. cbn [status final].
  split; [done|]. split; [done|]. exists pp.
  exact (merge_body st name sel (vdiv (vsum locs) (length locs)) pp s3 Hfresh Hsel Hcs).
Qed.

(** Merge gets past its three tests when there are two selected
    EZCollections or more, the name is not blank and one of them has a
    pivot; the list it works on then holds exactly the selected
    EZCollections, each once. *)
Lemma merge_runs (st : Blend) :
  ¬ fewer_than_two_selected_ez st →
  (∃ n cp, selected_ez st n ∧ ref_pivot st n = Some cp) →
  2 ≤ length (merge_selected_collections st) ∧
  omap (ref_pivot st) (merge_selected_collections st) ≠ [] ∧
  NoDup (merge_selected_collections st) ∧
  ∀ n, n ∈ merge_selected_collections st ↔ selected_ez st n.
Proof.
  intros Htwo (n & cp & Hn & Hcp).
  assert (¬ length (merge_selected_collections st) < 2) as Hlen.
  { intros H. by apply Htwo, merge_selected_few. }
  split; [lia|]. split; [|split].
  - rewrite omap_nil_iff. intros Hnone.
    rewrite (Hnone n) in Hcp; [done|]. by apply merge_selected_spec.
  - pose proof (merge_candidates_NoDup st) as Hnd. revert Hlen Hnd.
    unfold merge_selected_collections.
    destruct (merge_candidates st) as [|x l]; [|done].
    intros H. exfalso. apply H.
    destruct (active_ez_collection st) as [[? ?]|]; cbn; lia.
  - intros k. by apply merge_selected_spec.
Qed.

Lemma merge_scene_selected_ez (n : string) :
  n = "COL_A" ∨ n = "COL_B" → selected_ez merge_scene n.
Proof.
  intros [-> | ->].
  - exists "Cube". eexists. split; [apply list_elem_of_here|].
    split; [reflexivity|]. split; [apply list_elem_of_here|reflexivity].
  - exists "Ball". eexists. split; [apply list_elem_of_further, list_elem_of_here|].
    split; [reflexivity|]. split; [apply list_elem_of_here|reflexivity].
Qed.

Lemma merge_scene_two_selected : ¬ fewer_than_two_selected_ez merge_scene.
Proof.
  intros H.
  specialize (H "COL_A" "COL_B" (merge_scene_selected_ez _ (or_introl eq_refl))
                (merge_scene_selected_ez _ (or_intror eq_refl))).
  discriminate.
Qed.

Lemma merge_scene_pivots_selectable (n cp : string) :
  selected_ez merge_scene n → ref_pivot merge_scene n = Some cp →
  selectable merge_scene cp.
Proof.
  intros Hn%merge_candidates_spec Hcp.
  assert (merge_candidates merge_scene = ["COL_A"; "COL_B"]) as Hl
    by (vm_compute; reflexivity).
  rewrite Hl in Hn. clear Hl.
  assert (n = "COL_A" ∨ n = "COL_B") as [-> | ->].
  { apply elem_of_cons in Hn as [?|Hn]; [by left|].
    apply list_elem_of_singleton in Hn. by right. }
  - assert (cp = "Pivot_COL_A") as ->.
    { vm_compute in Hcp. by injection Hcp as <-. }
    split; [reflexivity|]. right. eexists "COL_A", _. split.
    + eapply layer_shown_top; [apply list_elem_of_here|reflexivity|reflexivity].
    + split; [reflexivity|]. apply list_elem_of_further, list_elem_of_here.
  - assert (cp = "Pivot_COL_B") as ->.
    { vm_compute in Hcp. by injection Hcp as <-. }
    split; [reflexivity|]. right. eexists "COL_B", _. split.
    + eapply layer_shown_top;
        [apply list_elem_of_further, list_elem_of_here|reflexivity|reflexivity].
    + split; [reflexivity|]. apply list_elem_of_further, list_elem_of_here.
Qed.





(** X23: When the pivots of the selected EZCollections are selectable,
    Merge gives each of them the new parent pivot as parent and leaves
    the parent of every other object as it was. *)
Theorem merge_parents_child_pivots (pname : string) (st : Blend) :
  ¬ fewer_than_two_selected_ez st →
  strip pname ≠ "" →
  (∃ n cp, selected_ez st n ∧ ref_pivot st n = Some cp) →
  (∀ n cp, selected_ez st n → ref_pivot st n = Some cp → selectable st cp) →
  let out := ez_merge_collections pname st in
  status out = FINISHED ∧
  ∃ pp,
    objects st !! pp = None ∧
    active_object (final out) = Some pp ∧
    (∀ col cp, selected_ez st col → ref_pivot st col = Some cp →
               ob_parent_of (final out) cp = Some pp) ∧
    (∀ ob, is_Some (objects st !! ob) →
           (∀ col, selected_ez st col → ref_pivot st col ≠ Some ob) →
           ob_parent_of (final out) ob = ob_parent_of st ob).
Proof.
  intros Htwo Hname Hsome _ out.
  destruct (merge_runs st Htwo Hsome) as (Hlen & Hpiv & Hnd & Hsel).
  destruct (merge_final pname st Hlen Hname Hpiv)
    as (Hfin & _ & pp & Hpp & _ & _ & _ & _ & _ & Hact & _ & _ & Hpar & Hkeep).
  split; [done|]. exists pp. split; [done|]. split; [done|]. split.
  - intros col cp Hcol. apply Hpar. by apply Hsel.
  - intros ob Hob Hno. apply Hkeep; [done|]. intros col Hcol. apply Hno.
    by apply Hsel.
Qed.

Lemma merge_parents_child_pivots_witness :
  let st := merge_scene in
  let out := ez_merge_collections "Group" st in
  status out = FINISHED ∧
  ∃ pp,
    objects st !! pp = None ∧
    active_object (final out) = Some pp ∧
    (∀ col cp, selected_ez st col → ref_pivot st col = Some cp →
               ob_parent_of (final out) cp = Some pp) ∧
    (∀ ob, is_Some (objects st !! ob) →
           (∀ col, selected_ez st col → ref_pivot st col ≠ Some ob) →
           ob_parent_of (final out) ob = ob_parent_of st ob).
Proof.
  apply (merge_parents_child_pivots "Group" merge_scene).
  - apply merge_scene_two_selected.
  - vm_compute. discriminate.
  - exists "COL_A", "Pivot_COL_A".
    split; [apply merge_scene_selected_ez; left; reflexivity|reflexivity].
  - apply merge_scene_pivots_selectable.
Defined.



(* ===================================================================== *)
(** ** Unmerge                                                         *)
(* ===================================================================== *)

(** The first step of a round of Unmerge: the pivot of the child
    collection, when it has a parent, loses it. *)
Lemma unmerge_clear_spec (s : Blend) (col : string) :
  let s1 := match ref_pivot s col with
            | Some child_pivot =>
                if bool_decide (is_Some (ob_parent_of s child_pivot)) then
                  parent_clear
                    (set_active child_pivot
                       (select_set child_pivot (select_all_deselect s)))
                else s
            | None => s
            end in
  collections s1 = collections s ∧
  scene_children s1 = scene_children s ∧
  scene_objects s1 = scene_objects s ∧
  ∀ ob, objects s1 !! ob
        = if bool_decide (ref_pivot s col = Some ob ∧ is_Some (ob_parent_of s ob))
          then ob_clear_parent <$> objects s !! ob
          else objects s !! ob.
Proof.
  cbv zeta. destruct (ref_pivot s col) as [cp|] eqn:Hcp.
  - case_bool_decide as Hpar.
    + rewrite select_only. split; [done|]. split; [done|]. split; [done|].
      intros ob. rewrite parent_clear_lookup.
      cbn [selected_objects objects set_active with_active with_selected].
      apply (f_equal (λ b : bool, if b then _ else _)).
      apply bool_decide_ext. rewrite list_elem_of_singleton.
      split; [by intros ->|by intros [[= ->] _]].
    + split; [done|]. split; [done|]. split; [done|].
      intros ob. rewrite bool_decide_eq_false_2; [done|].
      by intros [[= <-] ?].
  - split; [done|]. split; [done|]. split; [done|]. intros ob.
    rewrite bool_decide_eq_false_2; [done|]. by intros [? _].
Qed.

(** The loop of Unmerge: it runs to its end exactly when the children are
    distinct and none is linked to the scene already; then the children
    have moved from the parent collection to the scene and their pivots
    have no parent. *)
Lemma unmerge_children_spec (pc : string) (cols : list string) :
  ∀ s,
    let r := unmerge_children pc cols s in
    (r.2 = true ↔ NoDup cols ∧ ∀ col, col ∈ cols → col ∉ scene_children s) ∧
    scene_objects r.1 = scene_objects s ∧
    (∀ ob, ob_reparent None <$> objects r.1 !! ob
           = ob_reparent None <$> objects s !! ob) ∧
    (∀ ob, (∀ col, col ∈ cols → ref_pivot s col ≠ Some ob) →
           objects r.1 !! ob = objects s !! ob) ∧
    (r.2 = true →
     scene_children r.1 = (scene_children s ++ cols)%list ∧
     (∀ k, collections r.1 !! k
           = if bool_decide (k = pc)
             then (λ c, col_with_children
                          (filter (λ x, x ∉ cols) (col_children c)) c)
                    <$> collections s !! k
             else collections s !! k) ∧
     ∀ col cp, col ∈ cols → ref_pivot s col = Some cp →
               ob_parent_of r.1 cp = None).
Proof.
  induction cols as [|col rest IH]; intros s; cbv zeta.
  - cbn [unmerge_children fst snd]. split.
    { split; [|done]. intros _. split; [constructor|]. by intros ? ?%elem_of_nil. }
    split; [done|]. split; [done|]. split; [done|]. intros _.
    split; [by rewrite app_nil_r|]. split; [|by intros ? ? ?%elem_of_nil].
    intros k. case_bool_decide; [|done].
    destruct (collections s !! k) as [[]|]; cbn; [|done].
    by rewrite filter_all by (intros; apply not_elem_of_nil).
  - cbn [unmerge_children].
    destruct (unmerge_clear_spec s col) as (Hc1 & Hsc1 & Hso1 & Ho1).
    cbv zeta in Hc1, Hsc1, Hso1, Ho1.
    set (s1 := match ref_pivot s col with Some _ => _ | None => _ end) in *.
    cbv zeta. set (s2 := children_unlink (Named pc) col s1).
    assert (scene_children s2 = scene_children s) as Hsc2 by done.
    assert (∀ ob, ob_reparent None <$> objects s1 !! ob
                  = ob_reparent None <$> objects s !! ob) as Hfr1.
    { intros ob. rewrite Ho1. case_bool_decide; [|done].
      destruct (objects s !! ob) as [o|]; [|done]. cbn. unfold ob_clear_parent.
      by destruct (ob_parent o). }
    assert (∀ ob, (∀ c, c ∈ col :: rest → ref_pivot s c ≠ Some ob) →
                  objects s1 !! ob = objects s !! ob) as Hkeep1.
    { intros ob Hob. rewrite Ho1, bool_decide_eq_false_2; [done|].
      intros [? _]. by apply (Hob col); [left|]. }
    rewrite Hsc2. case_bool_decide as Hin; cbn [fst snd].
    { split.
      { split; [done|]. intros [_ Hnot]. exfalso. apply (Hnot col); [left|done]. }
      split; [done|]. split; [exact Hfr1|]. split; [exact Hkeep1|]. done. }
    set (s3 := children_link Master col s2).
    destruct (IH s3) as (Hflag & Hso & Hfr & Hkeep & Hpost). cbv zeta in *.
    set (r := unmerge_children pc rest s3) in *.
    assert (scene_children s3 = (scene_children s ++ [col])%list) as Hsc3.
    { unfold s3, children_link. cbn [scene_children with_scene_children]. by rewrite Hsc2. }
    assert (∀ k, collections s3 !! k
                 = if bool_decide (k = pc)
                   then (λ c, col_with_children
                                (filter (λ x, x ≠ col) (col_children c)) c)
                          <$> collections s !! k
                   else collections s !! k) as Hc3.
    { intros k. unfold s3, s2, children_link, children_unlink.
      cbn [collections with_collections with_scene_children]. rewrite Hc1.
      case_bool_decide as Hk.
      - subst k. by rewrite lookup_alter_eq.
      - by rewrite lookup_alter_ne. }
    assert (∀ ob, is_Some (objects s3 !! ob) ↔ is_Some (objects s !! ob)) as Hdom.
    { intros ob. change (objects s3) with (objects s1).
      rewrite <-(fmap_is_Some (ob_reparent None) (objects s1 !! ob)), Hfr1.
      by rewrite fmap_is_Some. }
    assert (∀ c, ref_pivot s3 c = ref_pivot s c) as Hrp.
    { intros c. apply ref_pivot_same; [|done]. rewrite Hc3.
      case_bool_decide; [|done]. by destruct (collections s !! c). }
    split.
    { rewrite Hflag, NoDup_cons. split.
      - intros [Hnd Hnot]. split; [split; [|done]|].
        + intros Hcol. apply (Hnot col Hcol). rewrite Hsc3.
          apply elem_of_app. right. by left.
        + intros c [-> | Hc]%elem_of_cons; [done|].
          specialize (Hnot c Hc). rewrite Hsc3 in Hnot.
          intros ?. apply Hnot, elem_of_app. by left.
      - intros [[Hcol Hnd] Hnot]. split; [done|]. intros c Hc. rewrite Hsc3.
        intros [? | ->%list_elem_of_singleton]%elem_of_app; [|done].
        apply (Hnot c); [by right|done]. }
    split; [by rewrite Hso|]. split.
    { intros ob. rewrite Hfr. exact (Hfr1 ob). }
    split.
    { intros ob Hob. rewrite Hkeep.
      - by apply Hkeep1.
      - intros c Hc. rewrite Hrp. apply Hob. by right. }
    intros Htrue. destruct (Hpost Htrue) as (Hsc & Hc & Hpar).
    split; [by rewrite Hsc, Hsc3, <-app_assoc|]. split.
    { intros k. rewrite Hc, Hc3. case_bool_decide; [|done].
      destruct (collections s !! k) as [[]|]; cbn; [|done].
      rewrite list_filter_filter.
      rewrite (list_filter_iff _ (λ x, x ∉ col :: rest)); [done|].
      intros x. rewrite not_elem_of_cons. tauto. }
    intros c cp Hc' Hcp.
    destruct (decide (c ∈ rest)) as [Hrest | Hrest].
    { apply (Hpar c cp Hrest). by rewrite Hrp. }
    apply elem_of_cons in Hc' as [-> | ?]; [|done].
    assert (ob_parent_of s1 cp = None) as H1.
    { unfold ob_parent_of. rewrite Ho1. case_bool_decide as Hb.
      - destruct (objects s !! cp); [apply ob_clear_parent_parent|done].
      - apply eq_None_not_Some. intros ?. by apply Hb. }
    destruct (decide (Forall (λ c', ref_pivot s3 c' ≠ Some cp) rest)) as [Hno | Hyes].
    + unfold ob_parent_of. rewrite (Hkeep cp (proj1 (Forall_forall _ _) Hno)).
      exact H1.
    + apply not_Forall_Exists in Hyes; [|apply _].
      apply Exists_exists in Hyes as (c' & Hc'in & Hc'p).
      apply dec_stable in Hc'p. by apply (Hpar c' cp Hc'in).
Qed.

Lemma active_ez_collection_Some (st : Blend) (col : string) (c : Collection) :
  active_ez_collection st = Some (col, c) → collections st !! col = Some c.
Proof.
  unfold active_ez_collection.
  destruct (active_layer_collection st) as [[|k]|]; try done.
  destruct (collections st !! k) as [c'|] eqn:Hk; [|done].
  destruct (is_ez_collection c'); [|done]. by intros [= <- <-].
Qed.



Lemma merged_shown_scene_pivots_selectable (col cp : string) :
  col ∈ ["COL_A"; "COL_B"] → ref_pivot merged_shown_scene col = Some cp →
  selectable merged_shown_scene cp.
Proof.
  intros Hcol Hcp.
  assert (layer_shown merged_shown_scene "COL_P") as Hp.
  { eapply layer_shown_top; [apply list_elem_of_here|reflexivity|reflexivity]. }
  assert (col = "COL_A" ∨ col = "COL_B") as [-> | ->].
  { apply elem_of_cons in Hcol as [?|Hcol]; [by left|].
    apply list_elem_of_singleton in Hcol. by right. }
  - assert (cp = "Pivot_COL_A") as ->.
    { vm_compute in Hcp. by injection Hcp as <-. }
    split; [reflexivity|]. right. eexists "COL_A", _. split.
    + eapply layer_shown_child;
        [exact Hp|reflexivity|apply list_elem_of_here|reflexivity|reflexivity].
    + split; [reflexivity|]. apply list_elem_of_further, list_elem_of_here.
  - assert (cp = "Pivot_COL_B") as ->.
    { vm_compute in Hcp. by injection Hcp as <-. }
    split; [reflexivity|]. right. eexists "COL_B", _. split.
    + eapply layer_shown_child;
        [exact Hp|reflexivity|do 2 apply list_elem_of_further; apply list_elem_of_here
        |reflexivity|reflexivity].
    + split; [reflexivity|]. apply list_elem_of_here.
Qed.

(** X26: When the child EZCollections of the active collection are
    distinct, none of them is linked to the scene already and their
    pivots are selectable, Unmerge finishes, the children have moved from
    the active collection to the end of the scene's children, no other
    collection has changed, the pivots of the children have no parent and
    every other object is as it was. *)
Theorem unmerge_returns_children_to_scene (st : Blend) (pc : string)
    (c : Collection) :
  active_ez_collection st = Some (pc, c) →
  let children := filter (λ n, ref_is_ez st (Named n) = true) (col_children c) in
  children ≠ [] →
  NoDup children →
  (∀ col, col ∈ children → col ∉ scene_children st) →
  (∀ col cp, col ∈ children → ref_pivot st col = Some cp → selectable st cp) →
  let out := ez_unmerge_collections st in
  status out = FINISHED ∧
  scene_children (final out) = (scene_children st ++ children)%list ∧
  collections (final out) !! pc
  = Some (col_with_children (filter (λ x, x ∉ children) (col_children c)) c) ∧
  (∀ k, k ≠ pc → collections (final out) !! k = collections st !! k) ∧
  (∀ col cp, col ∈ children → ref_pivot st col = Some cp →
             ob_parent_of (final out) cp = None) ∧
  (∀ ob, (∀ col, col ∈ children → ref_pivot st col ≠ Some ob) →
         objects (final out) !! ob = objects st !! ob).
Proof.
  intros Hact children Hne Hnd Hfree _ out. unfold out, ez_unmerge_collections.
  rewrite Hact. cbv zeta. fold children.
  rewrite bool_decide_eq_false_2 by done.
  destruct (unmerge_children_spec pc children st)
    as ([_ Hflag] & _ & _ & Hkeep & Hpost).
  cbv zeta in Hflag, Hkeep, Hpost.
  specialize (Hflag (conj Hnd Hfree)). specialize (Hpost Hflag).
  destruct Hpost as (Hsc & Hc & Hpar).
  destruct (unmerge_children pc children st) as [s b]; cbn [fst snd] in *.
  subst b. unfold finish. cbn [status final].
  split; [done|]. split; [done|]. split.
  { by rewrite Hc, bool_decide_eq_true_2, (active_ez_collection_Some st pc c). }
  split; [|done]. intros k Hk. by rewrite Hc, bool_decide_eq_false_2.
Qed.

Lemma unmerge_returns_children_to_scene_witness :
  let st := merged_shown_scene in
  let pc := "COL_P" in
  let c := mkCollection false false (Some "Pivot_COL_P") "COLOR_01"
             ["Pivot_COL_P"] ["COL_A"; "Props"; "COL_B"] in
  let children := filter (λ n, ref_is_ez st (Named n) = true) (col_children c) in
  let out := ez_unmerge_collections st in
  status out = FINISHED ∧
  scene_children (final out) = (scene_children st ++ children)%list ∧
  collections (final out) !! pc
  = Some (col_with_children (filter (λ x, x ∉ children) (col_children c)) c) ∧
  (∀ k, k ≠ pc → collections (final out) !! k = collections st !! k) ∧
  (∀ col cp, col ∈ children → ref_pivot st col = Some cp →
             ob_parent_of (final out) cp = None) ∧
  (∀ ob, (∀ col, col ∈ children → ref_pivot st col ≠ Some ob) →
         objects (final out) !! ob = objects st !! ob).
Proof.
  apply (unmerge_returns_children_to_scene merged_shown_scene "COL_P").
  - vm_compute. reflexivity.
  - vm_compute. discriminate.
  - apply (bool_decide_unpack _). vm_compute. reflexivity.
  - apply Forall_forall. apply (bool_decide_unpack _). vm_compute. reflexivity.
  - intros col cp Hcol. apply merged_shown_scene_pivots_selectable.
    assert (filter (λ n, ref_is_ez merged_shown_scene (Named n) = true)
              ["COL_A"; "Props"; "COL_B"] = ["COL_A"; "COL_B"]) as Hl
      by (vm_compute; reflexivity).
    cbn [col_children] in Hcol. rewrite Hl in Hcol. exact Hcol.
Defined.

(* ===================================================================== *)
(** ** Add                                                             *)
(* ===================================================================== *)

Lemma foldl_ext_all {A B} (f g : A → B → A) (l : list B) (a : A) :
  (∀ a b, f a b = g a b) → foldl f a l = foldl g a l.
Proof.
  intros Hfg. revert a. induction l as [|b l IH]; intros a; [done|].
  cbn. by rewrite Hfg, IH.
Qed.

(** One round of the loop of Add: an object that is not a member yet
    becomes a member of the collection and of nothing else. *)
Lemma add_member_spec (col : string) (st : Blend) (m : string) :
  is_Some (collections st !! col) →
  let st' := add_member col st m in
  dom (collections st') = dom (collections st) ∧
  objects st' = objects st ∧
  ∀ r ob, ob ∈ ref_objects st' r ↔
          (ob = m ∧ (m ∉ ref_objects st (Named col)) ∧ r = Named col) ∨
          ((ob ≠ m ∨ m ∈ ref_objects st (Named col)) ∧ ob ∈ ref_objects st r).
Proof.
  intros Hcol st'. unfold st', add_member. case_bool_decide as Hin.
  { split; [done|]. split; [done|]. intros r ob. split.
    - intros ?. right. split; [by right|done].
    - intros [(_ & ? & _) | [_ ?]]; done. }
  cbv zeta.
  rewrite (foldl_ext_all _
             (λ s pc, if (λ pc, bool_decide (pc = Named col)) pc then s
                      else objects_unlink pc m s)).
  2:{ intros s pc. by destruct (decide (pc = Named col));
        [rewrite bool_decide_eq_false_2, bool_decide_eq_true_2 by tauto
        |rewrite bool_decide_eq_true_2, bool_decide_eq_false_2 by tauto]. }
  set (keep := λ pc : CollRef, bool_decide (pc = Named col)).
  destruct (unlink_each_collections m keep (users_collection st m) st) as [Hd Ho].
  pose proof (unlink_each_spec m keep (users_collection st m) st) as Hs.
  set (s1 := foldl _ st _) in *.
  split; [cbn; by rewrite dom_alter_L|]. split; [exact Ho|].
  assert (is_Some (collections s1 !! col)) as Hcol1.
  { apply elem_of_dom. rewrite Hd. by apply elem_of_dom. }
  intros r ob. destruct (decide (r = Named col)) as [-> | Hr].
  - rewrite ref_objects_link_same by done.
    rewrite elem_of_app, list_elem_of_singleton, Hs. split.
    + intros [[Hob Hnot] | ->]; [|by left]. right. split; [|done].
      left. by intros ->.
    + intros [(-> & _) | [[Hne | ?] Hob]]; [by right| |done].
      left. split; [done|]. by intros (-> & _).
  - rewrite ref_objects_link_other by done. rewrite Hs. split.
    + intros [Hob Hnot]. right. split; [|done]. left. intros ->.
      apply Hnot. split; [done|]. split; [by apply users_collection_spec|].
      unfold keep. by rewrite bool_decide_eq_false_2.
    + intros [(_ & _ & ?) | [[Hne | ?] Hob]]; [done| |done].
      split; [done|]. by intros (-> & _).
Qed.

Lemma add_each_spec (col : string) (l : list string) :
  ∀ st, is_Some (collections st !! col) →
    let st' := foldl (add_member col) st l in
    dom (collections st') = dom (collections st) ∧
    objects st' = objects st ∧
    ∀ r ob, ob ∈ ref_objects st' r ↔
            (ob ∈ l ∧ (ob ∉ ref_objects st (Named col)) ∧ r = Named col) ∨
            (((ob ∉ l) ∨ ob ∈ ref_objects st (Named col)) ∧ ob ∈ ref_objects st r).
Proof.
  induction l as [|m l IH] using rev_ind; intros st Hcol; cbv zeta.
  - cbn [foldl]. split; [done|]. split; [done|]. intros r ob. split.
    + intros ?. right. split; [left; apply not_elem_of_nil|done].
    + by intros [(?%elem_of_nil & _) | [_ ?]].
  - rewrite foldl_snoc. destruct (IH st Hcol) as (Hd & Ho & Hmem).
    set (s := foldl _ st l) in *.
    assert (is_Some (collections s !! col)) as Hcols.
    { apply elem_of_dom. rewrite Hd. by apply elem_of_dom. }
    destruct (add_member_spec col s m Hcols) as (Hd' & Ho' & Hmem').
    split; [by rewrite Hd', Hd|]. split; [by rewrite Ho', Ho|].
    intros r ob. rewrite Hmem', !Hmem, !elem_of_app, !list_elem_of_singleton.
    clear Hmem Hmem' Hd Hd' Ho Ho' IH Hcols Hcol.
    destruct (decide (ob = m)) as [Heq | Hne];
      destruct (decide (m ∈ l)); destruct (decide (ob ∈ l));
      destruct (decide (m ∈ ref_objects st (Named col)));
      destruct (decide (ob ∈ ref_objects st (Named col)));
      destruct (decide (r = Named col));
      subst; tauto.
Qed.

(** The state Add leaves when it does not cancel. *)
Lemma add_final (st : Blend) (col : string) (c : Collection) (pivot : string) :
  active_ez_collection st = Some (col, c) →
  get_collection_pivot st c = Some pivot →
  let sel := filter (λ ob, ob ≠ pivot) (selected_objects st) in
  sel ≠ [] →
  let out := ez_add_to_collection st in
  status out = FINISHED ∧
  (∀ r ob, ob ∈ ref_objects (final out) r ↔
           (ob ∈ sel ∧ (ob ∉ col_objects c) ∧ r = Named col) ∨
           (((ob ∉ sel) ∨ ob ∈ col_objects c) ∧ ob ∈ ref_objects st r)) ∧
  (∀ x, x ∈ selected_objects (final out) ↔
        x = pivot ∨ (x ∈ sel ∧ is_root_in st sel x = true)) ∧
  (∀ ob, objects (final out) !! ob
         = if bool_decide (ob ∈ sel ∧ is_root_in st sel ob = true)
           then ob_reparent (Some pivot) <$> objects st !! ob
           else objects st !! ob).
Proof.
  intros Hact Hp sel Hne out. unfold out, ez_add_to_collection.
  rewrite Hact, Hp. cbv zeta. fold sel.
  rewrite bool_decide_eq_false_2 by done. unfold finish. cbn [status final].
  pose proof (active_ez_collection_Some st col c Hact) as Hc.
  assert (is_Some (collections st !! col)) as Hcol by (by eexists).
  destruct (add_each_spec col sel st Hcol) as (Hd & Ho & Hmem).
  set (s := foldl (add_member col) st sel) in *.
  assert (ref_objects st (Named col) = col_objects c) as Hrc.
  { cbn. by rewrite Hc. }
  rewrite Hrc in Hmem.
  destruct (pph_spec sel pivot s pivot) as (Hroots & Hcol' & Hsel & _).
  destruct (pph_scene sel pivot s) as [Hso _].
  assert (∀ x, is_root_in s sel x = is_root_in st sel x) as Hroot.
  { intros x. unfold is_root_in, ob_parent_of. by rewrite Ho. }
  assert (∀ x, x ∈ (preserve_parent_hierarchy sel pivot s).1
               ↔ x ∈ sel ∧ is_root_in st sel x = true) as Hr.
  { intros x. rewrite Hroots, list_elem_of_filter, Hroot. tauto. }
  split; [done|]. split.
  { intros r ob. rewrite <-Hmem. destruct r as [|n]; cbn [ref_objects].
    - by rewrite Hso.
    - by rewrite Hcol'. }
  split.
  { intros x. rewrite Hsel, Hr. done. }
  intros ob. destruct (pph_spec sel pivot s ob) as (_ & _ & _ & ->).
  rewrite Ho. apply (f_equal (λ b : bool, if b then _ else _)).
  apply bool_decide_ext. rewrite Hr. split; [tauto|].
  intros [Hin ?]. split; [done|].
  unfold sel in Hin. by apply list_elem_of_filter in Hin as [? _].
Qed.

Lemma merge_scene_pivot_selectable : selectable merge_scene "Pivot_COL_A".
Proof.
  apply (merge_scene_pivots_selectable "COL_A"); [|reflexivity].
  apply merge_scene_selected_ez. by left.
Qed.

(** X27: With a pivot that is selectable and has no parent, Add finishes
    and moves into the active collection the selected objects that are
    not members yet, out of every collection that had them; members that
    were selected and all other objects stay where they were. *)
Theorem add_collects_selection (st : Blend) (col : string) (c : Collection)
    (pivot : string) :
  active_ez_collection st = Some (col, c) →
  get_collection_pivot st c = Some pivot →
  selectable st pivot →
  ob_parent_of st pivot = None →
  let sel := filter (λ ob, ob ≠ pivot) (selected_objects st) in
  sel ≠ [] →
  let out := ez_add_to_collection st in
  status out = FINISHED ∧
  ∀ r ob, ob ∈ ref_objects (final out) r ↔
          (ob ∈ sel ∧ (ob ∉ col_objects c) ∧ r = Named col) ∨
          (((ob ∉ sel) ∨ ob ∈ col_objects c) ∧ ob ∈ ref_objects st r).
Proof.
  intros Hact Hp _ _ sel Hne out.
  destruct (add_final st col c pivot Hact Hp Hne) as (Hfin & Hmem & _). done.
Qed.

Lemma add_collects_selection_witness :
  let st := merge_scene in
  let col := "COL_A" in
  let c := mkCollection false false (Some "Pivot_COL_A") "COLOR_02"
             ["Cube"; "Pivot_COL_A"] [] in
  let sel := filter (λ ob, ob ≠ "Pivot_COL_A") (selected_objects st) in
  let out := ez_add_to_collection st in
  status out = FINISHED ∧
  ∀ r ob, ob ∈ ref_objects (final out) r ↔
          (ob ∈ sel ∧ (ob ∉ col_objects c) ∧ r = Named col) ∨
          (((ob ∉ sel) ∨ ob ∈ col_objects c) ∧ ob ∈ ref_objects st r).
Proof.
  apply (add_collects_selection merge_scene "COL_A").
  - vm_compute. reflexivity.
  - vm_compute. reflexivity.
  - apply merge_scene_pivot_selectable.
  - reflexivity.
  - vm_compute. discriminate.
Defined.



(* ===================================================================== *)
(** ** Version 1.2 against version 2.4                                 *)
(* ===================================================================== *)

Lemma clear_parents_spec (l : list string) :
  ∀ st, let st' := foldl LegacyOperators.clear_parent_of st l in
        collections st' = collections st ∧
        scene_objects st' = scene_objects st ∧
        scene_children st' = scene_children st ∧
        ∀ ob, objects st' !! ob
              = if bool_decide (ob ∈ l)
                then ob_clear_parent <$> objects st !! ob
                else objects st !! ob.
Proof.
  induction l as [|m l IH] using rev_ind; intros st; cbv zeta.
  - cbn [foldl]. split; [done|]. split; [done|]. split; [done|]. intros ob.
    by rewrite bool_decide_eq_false_2 by apply not_elem_of_nil.
  - rewrite foldl_snoc. destruct (IH st) as (Hc & Hso & Hsc & Ho).
    set (s := foldl _ st l) in *.
    unfold LegacyOperators.clear_parent_of. cbv zeta. rewrite select_only.
    split; [done|]. split; [done|]. split; [done|]. intros ob.
    rewrite parent_clear_lookup.
    cbn [selected_objects objects set_active with_active with_selected].
    rewrite Ho.
    destruct (decide (ob = m)) as [-> | Hne].
    + rewrite (bool_decide_eq_true_2 (m ∈ [m])) by left.
      rewrite (bool_decide_eq_true_2 (m ∈ (l ++ [m])%list))
        by (apply elem_of_app; right; left).
      case_bool_decide; [|done].
      destruct (objects st !! m); [|done]. cbn. by rewrite ob_clear_parent_idemp.
    + rewrite (bool_decide_eq_false_2 (ob ∈ [m]))
        by (by intros ?%list_elem_of_singleton).
      apply (f_equal (λ b : bool, if b then _ else _)).
      apply bool_decide_ext. rewrite elem_of_app, list_elem_of_singleton. tauto.
Qed.

(** X29: Version 1.2 of Create clears the parents of the selected objects
    before it tests the name: with a blank name it cancels with the same
    report as version 2.4, but every selected object has lost its parent
    (every other parent link and every collection is kept), where
    version 2.4 returns the state it received. *)
Theorem legacy_create_blank_name_clears_parents (suffix : string) (st : Blend) :
  selected_objects st ≠ [] →
  strip suffix = "" →
  let old := LegacyOperators.ez_create_collection suffix st in
  let new := ez_create_collection suffix st in
  status old = CANCELLED ∧ status new = CANCELLED ∧
  reports old = reports new ∧
  final new = st ∧
  collections (final old) = collections st ∧
  ∀ ob, ob_parent_of (final old) ob
        = if bool_decide (ob ∈ selected_objects st)
          then None else ob_parent_of st ob.
Proof.
  intros Hsel Hname old new.
  unfold old, new, LegacyOperators.ez_create_collection, ez_create_collection.
  cbv zeta. rewrite !(bool_decide_eq_false_2 (selected_objects st = [])) by done.
  rewrite !(bool_decide_eq_true_2 (strip suffix = "")) by done.
  unfold cancel. cbn [status reports final].
  destruct (clear_parents_spec (selected_objects st) st) as (Hc & _ & _ & Ho).
  repeat (split; [done|]). intros ob. apply ob_parent_of_clear, Ho.
Qed.

Lemma legacy_create_blank_name_clears_parents_witness :
  let st := locked_scene in
  let old := LegacyOperators.ez_create_collection "  " st in
  let new := ez_create_collection "  " st in
  status old = CANCELLED ∧ status new = CANCELLED ∧
  reports old = reports new ∧
  final new = st ∧
  collections (final old) = collections st ∧
  ∀ ob, ob_parent_of (final old) ob
        = if bool_decide (ob ∈ selected_objects st)
          then None else ob_parent_of st ob.
Proof.
  apply (legacy_create_blank_name_clears_parents "  " locked_scene).
  - discriminate.
  - vm_compute. reflexivity.
Defined.

Lemma select_others_spec (pivot : string) (l : list string) :
  ∀ s, let s' := foldl (λ s ob, if bool_decide (ob ≠ pivot) then select_set ob s
                                else s) s l in
       with_selected (selected_objects s) s' = s ∧
       ∀ x, x ∈ selected_objects s' ↔
            x ∈ selected_objects s ∨ (x ∈ l ∧ x ≠ pivot).
Proof.
  induction l as [|m l IH]; intros s; cbn [foldl]; cbv zeta.
  - split; [by destruct s|]. intros x. split; [by left|].
    by intros [? | [?%elem_of_nil _]].
  - case_bool_decide as Hm.
    + destruct (IH (select_set m s)) as [Hframe Hsel]. split.
      * change (with_selected (selected_objects s) ?t)
          with (with_selected (selected_objects s)
                  (with_selected (selected_objects (select_set m s)) t)).
        rewrite Hframe. unfold select_set. case_bool_decide; by destruct s.
      * intros x. rewrite Hsel. unfold select_set.
        case_bool_decide as Hin; cbn [selected_objects with_selected].
        -- split; [intros [? | [? ?]]; [by left|right; split; [by right|done]]|].
           intros [? | [[-> | ?]%elem_of_cons ?]]; [by left|by left|by right].
        -- rewrite elem_of_app, list_elem_of_singleton. split.
           ++ intros [[? | ->] | [? ?]];
                [by left|right; split; [by left|done]|right; split; [by right|done]].
           ++ intros [? | [[-> | ?]%elem_of_cons ?]];
                [left; by left|left; by right|by right].
    + subst m.
      destruct (IH s) as [Hframe Hsel]. split; [done|].
      intros x. rewrite Hsel. split.
      * intros [? | [? ?]]; [by left|right; split; [by right|done]].
      * intros [? | [[-> | ?]%elem_of_cons ?]]; [by left|done|by right].
Qed.

Lemma legacy_lock_spec (st : Blend) (col : string) (c : Collection)
    (pivot : string) :
  active_ez_collection st = Some (col, c) →
  get_collection_pivot st c = Some pivot →
  let old := LegacyOperators.ez_pivot_lock st in
  let members := filter (λ ob, ob ≠ pivot) (col_objects c) in
  status old = FINISHED ∧
  reports old = reports (ez_pivot_lock st) ∧
  collections (final old) = collections st ∧
  ∀ ob, objects (final old) !! ob
        = if bool_decide (ob ∈ members)
          then ob_reparent (Some pivot) <$> objects st !! ob
          else objects st !! ob.
Proof.
  intros Hact Hp old members.
  pose proof (active_ez_collection_Some st col c Hact) as Hc.
  assert (active_layer_collection st = Some (Named col)) as Halc.
  { revert Hact. unfold active_ez_collection.
    destruct (active_layer_collection st) as [[|k]|]; try done.
    destruct (collections st !! k) as [c'|]; [|done].
    destruct (is_ez_collection c'); [|done]. by intros [= -> _]. }
  assert (LegacyOperators.tagged_pivot st (Named col) = Some pivot) as Htp.
  { revert Hp. unfold LegacyOperators.tagged_pivot, get_collection_pivot.
    rewrite Hc. simpl. destruct (col_ez_pivot c) as [p|]; simpl; [|done].
    destruct (objects st !! p); simpl; [|done]. done. }
  assert (reports (ez_pivot_lock st) = [(INFO, "Pivot '" +:+ pivot +:+ "' locked.")])
    as Hrep.
  { unfold ez_pivot_lock. by rewrite Hact, Hp. }
  unfold old, LegacyOperators.ez_pivot_lock. rewrite Halc, Htp. cbv zeta.
  rewrite select_only. unfold finish. cbn [status reports final].
  assert (ref_objects st (Named col) = col_objects c) as -> by (cbn; by rewrite Hc).
  destruct (select_others_spec pivot (col_objects c) (with_selected [pivot] st))
    as [Hframe Hsel].
  set (s := foldl _ (with_selected [pivot] st) (col_objects c)) in *.
  assert (objects s = objects st ∧ collections s = collections st) as [Ho Hcs].
  { change (objects s) with (objects (with_selected [pivot] s)).
    change (collections s) with (collections (with_selected [pivot] s)).
    cbn [selected_objects with_selected] in Hframe. by rewrite Hframe. }
  split; [done|]. split; [by rewrite Hrep|].
  destruct (parent_set_frame (set_active pivot s)) as (_ & _ & ->).
  split; [exact Hcs|].
  intros ob. rewrite (parent_set_lookup (set_active pivot s) pivot ob eq_refl).
  cbn [objects selected_objects set_active with_active]. rewrite Ho.
  apply (f_equal (λ b : bool, if b then _ else _)).
  apply bool_decide_ext. rewrite Hsel.
  cbn [selected_objects with_selected]. unfold members.
  rewrite list_elem_of_filter, list_elem_of_singleton. tauto.
Qed.

(** X30: On an EZCollection whose pivot is selectable and has no parent,
    and whose members are selectable, Lock of version 1.2 gives the pivot
    as parent to every member, where version 2.4 gives it only to the
    members whose parent is none or not a member and keeps the parent of
    the others; both keep every other parent link and every collection,
    and report the same. *)
Theorem legacy_lock_parents_every_member (st : Blend) (col : string)
    (c : Collection) (pivot : string) :
  active_ez_collection st = Some (col, c) →
  get_collection_pivot st c = Some pivot →
  selectable st pivot →
  ob_parent_of st pivot = None →
  Forall (selectable st) (col_objects c) →
  let old := LegacyOperators.ez_pivot_lock st in
  let new := ez_pivot_lock st in
  let members := filter (λ ob, ob ≠ pivot) (col_objects c) in
  status old = FINISHED ∧ status new = FINISHED ∧
  reports old = reports new ∧
  collections (final old) = collections st ∧
  collections (final new) = collections st ∧
  (∀ ob, is_Some (objects st !! ob) →
         ob_parent_of (final old) ob
         = if bool_decide (ob ∈ members)
           then Some pivot else ob_parent_of st ob) ∧
  (∀ ob, is_Some (objects st !! ob) →
         ob_parent_of (final new) ob
         = if bool_decide (ob ∈ members ∧ is_root_in st members ob = true)
           then Some pivot else ob_parent_of st ob).
Proof.
  intros Hact Hp _ _ _ old new members.
  destruct (lock_spec st col c pivot Hact Hp) as (Hfin & Hcnew & Hnew).
  destruct (legacy_lock_spec st col c pivot Hact Hp) as (Hfo & Hrep & Hcold & Hold).
  split; [done|]. split; [done|]. split; [done|]. split; [done|]. split; [done|].
  split; intros ob Hob; (apply ob_parent_of_reparent; [|done]).
  - apply Hold.
  - apply Hnew.
Qed.

Lemma legacy_lock_parents_every_member_witness :
  let st := locked_scene in
  let pivot := "Pivot_COL_A" in
  let c := mkCollection false false (Some "Pivot_COL_A") "COLOR_02"
             ["Cube"; "Ball"; "Pivot_COL_A"] [] in
  let old := LegacyOperators.ez_pivot_lock st in
  let new := ez_pivot_lock st in
  let members := filter (λ ob, ob ≠ pivot) (col_objects c) in
  status old = FINISHED ∧ status new = FINISHED ∧
  reports old = reports new ∧
  collections (final old) = collections st ∧
  collections (final new) = collections st ∧
  (∀ ob, is_Some (objects st !! ob) →
         ob_parent_of (final old) ob
         = if bool_decide (ob ∈ members)
           then Some pivot else ob_parent_of st ob) ∧
  (∀ ob, is_Some (objects st !! ob) →
         ob_parent_of (final new) ob
         = if bool_decide (ob ∈ members ∧ is_root_in st members ob = true)
           then Some pivot else ob_parent_of st ob).
Proof.
  apply (legacy_lock_parents_every_member locked_scene "COL_A").
  - vm_compute. reflexivity.
  - vm_compute. reflexivity.
  - apply locked_scene_selectable. do 2 apply list_elem_of_further.
    apply list_elem_of_here.
  - reflexivity.
  - apply Forall_forall. intros ob Hin. by apply locked_scene_selectable.
Defined.
